(** * Template scanner and JSON persistence (modules/playground/lib/path-to-json.ts)

    A shallow embedding of [scanTemplateDirectory], [processDirectory],
    [saveTemplateStructureToJson] and [readTemplateStructureFromJson],
    together with the parts of the JavaScript runtime they rely on
    ([path.parse], [path.basename], [RegExp.prototype.test],
    [JSON.stringify], [JSON.parse]).

    Conventions.
    - A JavaScript string is the list of its UTF-16 code units.
    - Paths follow the POSIX flavour of Node's [path] module.
    - An [async] function is a computation in the monad [M]: it threads
      the mutable part of the world and either returns or throws. *)

From Stdlib Require Import NArith ZArith Lia String Ascii Decimal.
From stdpp Require Import base option list gmap.

Set Default Proof Using "Type".
Set Warnings "-register-all".
Local Open Scope Z_scope.

(** ** Strings *)

Abbreviation jstring := (list N).

Definition js (s : string) : jstring :=
  map N_of_ascii (list_ascii_of_string s).

Arguments js : simpl never.

Definition CHAR_FORWARD_SLASH : N := 47.
Definition CHAR_DOT : N := 46.

(** [s.charCodeAt(i)] for an index inside the string (the loops below ask
    for no other). *)
Definition charCodeAt (s : jstring) (i : Z) : N :=
  default 0%N (s !! Z.to_nat i).

(** [s.slice(a, b)] for [0 <= a] and [0 <= b]. *)
Definition slice (s : jstring) (a b : Z) : jstring :=
  take (Z.to_nat b - Z.to_nat a) (drop (Z.to_nat a) s).

(** [s.replace(pat, empty)] with a string pattern of one code unit and the
    empty string as replacement: only the first occurrence is removed. *)
Fixpoint remove_first (c : N) (s : jstring) : jstring :=
  match s with
  | [] => []
  | x :: r => if (x =? c)%N then r else x :: remove_first c r
  end.

(** [arr.includes(x)] on an array of strings. *)
Definition includes (arr : list jstring) (x : jstring) : bool :=
  bool_decide (x ∈ arr).

(** Decimal rendering of a non-negative integer, as in a template literal. *)
Fixpoint uint_digits (u : Decimal.uint) : jstring :=
  match u with
  | Nil => []
  | D0 r => 48%N :: uint_digits r
  | D1 r => 49%N :: uint_digits r
  | D2 r => 50%N :: uint_digits r
  | D3 r => 51%N :: uint_digits r
  | D4 r => 52%N :: uint_digits r
  | D5 r => 53%N :: uint_digits r
  | D6 r => 54%N :: uint_digits r
  | D7 r => 55%N :: uint_digits r
  | D8 r => 56%N :: uint_digits r
  | D9 r => 57%N :: uint_digits r
  end.

Definition decimal (n : N) : jstring := uint_digits (N.to_uint n).

(** The two halves of a surrogate pair. *)
Definition is_high_surrogate (c : N) : bool :=
  N.leb 55296 c && N.leb c 56319.
Definition is_low_surrogate (c : N) : bool :=
  N.leb 56320 c && N.leb c 57343.

(** A text after it is encoded to UTF-8 and decoded again, as
    [writeFile(_, _, "utf8")] followed by [readFile(_, "utf8")] does: a
    surrogate pair is one code point and comes back as it is, a surrogate
    without its partner comes back as U+FFFD. *)
Fixpoint utf8_round_trip (s : jstring) : jstring :=
  match s with
  | [] => []
  | c :: r =>
      if is_high_surrogate c then
        match r with
        | d :: r' =>
            if is_low_surrogate d then c :: d :: utf8_round_trip r'
            else 65533%N :: utf8_round_trip r
        | [] => [65533%N]
        end
      else if is_low_surrogate c then 65533%N :: utf8_round_trip r
      else c :: utf8_round_trip r
  end.

(** ** Node's [path] module (POSIX) *)

Module path.

(** The loop variables of [parse]. *)
Record ScanState := MkScan {
  startDot : Z;
  startPart : Z;
  endIdx : Z;
  matchedSlash : bool;
  preDotState : Z
}.

Definition see_first_char (i : Z) (s : ScanState) : ScanState :=
  if endIdx s =? -1
  then MkScan (startDot s) (startPart s) (i + 1) false (preDotState s)
  else s.

Definition see_dot (i : Z) (s : ScanState) : ScanState :=
  if startDot s =? -1
  then MkScan i (startPart s) (endIdx s) (matchedSlash s) (preDotState s)
  else if negb (preDotState s =? 1)
  then MkScan (startDot s) (startPart s) (endIdx s) (matchedSlash s) 1
  else s.

Definition see_other (s : ScanState) : ScanState :=
  if negb (startDot s =? -1)
  then MkScan (startDot s) (startPart s) (endIdx s) (matchedSlash s) (-1)
  else s.

(** [for (; i >= start; --i)] with [k] iterations left; the current index
    is [start + k - 1]. *)
Fixpoint parse_loop (p : jstring) (start : Z) (k : nat) (s : ScanState)
  : ScanState :=
  match k with
  | O => s
  | S k' =>
      let i := start + Z.of_nat k' in
      let code := charCodeAt p i in
      if (code =? CHAR_FORWARD_SLASH)%N then
        if negb (matchedSlash s)
        then MkScan (startDot s) (i + 1) (endIdx s) (matchedSlash s)
                    (preDotState s)
        else parse_loop p start k' s
      else
        let s1 := see_first_char i s in
        let s2 := if (code =? CHAR_DOT)%N then see_dot i s1
                  else see_other s1 in
        parse_loop p start k' s2
  end.

Record ParsedPath := MkParsed {
  base : jstring;
  ext : jstring;
  name : jstring
}.

(** [path.parse(p)], fields [base], [ext] and [name]. *)
Definition parse (p : jstring) : ParsedPath :=
  if bool_decide (length p = 0%nat) then MkParsed [] [] [] else
  let isAbsolute := (charCodeAt p 0 =? CHAR_FORWARD_SLASH)%N in
  let start := if isAbsolute then 1 else 0 in
  let s := parse_loop p start (length p - Z.to_nat start)
                      (MkScan (-1) 0 (-1) true 0) in
  if negb (endIdx s =? -1) then
    let start' := if (startPart s =? 0) && isAbsolute then 1
                  else startPart s in
    if (startDot s =? -1)
       || (preDotState s =? 0)
       || ((preDotState s =? 1)
           && (startDot s =? endIdx s - 1)
           && (startDot s =? startPart s + 1))
    then MkParsed (slice p start' (endIdx s)) []
                  (slice p start' (endIdx s))
    else MkParsed (slice p start' (endIdx s))
                  (slice p (startDot s) (endIdx s))
                  (slice p start' (startDot s))
  else MkParsed [] [] [].

(** The loop of [basename]: returns [(start, end)]. *)
Fixpoint basename_loop (p : jstring) (k : nat)
         (start endI : Z) (matched : bool) : Z * Z :=
  match k with
  | O => (start, endI)
  | S k' =>
      let i := Z.of_nat k' in
      if (charCodeAt p i =? CHAR_FORWARD_SLASH)%N then
        if negb matched then (i + 1, endI)
        else basename_loop p k' start endI matched
      else if endI =? -1 then basename_loop p k' start (i + 1) false
      else basename_loop p k' start endI matched
  end.

(** [path.basename(p)] without a suffix. *)
Definition basename (p : jstring) : jstring :=
  let '(start, endI) := basename_loop p (length p) 0 (-1) true in
  if endI =? -1 then [] else slice p start endI.

(** The loop of [dirname], [i] from [length - 1] down to [1]: returns
    [end]. *)
Fixpoint dirname_loop (p : jstring) (k : nat) (matched : bool) : Z :=
  match k with
  | O => -1
  | S k' =>
      let i := Z.of_nat k in
      if (charCodeAt p i =? CHAR_FORWARD_SLASH)%N then
        if negb matched then i else dirname_loop p k' matched
      else dirname_loop p k' false
  end.

(** [path.dirname(p)]. *)
Definition dirname (p : jstring) : jstring :=
  if bool_decide (length p = 0%nat) then [CHAR_DOT] else
  let hasRoot := (charCodeAt p 0 =? CHAR_FORWARD_SLASH)%N in
  let endI := dirname_loop p (length p - 1) true in
  if endI =? -1 then
    if hasRoot then [CHAR_FORWARD_SLASH] else [CHAR_DOT]
  else if hasRoot && (endI =? 1)
  then [CHAR_FORWARD_SLASH; CHAR_FORWARD_SLASH]
  else slice p 0 endI.

(** [path.join(dir, entry)] for a directory path and one entry name. The
    normalisation of the result is left out: the joined path only labels
    the file-system calls of the trace. *)
Definition join (dir entry : jstring) : jstring :=
  dir ++ CHAR_FORWARD_SLASH :: entry.

End path.

(** ** Regular expressions

    A fragment of the pattern language that covers the default ignore
    patterns, matched by backtracking in the priority order of the
    language specification. A [RegExp] object carries its [lastIndex],
    which [test] reads and writes when the flag [g] or [y] is set. *)

Inductive Pattern :=
| PEmpty
| PChar (c : N)
| PDot
| PBol
| PEol
| PSeq (a b : Pattern)
| PAlt (a b : Pattern)
| PStar (a : Pattern)
| PPlus (a : Pattern).

Definition isLineTerminator (c : N) : bool :=
  ((c =? 10) || (c =? 13) || (c =? 8232) || (c =? 8233))%N.

(** The end positions of the matches of [r] that start at [i], in the
    order in which backtracking tries them. *)
Fixpoint ends (r : Pattern) (s : jstring) (i : nat) : list nat :=
  match r with
  | PEmpty => [i]
  | PChar c =>
      match s !! i with
      | Some x => if (x =? c)%N then [S i] else []
      | None => []
      end
  | PDot =>
      match s !! i with
      | Some x => if isLineTerminator x then [] else [S i]
      | None => []
      end
  | PBol => if bool_decide (i = 0%nat) then [i] else []
  | PEol => if bool_decide (i = length s) then [i] else []
  | PSeq a b => e ← ends a s i; ends b s e
  | PAlt a b => ends a s i ++ ends b s i
  | PStar a =>
      (fix star (fuel : nat) (i : nat) : list nat :=
         match fuel with
         | O => [i]
         | S fuel' =>
             (e ← ends a s i;
              if bool_decide (e = i) then [] else star fuel' e) ++ [i]
         end) (S (length s)) i
  | PPlus a =>
      e ← ends a s i;
      (fix star (fuel : nat) (i : nat) : list nat :=
         match fuel with
         | O => [i]
         | S fuel' =>
             (e ← ends a s i;
              if bool_decide (e = i) then [] else star fuel' e) ++ [i]
         end) (S (length s)) e
  end.

Definition PStr (s : jstring) : Pattern :=
  foldr (fun c r => PSeq (PChar c) r) PEmpty s.

Record RegExp := MkRegExp {
  source : Pattern;
  global : bool;
  sticky : bool;
  lastIndex : nat
}.

(** A regular expression literal without flags. *)
Definition literal (p : Pattern) : RegExp := MkRegExp p false false 0.

(** The search of [RegExpBuiltinExec]: the first start position at or
    after [i] with a match, or only [i] for a sticky expression. *)
Fixpoint search (p : Pattern) (stick : bool) (s : jstring)
         (fuel : nat) (i : nat) : option nat :=
  match fuel with
  | O => None
  | S fuel' =>
      if bool_decide (length s < i)%nat then None
      else match ends p s i with
           | e :: _ => Some e
           | [] => if stick then None else search p stick s fuel' (S i)
           end
  end.

(** [r.test(s)]: the answer and the object after the call. *)
Definition RegExp_test (r : RegExp) (s : jstring) : bool * RegExp :=
  let stateful := global r || sticky r in
  let start := if stateful then lastIndex r else 0%nat in
  match search (source r) (sticky r) s (S (S (length s))) start with
  | Some e =>
      (true, if stateful then MkRegExp (source r) (global r) (sticky r) e
             else r)
  | None =>
      (false, if stateful then MkRegExp (source r) (global r) (sticky r) 0
              else r)
  end.

(** [patterns.some(p => p.test(s))]: stops at the first pattern that
    answers [true]; the patterns tried so far keep their new [lastIndex]. *)
Fixpoint some_test (ps : list RegExp) (s : jstring) : bool * list RegExp :=
  match ps with
  | [] => (false, [])
  | p :: ps' =>
      let '(b, p') := RegExp_test p s in
      if b then (true, p' :: ps')
      else let '(b', ps'') := some_test ps' s in (b', p' :: ps'')
  end.

(** [/^\..+\.swp$/], [/^\.#/] and [/~$/]. *)
Definition swap_file_pattern : Pattern :=
  PSeq PBol (PSeq (PChar 46) (PSeq (PPlus PDot) (PSeq (PStr (js ".swp")) PEol))).
Definition lock_file_pattern : Pattern :=
  PSeq PBol (PStr (js ".#")).
Definition backup_file_pattern : Pattern :=
  PSeq (PChar 126) PEol.

(** ** The template tree *)

Record TemplateFile := MkFile {
  filename : jstring;
  fileExtension : jstring;
  content : jstring
}.

Inductive TemplateItem :=
| ItemFile (f : TemplateFile)
| ItemFolder (name : jstring) (children : list TemplateItem).

Record TemplateFolder := MkFolder {
  folderName : jstring;
  items : list TemplateItem
}.

Definition as_item (d : TemplateFolder) : TemplateItem :=
  ItemFolder (folderName d) (items d).

(** Every option may be absent. [maxFileSize] is a number of bytes; the
    model takes it among the integers. *)
Record ScanOptions := MkOptions {
  ignoreFiles : option (list jstring);
  ignoreFolders : option (list jstring);
  ignorePatterns : option (list RegExp);
  maxFileSize : option Z
}.

Definition EMPTY_TEMPLATE : TemplateFolder :=
  MkFolder (js "empty-template") [].

(** ** The file system

    What a scan can observe below a path: for a regular file the size that
    [stat] reports and the text that [readFile] decodes, for a directory
    the entries that [readdir] lists, each with its name. Every call may
    fail on its own: [None] stands for a call that throws. A directory
    entry that is neither a directory nor a regular file (symbolic link,
    socket, device) is [Special]. The tree is finite because
    [Dirent.isDirectory()] is false for a symbolic link. *)

Inductive FsNode :=
| RegularFile (size : option N) (text : option jstring)
| Directory (listing : option (list (jstring * FsNode)))
| Special.

(** [Dirent.isDirectory()] and [Dirent.isFile()]. *)
Definition isDirectory (n : FsNode) : bool :=
  match n with Directory _ => true | _ => false end.
Definition isFile (n : FsNode) : bool :=
  match n with RegularFile _ _ => true | _ => false end.

(** The part of the environment that a call cannot change: what [stat]
    finds at a path, and whether [mkdir] and [writeFile] succeed. *)
Record World := MkWorld {
  lookup_path : jstring -> option FsNode;
  mkdir_ok : jstring -> bool;
  write_ok : jstring -> jstring -> bool
}.

Inductive Event :=
| EvStat (p : jstring)
| EvReaddir (p : jstring)
| EvReadFile (p : jstring)
| EvMkdir (p : jstring) (recursive : bool)
| EvWriteFile (p : jstring)
| EvWarn (msg : jstring).

(** The mutable part: the [RegExp] objects of the [ignorePatterns] array
    in use, in the order of the array and taken to be distinct objects
    (their [lastIndex] changes under [test]); the text of the documents in
    the store; and the calls made so far. *)
Record State := MkState {
  regexps : list RegExp;
  documents : gmap jstring jstring;
  trace : list Event
}.

Definition set_regexps (ps : list RegExp) (st : State) : State :=
  MkState ps (documents st) (trace st).
Definition set_document (p d : jstring) (st : State) : State :=
  MkState (regexps st) (<[p := d]> (documents st)) (trace st).
Definition log (e : Event) (st : State) : State :=
  MkState (regexps st) (documents st) (trace st ++ [e]).

(** ** Computations that may throw *)

Inductive Error :=
| IOError
| SyntaxError.

Inductive Res (A : Type) :=
| Ok (a : A)
| Throw (e : Error).
Arguments Ok {A} a.
Arguments Throw {A} e.

Definition M (S A : Type) : Type := S -> Res A * S.

Definition ret {S A} (a : A) : M S A := fun s => (Ok a, s).
Definition throw {S A} (e : Error) : M S A := fun s => (Throw e, s).
Definition bind {S A B} (m : M S A) (k : A -> M S B) : M S B :=
  fun s => match m s with
           | (Ok a, s') => k a s'
           | (Throw e, s') => (Throw e, s')
           end.
(** [try { m } catch { h }]: the effects of [m] before the throw stay. *)
Definition try_catch {S A} (m : M S A) (h : Error -> M S A) : M S A :=
  fun s => match m s with
           | (Ok a, s') => (Ok a, s')
           | (Throw e, s') => h e s'
           end.
Definition modify {S} (f : S -> S) : M S unit := fun s => (Ok tt, f s).

Declare Scope js_scope.
Delimit Scope js_scope with js.
Notation "x <- m ;; k" := (bind m (fun x => k))
  (at level 100, m at next level, right associativity) : js_scope.
Notation "m ;; k" := (bind m (fun _ => k))
  (at level 100, right associativity) : js_scope.
Local Open Scope js_scope.

(** A block with a local array [items]: the array is part of the state of
    the block, so what was pushed before a throw is still there after it. *)
Definition Frame : Type := State * list TemplateItem.

Definition lift {A} (m : M State A) : M Frame A :=
  fun '(st, its) => let '(r, st') := m st in (r, (st', its)).
Definition push (x : TemplateItem) : M Frame unit :=
  fun '(st, its) => (Ok tt, (st, its ++ [x])).

(** ** File-system and console calls *)

Definition console_warn (msg : jstring) : M State unit :=
  modify (log (EvWarn msg)).

(** [stat(p)]: what is at [p], or a throw when there is nothing. *)
Definition fs_stat_path (w : World) (p : jstring) : M State FsNode :=
  modify (log (EvStat p)) ;;
  match lookup_path w p with
  | Some n => ret n
  | None => throw IOError
  end.

(** [stat(p).size] of the regular file [n] found at [p]. *)
Definition fs_stat_size (p : jstring) (n : FsNode) : M State N :=
  modify (log (EvStat p)) ;;
  match n with
  | RegularFile (Some sz) _ => ret sz
  | _ => throw IOError
  end.

(** [readFile(p, "utf8")] of the regular file [n] found at [p]. *)
Definition fs_readFile_node (p : jstring) (n : FsNode) : M State jstring :=
  modify (log (EvReadFile p)) ;;
  match n with
  | RegularFile _ (Some t) => ret t
  | _ => throw IOError
  end.

(** [readdir(p, { withFileTypes: true })] on the node [n] found at [p]:
    throws unless [n] is a directory that can be listed. The entries it
    returns are read off [n] by the caller. *)
Definition fs_readdir (p : jstring) (n : FsNode) : M State unit :=
  modify (log (EvReaddir p)) ;;
  match n with
  | Directory (Some _) => ret tt
  | _ => throw IOError
  end.

(** [options.ignorePatterns?.some((p) => p.test(entryName))]. *)
Definition some_pattern (options : ScanOptions) (entryName : jstring)
  : M State bool :=
  match ignorePatterns options with
  | None => ret false
  | Some _ =>
      fun st => let '(b, ps) := some_test (regexps st) entryName in
                (Ok b, set_regexps ps st)
  end.

(** [arr?.includes(x)]: [undefined] when the array is absent, which
    counts as false. *)
Definition includes_opt (arr : option (list jstring)) (x : jstring) : bool :=
  match arr with
  | Some l => includes l x
  | None => false
  end.

(** [options.maxFileSize && size > options.maxFileSize]. *)
Definition too_large (options : ScanOptions) (size : N) : bool :=
  match maxFileSize options with
  | Some m => negb (m =? 0) && (m <? Z.of_N size)
  | None => false
  end.

(** [`[File too large: ${stats.size} bytes]`]. *)
Definition too_large_marker (size : N) : jstring :=
  js "[File too large: " ++ decimal size ++ js " bytes]".

(** ** The scanner *)

Section Loop.

(** [processDirectory] on the children of the directory being listed. *)
Variable process : jstring -> jstring -> FsNode -> M State TemplateFolder.
Variable options : ScanOptions.
Variable folderPath : jstring.

(** The object pushed for a file: [parsed.name], [parsed.ext] without its
    first dot, and the content. *)
Definition file_item (entryName content : jstring) : TemplateItem :=
  let parsed := path.parse entryName in
  ItemFile (MkFile (path.name parsed)
                   (remove_first CHAR_DOT (path.ext parsed))
                   content).

(** One iteration of [for (const entry of entries)]. *)
Definition processEntry (entry : jstring * FsNode) : M Frame unit :=
  let '(entryName, node) := entry in
  let entryPath := path.join folderPath entryName in
  if isDirectory node then
    if includes_opt (ignoreFolders options) entryName then ret tt
    else d <- lift (process entryName entryPath node) ;;
         push (as_item d)
  else if isFile node then
    if includes_opt (ignoreFiles options) entryName then ret tt
    else
      skip <- lift (some_pattern options entryName) ;;
      if (skip : bool) then ret tt
      else
        try_catch
          (size <- lift (fs_stat_size entryPath node) ;;
           content <- (if too_large options size
                       then ret (too_large_marker size)
                       else lift (fs_readFile_node entryPath node)) ;;
           push (file_item entryName content))
          (fun _ => push (file_item entryName []))
  else ret tt.

Fixpoint forEntries (entries : list (jstring * FsNode)) : M Frame unit :=
  match entries with
  | [] => ret tt
  | entry :: rest => processEntry entry ;; forEntries rest
  end.

End Loop.

(** What the loop over [entries] pushes when it starts in [st] with an
    empty array, and the state it ends in. *)
Definition run_with (process : jstring -> jstring -> FsNode -> M State TemplateFolder)
           (options : ScanOptions) (folderPath : jstring)
           (entries : list (jstring * FsNode)) (st : State)
  : list TemplateItem * State :=
  let '(_, (st', its)) :=
    forEntries process options folderPath entries (st, []) in
  (its, st').

(** The [catch] of [processDirectory]. *)
Definition warn_directory (folderPath : jstring) : M Frame unit :=
  lift (console_warn (js "Error processing directory " ++ folderPath)).

(** [processDirectory(folderName, folderPath, options)], where [node] is
    what the file system holds at [folderPath]. The array [items] is
    declared before the [try], so the folder returned holds what was
    pushed, also after a throw. *)
Fixpoint processDirectory (folderName folderPath : jstring)
         (options : ScanOptions) (node : FsNode) {struct node}
  : M State TemplateFolder :=
  fun st =>
    let block : M Frame unit :=
      try_catch
        (lift (fs_readdir folderPath node) ;;
         match node with
         | Directory (Some entries) =>
             forEntries (fun n p c => processDirectory n p options c)
                        options folderPath entries
         | _ => ret tt
         end)
        (fun _ => warn_directory folderPath) in
    match block (st, []) with
    | (Ok _, (st', items)) => (Ok (MkFolder folderName items), st')
    | (Throw e, (st', _)) => (Throw e, st')
    end.

Definition defaultOptions : ScanOptions :=
  MkOptions
    (Some [js "package-lock.json"; js "yarn.lock"; js ".DS_Store";
           js "thumbs.db"; js ".gitignore"; js ".npmrc"; js ".yarnrc";
           js ".env"; js ".env.local"; js ".env.development";
           js ".env.production"])
    (Some [js "node_modules"; js ".git"; js ".vscode"; js ".idea";
           js "dist"; js "build"; js "coverage"])
    (Some [literal swap_file_pattern; literal lock_file_pattern;
           literal backup_file_pattern])
    (Some (1024 * 1024)).

(** [arr || []]. *)
Definition or_empty {A} (arr : option (list A)) : list A := default [] arr.

Definition mergedOptions (options : ScanOptions) : ScanOptions :=
  MkOptions
    (Some (or_empty (ignoreFiles defaultOptions)
           ++ or_empty (ignoreFiles options)))
    (Some (or_empty (ignoreFolders defaultOptions)
           ++ or_empty (ignoreFolders options)))
    (Some (or_empty (ignorePatterns defaultOptions)
           ++ or_empty (ignorePatterns options)))
    (match maxFileSize options with
     | Some m => Some m
     | None => maxFileSize defaultOptions
     end).

(** The pattern objects of the merged array become the ones in use. *)
Definition use_patterns (options : ScanOptions) : M State unit :=
  modify (set_regexps (or_empty (ignorePatterns options))).

(** [scanTemplateDirectory(templatePath, options)]. The first [try] either
    returns early ([inl]) or falls through with what [stat] found ([inr]). *)
Definition scanTemplateDirectory (w : World) (templatePath : jstring)
           (options : ScanOptions) : M State TemplateFolder :=
  let merged := mergedOptions options in
  use_patterns merged ;;
  found <- try_catch
             (stats <- fs_stat_path w templatePath ;;
              if negb (isDirectory stats) then ret (inl EMPTY_TEMPLATE)
              else ret (inr stats))
             (fun _ =>
                console_warn (js "Template directory not found: "
                              ++ templatePath) ;;
                ret (inl EMPTY_TEMPLATE)) ;;
  match found with
  | inl early => ret early
  | inr root =>
      let folderName := path.basename templatePath in
      processDirectory folderName templatePath merged root
  end.

(** A call without the [options] argument gets [{}]. *)
Definition noOptions : ScanOptions := MkOptions None None None None.

Definition initial (docs : gmap jstring jstring) : State :=
  MkState [] docs [].

(** ** JSON

    A parsed document is kept as a tree whose objects list their members
    in the order of the text. A number keeps its lexeme. *)

Inductive JValue :=
| JNull
| JBool (b : bool)
| JNumber (lexeme : jstring)
| JString (s : jstring)
| JArray (elements : list JValue)
| JObject (members : list (jstring * JValue)).

Module JSON.

Local Open Scope N_scope.

(** *** [JSON.stringify(value, null, 2)] *)

Definition hex_digit (n : N) : N :=
  if n <? 10 then 48 + n else 87 + n.

(** [\uXXXX] in lower-case hexadecimal. *)
Definition unicode_escape (c : N) : jstring :=
  [92; 117; hex_digit (c / 4096 mod 16); hex_digit (c / 256 mod 16);
   hex_digit (c / 16 mod 16); hex_digit (c mod 16)].

(** The body of [QuoteJSONString]: two-character escapes, [\u] escapes
    for the other control characters and for unpaired surrogates. *)
Fixpoint quote_chars (s : jstring) : jstring :=
  match s with
  | [] => []
  | c :: r =>
      if c =? 8 then 92 :: 98 :: quote_chars r
      else if c =? 9 then 92 :: 116 :: quote_chars r
      else if c =? 10 then 92 :: 110 :: quote_chars r
      else if c =? 12 then 92 :: 102 :: quote_chars r
      else if c =? 13 then 92 :: 114 :: quote_chars r
      else if c =? 34 then 92 :: 34 :: quote_chars r
      else if c =? 92 then 92 :: 92 :: quote_chars r
      else if c <? 32 then unicode_escape c ++ quote_chars r
      else if is_high_surrogate c then
        match r with
        | d :: r' =>
            if is_low_surrogate d then c :: d :: quote_chars r'
            else unicode_escape c ++ quote_chars r
        | [] => unicode_escape c
        end
      else if is_low_surrogate c then unicode_escape c ++ quote_chars r
      else c :: quote_chars r
  end.

Definition QuoteJSONString (s : jstring) : jstring :=
  34 :: quote_chars s ++ [34].

Definition gap : jstring := [32; 32].

Fixpoint join (sep : jstring) (parts : list jstring) : jstring :=
  match parts with
  | [] => []
  | [x] => x
  | x :: rest => x ++ sep ++ join sep rest
  end.

(** [SerializeJSONProperty] with the current indentation [stepback]. *)
Fixpoint serialize (stepback : jstring) (v : JValue) : jstring :=
  let indent := stepback ++ gap in
  let separator := 44 :: 10 :: indent in
  match v with
  | JNull => js "null"
  | JBool true => js "true"
  | JBool false => js "false"
  | JNumber lexeme => lexeme
  | JString s => QuoteJSONString s
  | JArray elements =>
      match map (serialize indent) elements with
      | [] => js "[]"
      | partial =>
          91 :: 10 :: indent ++ join separator partial
             ++ 10 :: stepback ++ [93]
      end
  | JObject members =>
      match map (fun '(k, x) =>
                   QuoteJSONString k ++ 58 :: 32 :: serialize indent x)
                members with
      | [] => js "{}"
      | partial =>
          123 :: 10 :: indent ++ join separator partial
              ++ 10 :: stepback ++ [125]
      end
  end.

Definition stringify (v : JValue) : jstring := serialize [] v.

(** *** [JSON.parse(text)] *)

Definition is_ws (c : N) : bool :=
  (c =? 32) || (c =? 9) || (c =? 10) || (c =? 13).

Fixpoint skip_ws (s : jstring) : jstring :=
  match s with
  | c :: r => if is_ws c then skip_ws r else s
  | [] => []
  end.

Definition hex_value (c : N) : option N :=
  if (48 <=? c) && (c <=? 57) then Some (c - 48)
  else if (97 <=? c) && (c <=? 102) then Some (c - 87)
  else if (65 <=? c) && (c <=? 70) then Some (c - 55)
  else None.

Definition hex4 (a b c d : N) : option N :=
  match hex_value a, hex_value b, hex_value c, hex_value d with
  | Some x, Some y, Some z, Some t => Some (x * 4096 + y * 256 + z * 16 + t)
  | _, _, _, _ => None
  end.

(** The character a two-character escape stands for. *)
Definition unescape (e : N) : option N :=
  if e =? 34 then Some 34
  else if e =? 92 then Some 92
  else if e =? 47 then Some 47
  else if e =? 98 then Some 8
  else if e =? 102 then Some 12
  else if e =? 110 then Some 10
  else if e =? 114 then Some 13
  else if e =? 116 then Some 9
  else None.

Definition cons_char (c : N) (r : option (jstring * jstring))
  : option (jstring * jstring) :=
  match r with
  | Some (cs, rest) => Some (c :: cs, rest)
  | None => None
  end.

(** A string after its opening quote: its value and the text after the
    closing quote. *)
Fixpoint parse_chars (s : jstring) : option (jstring * jstring) :=
  match s with
  | [] => None
  | c :: r =>
      if c =? 34 then Some ([], r)
      else if c =? 92 then
        match r with
        | [] => None
        | e :: r1 =>
            if e =? 117 then
              match r1 with
              | h1 :: h2 :: h3 :: h4 :: r2 =>
                  match hex4 h1 h2 h3 h4 with
                  | Some u => cons_char u (parse_chars r2)
                  | None => None
                  end
              | _ => None
              end
            else
              match unescape e with
              | Some x => cons_char x (parse_chars r1)
              | None => None
              end
        end
      else if c <? 32 then None
      else cons_char c (parse_chars r)
  end.

Definition is_digit (c : N) : bool := (48 <=? c) && (c <=? 57).

Fixpoint span_digits (s : jstring) : jstring * jstring :=
  match s with
  | c :: r => if is_digit c
              then let '(ds, rest) := span_digits r in (c :: ds, rest)
              else ([], s)
  | [] => ([], [])
  end.

Definition parse_exponent (acc s : jstring) : option (jstring * jstring) :=
  match s with
  | e :: r =>
      if (e =? 101) || (e =? 69) then
        let '(sign, r1) :=
          match r with
          | x :: r' => if (x =? 43) || (x =? 45) then ([x], r') else ([], r)
          | [] => ([], r)
          end in
        match span_digits r1 with
        | ([], _) => None
        | (ds, rest) => Some (acc ++ e :: sign ++ ds, rest)
        end
      else Some (acc, s)
  | [] => Some (acc, s)
  end.

Definition parse_fraction (acc s : jstring) : option (jstring * jstring) :=
  match s with
  | c :: r =>
      if c =? 46 then
        match span_digits r with
        | ([], _) => None
        | (ds, rest) => parse_exponent (acc ++ c :: ds) rest
        end
      else parse_exponent acc s
  | [] => parse_exponent acc s
  end.

(** A number: its lexeme and the text after it. *)
Definition parse_number (s : jstring) : option (jstring * jstring) :=
  let '(sign, s1) :=
    match s with
    | c :: r => if c =? 45 then ([c], r) else ([], s)
    | [] => ([], s)
    end in
  match s1 with
  | d :: r =>
      if d =? 48 then parse_fraction (sign ++ [d]) r
      else if is_digit d then
        let '(ds, rest) := span_digits r in
        parse_fraction (sign ++ d :: ds) rest
      else None
  | [] => None
  end.

Fixpoint strip_prefix (pre s : jstring) : option jstring :=
  match pre, s with
  | [], _ => Some s
  | p :: pre', c :: s' => if c =? p then strip_prefix pre' s' else None
  | _ :: _, [] => None
  end.

Definition parse_literal (s : jstring) : option (JValue * jstring) :=
  match strip_prefix (js "true") s with
  | Some r => Some (JBool true, r)
  | None =>
      match strip_prefix (js "false") s with
      | Some r => Some (JBool false, r)
      | None =>
          match strip_prefix (js "null") s with
          | Some r => Some (JNull, r)
          | None =>
              match parse_number s with
              | Some (lexeme, r) => Some (JNumber lexeme, r)
              | None => None
              end
          end
      end
  end.

(** The text after the character [c], when the text starts with it. *)
Definition starts_with (c : N) (s : jstring) : option jstring :=
  match s with
  | x :: r => if x =? c then Some r else None
  | [] => None
  end.

(** Recursive descent; [fuel] bounds the depth of the calls. *)
Fixpoint parse_value (fuel : nat) (s : jstring)
  : option (JValue * jstring) :=
  match fuel with
  | O => None
  | S fuel' =>
      match skip_ws s with
      | [] => None
      | c :: r =>
          if c =? 123 then
            match starts_with 125 (skip_ws r) with
            | Some r' => Some (JObject [], r')
            | None =>
                match parse_members fuel' r with
                | Some (ms, rest) => Some (JObject ms, rest)
                | None => None
                end
            end
          else if c =? 91 then
            match starts_with 93 (skip_ws r) with
            | Some r' => Some (JArray [], r')
            | None =>
                match parse_elements fuel' r with
                | Some (vs, rest) => Some (JArray vs, rest)
                | None => None
                end
            end
          else if c =? 34 then
            match parse_chars r with
            | Some (str, rest) => Some (JString str, rest)
            | None => None
            end
          else parse_literal (c :: r)
      end
  end
with parse_elements (fuel : nat) (s : jstring)
  : option (list JValue * jstring) :=
  match fuel with
  | O => None
  | S fuel' =>
      match parse_value fuel' s with
      | Some (v, r) =>
          match starts_with 44 (skip_ws r) with
          | Some r' =>
              match parse_elements fuel' r' with
              | Some (vs, rest) => Some (v :: vs, rest)
              | None => None
              end
          | None =>
              match starts_with 93 (skip_ws r) with
              | Some r' => Some ([v], r')
              | None => None
              end
          end
      | None => None
      end
  end
with parse_members (fuel : nat) (s : jstring)
  : option (list (jstring * JValue) * jstring) :=
  match fuel with
  | O => None
  | S fuel' =>
      match starts_with 34 (skip_ws s) with
      | Some r =>
          match parse_chars r with
          | Some (k, r1) =>
              match starts_with 58 (skip_ws r1) with
              | Some r2 =>
                  match parse_value fuel' r2 with
                  | Some (v, r3) =>
                      match starts_with 44 (skip_ws r3) with
                      | Some r4 =>
                          match parse_members fuel' r4 with
                          | Some (ms, rest) => Some ((k, v) :: ms, rest)
                          | None => None
                          end
                      | None =>
                          match starts_with 125 (skip_ws r3) with
                          | Some r4 => Some ([(k, v)], r4)
                          | None => None
                          end
                      end
                  | None => None
                  end
              | None => None
              end
          | None => None
          end
      | None => None
      end
  end.

(** The value of a text that is one JSON value between white space. Every
    call of the descent consumes input at least every second step, so
    twice the length of the text is fuel enough. *)
Definition parse_text (text : jstring) : option JValue :=
  match parse_value (2 * length text + 2) text with
  | Some (v, rest) =>
      match skip_ws rest with
      | [] => Some v
      | _ => None
      end
  | None => None
  end.

(** [JSON.parse(text)]: throws a [SyntaxError] on any other text. *)
Definition parse {S} (text : jstring) : M S JValue :=
  match parse_text text with
  | Some v => ret v
  | None => throw SyntaxError
  end.

(** No number inside. *)
Fixpoint plain (v : JValue) : bool :=
  match v with
  | JNumber _ => false
  | JArray elements => forallb plain elements
  | JObject members => forallb (fun '(_, x) => plain x) members
  | _ => true
  end.

End JSON.

(** The JavaScript object behind a template tree. *)
Fixpoint item_value (it : TemplateItem) : JValue :=
  match it with
  | ItemFile f =>
      JObject [(js "filename", JString (filename f));
               (js "fileExtension", JString (fileExtension f));
               (js "content", JString (content f))]
  | ItemFolder n children =>
      JObject [(js "folderName", JString n);
               (js "items", JArray (map item_value children))]
  end.

Definition folder_value (d : TemplateFolder) : JValue :=
  item_value (as_item d).

(** ** The persistence adapter *)

(** [mkdir(p, { recursive: true })]: the call makes [p] together with
    every missing directory above it, and does not throw when [p] is
    there already. The trace keeps the call with its option; whether it
    succeeds is for the world to say. *)
Definition fs_mkdir (w : World) (p : jstring) : M State unit :=
  modify (log (EvMkdir p true)) ;;
  if mkdir_ok w p then ret tt else throw IOError.

(** [writeFile(p, data, "utf8")]: the store keeps the text that a later
    [readFile(p, "utf8")] decodes. *)
Definition fs_writeFile (w : World) (p data : jstring) : M State unit :=
  modify (log (EvWriteFile p)) ;;
  if write_ok w p data then modify (set_document p (utf8_round_trip data))
  else throw IOError.

Definition fs_readFile (p : jstring) : M State jstring :=
  modify (log (EvReadFile p)) ;;
  fun st => match documents st !! p with
            | Some d => (Ok d, st)
            | None => (Throw IOError, st)
            end.

(** [templateStructure ?? EMPTY_TEMPLATE] is [templateStructure]: the
    scanner never returns [null] or [undefined]. *)
Definition saveTemplateStructureToJson (w : World)
           (templatePath outputPath : jstring) (options : option ScanOptions)
  : M State unit :=
  try_catch
    (templateStructure <-
       scanTemplateDirectory w templatePath (default noOptions options) ;;
     fs_mkdir w (path.dirname outputPath) ;;
     fs_writeFile w outputPath
                  (JSON.stringify (folder_value templateStructure)))
    (fun _ =>
       console_warn (js "Template generation failed, writing empty template") ;;
       fs_mkdir w (path.dirname outputPath) ;;
       fs_writeFile w outputPath
                    (JSON.stringify (folder_value EMPTY_TEMPLATE))).

(** The result is whatever the document holds: the cast to
    [TemplateFolder] checks nothing at run time. *)
Definition readTemplateStructureFromJson (filePath : jstring)
  : M State JValue :=
  try_catch
    (data <- fs_readFile filePath ;;
     JSON.parse data)
    (fun _ => ret (folder_value EMPTY_TEMPLATE)).

(** [process] returns a folder for the node [c], whatever the state. *)
Definition total_at (process : jstring -> jstring -> FsNode -> M State TemplateFolder)
           (c : FsNode) : Prop :=
  forall n p st, exists d st', process n p c st = (Ok d, st').

(** The loop of [processDirectory] itself. *)
Definition run_entries (options : ScanOptions) (folderPath : jstring)
           (entries : list (jstring * FsNode)) (st : State)
  : list TemplateItem * State :=
  run_with (fun n p c => processDirectory n p options c)
           options folderPath entries st.

(** ** Vocabulary of the statements *)

(** The state after a [readdir] that threw and the warning of the [catch]. *)
Definition readdir_failed (folderPath : jstring) (st : State) : State :=
  log (EvWarn (js "Error processing directory " ++ folderPath))
      (log (EvReaddir folderPath) st).

(** The file entry [entryName] passes both filters when the loop reaches
    it in state [st]. *)
Definition retained (options : ScanOptions) (st : State)
           (entryName : jstring) : bool :=
  negb (includes_opt (ignoreFiles options) entryName)
  && match (some_pattern options entryName st).1 with
     | Ok skip => negb skip
     | Throw _ => false
     end.

(** The calls made for a retained file: [stat], then [readFile] unless
    [stat] threw or the size is over the bound. *)
Definition file_calls (options : ScanOptions) (entryPath : jstring)
           (node : FsNode) (st : State) : State :=
  match node with
  | RegularFile (Some sz) _ =>
      if too_large options sz then log (EvStat entryPath) st
      else log (EvReadFile entryPath) (log (EvStat entryPath) st)
  | _ => log (EvStat entryPath) st
  end.

(** The content stored for a retained file. *)
Definition file_content (options : ScanOptions) (node : FsNode) : jstring :=
  match node with
  | RegularFile (Some sz) t =>
      if too_large options sz then too_large_marker sz else default [] t
  | _ => []
  end.

(** [x] is a node of the tree whose top-level items are [its]. *)
Inductive occurs (x : TemplateItem) : list TemplateItem -> Prop :=
| occurs_here its :
    x ∈ its -> occurs x its
| occurs_below n children its :
    ItemFolder n children ∈ its -> occurs x children -> occurs x its.

(** [reached options fp entries st0 dir name node st]: when the loop over
    the [entries] of directory [fp] starts in state [st0], the traversal
    comes to the entry [(name, node)] of directory [dir] in state [st]. *)
Inductive reached (options : ScanOptions)
  : jstring -> list (jstring * FsNode) -> State ->
    jstring -> jstring -> FsNode -> State -> Prop :=
| reached_here fp pre name node post st0 :
    reached options fp (pre ++ (name, node) :: post) st0
            fp name node (run_entries options fp pre st0).2
| reached_below fp pre d sub post st0 dir name node st :
    includes_opt (ignoreFolders options) d = false ->
    reached options (path.join fp d) sub
            (log (EvReaddir (path.join fp d))
                 (run_entries options fp pre st0).2)
            dir name node st ->
    reached options fp (pre ++ (d, Directory (Some sub)) :: post) st0
            dir name node st.

(** The state in which [scanTemplateDirectory] starts the loop over the
    entries of an existing directory. *)
Definition scan_start (templatePath : jstring) (options : ScanOptions)
           (st : State) : State :=
  log (EvReaddir templatePath)
      (log (EvStat templatePath)
           (set_regexps (or_empty (ignorePatterns (mergedOptions options)))
                        st)).

Definition not_found_warning (templatePath : jstring) : Event :=
  EvWarn (js "Template directory not found: " ++ templatePath).

(** ** Concrete inputs *)

(** A world with one directory tree at [templatePath] and nothing else,
    in which every [mkdir] and [writeFile] succeeds. *)
Definition world_of (templatePath : jstring) (root : FsNode) : World :=
  MkWorld (fun p => if bool_decide (p = templatePath) then Some root else None)
          (fun _ => true)
          (fun _ _ => true).

Definition only_maxFileSize (m : Z) : ScanOptions :=
  MkOptions None None None (Some m).

Definition small_file : FsNode := RegularFile (Some 5%N) (Some (js "hello")).
Definition large_file : FsNode :=
  RegularFile (Some 2000000%N) (Some (js "payload")).
Definition large_unreadable_file : FsNode := RegularFile (Some 2000000%N) None.
Definition vanished_file : FsNode := RegularFile None None.

Definition one_small_file : FsNode :=
  Directory (Some [(js "a.txt", small_file)]).
Definition one_large_file : FsNode :=
  Directory (Some [(js "big.bin", large_file)]).
Definition one_large_unreadable_file : FsNode :=
  Directory (Some [(js "big.bin", large_unreadable_file)]).
Definition vanished_then_small : FsNode :=
  Directory (Some [(js "gone.txt", vanished_file); (js "a.txt", small_file)]).

(** The tree without the directory entries whose name is in [folders], at
    every depth. *)
Definition prune_list (folders : option (list jstring))
           (rec : FsNode -> FsNode)
  : list (jstring * FsNode) -> list (jstring * FsNode) :=
  fix go es :=
    match es with
    | [] => []
    | (n, c) :: r =>
        if isDirectory c && includes_opt folders n then go r
        else (n, rec c) :: go r
    end.

Fixpoint prune (folders : option (list jstring)) (node : FsNode) : FsNode :=
  match node with
  | Directory (Some es) =>
      Directory (Some (prune_list folders (prune folders) es))
  | _ => node
  end.

Definition prune_world (folders : option (list jstring)) (w : World) : World :=
  MkWorld (fun p => prune folders <$> lookup_path w p)
          (mkdir_ok w) (write_ok w).

(** The pattern matches somewhere in the string. *)
Definition pattern_matches (p : Pattern) (s : jstring) : bool :=
  bool_decide (is_Some (search p false s (S (S (length s))) 0)).

Definition flagless (r : RegExp) : bool := negb (global r) && negb (sticky r).

(** [/\.log$/g] *)
Definition log_file_pattern : Pattern := PSeq (PStr (js ".log")) PEol.
Definition global_log_files : RegExp := MkRegExp log_file_pattern true false 0.

Definition two_log_files : FsNode :=
  Directory (Some [(js "a.log", RegularFile (Some 3%N) (Some (js "one")));
                   (js "b.log", RegularFile (Some 3%N) (Some (js "two")))]).

Definition with_dependencies : FsNode :=
  Directory (Some [
    (js "node_modules",
     Directory (Some [(js "index.js",
                       RegularFile (Some 5%N) (Some (js "hello")))]));
    (js "a.txt", small_file)]).

Definition only_patterns (ps : list RegExp) : ScanOptions :=
  MkOptions None None (Some ps) None.

Definition custom_options : ScanOptions :=
  MkOptions (Some [js "secret.txt"]) (Some [js "tmp"])
            (Some [literal log_file_pattern]) (Some 10).

(** A single path segment: no separator inside. *)
Definition segment (s : jstring) : Prop := CHAR_FORWARD_SLASH ∉ s.

(** Every entry name below [node] is a path segment, as [readdir] gives
    them. *)
Fixpoint segment_names (node : FsNode) : Prop :=
  match node with
  | Directory (Some es) =>
      (fix go (es : list (jstring * FsNode)) : Prop :=
         match es with
         | [] => True
         | (n, c) :: r => segment n /\ segment_names c /\ go r
         end) es
  | _ => True
  end.

(** What C5 keeps of a node: no dot in the extension of a file, no
    separator in the name of a file or of a folder. *)
Definition item_well_formed (x : TemplateItem) : Prop :=
  match x with
  | ItemFile f => (CHAR_DOT ∉ fileExtension f) /\ segment (filename f)
  | ItemFolder n _ => segment n
  end.

(** No ASCII capital letter. *)
Definition is_lowercase (s : jstring) : bool :=
  forallb (fun c => negb (N.leb 65 c && N.leb c 90)) s.

Definition one_capital_readme : FsNode :=
  Directory (Some [(js "README.MD", small_file)]).

(** A text that UTF-8 keeps as it is. *)
Definition utf8_safe (s : jstring) : Prop := utf8_round_trip s = s.

(** Neither half of a surrogate pair. *)
Definition regular (c : N) : Prop :=
  is_high_surrogate c = false /\ is_low_surrogate c = false.

(** Only white space. *)
Definition blank (s : jstring) : Prop :=
  Forall (fun c => JSON.is_ws c = true) s.

(** The value [v] has no number inside, and parsing finds it back in its
    serialization at any indentation, whatever white space comes before
    and whatever text comes after, given fuel for the length of the
    serialization. *)
Definition round_trips (v : JValue) : Prop :=
  JSON.plain v = true
  /\ forall ws stepback rest fuel,
      blank ws -> blank stepback ->
      (length (JSON.serialize stepback v) <= fuel)%nat ->
      JSON.parse_value fuel (ws ++ JSON.serialize stepback v ++ rest)
      = Some (v, rest).

Definition fallback_value : JValue :=
  JObject [(js "folderName", JString (js "empty-template"));
           (js "items", JArray [])].

Definition unparsable_text : jstring := js "{ not a document".

Definition number_text : jstring := js "42".

(** Some pattern of the list matches the string. *)
Definition some_matches (ps : list RegExp) (s : jstring) : bool :=
  existsb (fun r => pattern_matches (source r) s) ps.

Definition quoted_text : jstring :=
  js "say " ++ [34; 104; 105; 34; 10; 92; 55357; 56832; 55357]%N.

Definition nested_tree : FsNode :=
  Directory (Some [
    (js "src",
     Directory (Some [
       (js "utils",
        Directory (Some [(js "helper.ts",
                          RegularFile (Some 2%N) (Some (js "ok")))]))]));
    (js "notes.txt", RegularFile (Some 20%N) (Some quoted_text))]).

Definition nested_folder : TemplateFolder :=
  MkFolder (js "t")
    [ItemFolder (js "src")
       [ItemFolder (js "utils")
          [ItemFile (MkFile (js "helper") (js "ts") (js "ok"))]];
     ItemFile (MkFile (js "notes") (js "txt") quoted_text)].

(** A world like [world_of] in which a document of 100 code units or more
    cannot be written. *)
Definition small_quota_world (templatePath : jstring) (root : FsNode) : World :=
  MkWorld (fun p => if bool_decide (p = templatePath) then Some root else None)
          (fun _ => true)
          (fun _ data => bool_decide (length data < 100)%nat).

(** ** The traversal as a relation

    [walk options fp entries st items st']: the loop of [processDirectory]
    over the [entries] of the directory [fp], started in state [st],
    pushes [items] and ends in state [st']. One rule for each way an entry
    can go. *)
Inductive walk (options : ScanOptions)
  : jstring -> list (jstring * FsNode) -> State ->
    list TemplateItem -> State -> Prop :=
| walk_nil fp st :
    walk options fp [] st [] st
| walk_special fp n es st its st' :
    walk options fp es st its st' ->
    walk options fp ((n, Special) :: es) st its st'
| walk_ignored_folder fp n listing es st its st' :
    includes_opt (ignoreFolders options) n = true ->
    walk options fp es st its st' ->
    walk options fp ((n, Directory listing) :: es) st its st'
| walk_folder fp n sub es st children st1 its st2 :
    includes_opt (ignoreFolders options) n = false ->
    walk options (path.join fp n) sub
         (log (EvReaddir (path.join fp n)) st) children st1 ->
    walk options fp es st1 its st2 ->
    walk options fp ((n, Directory (Some sub)) :: es) st
         (ItemFolder n children :: its) st2
| walk_unlisted_folder fp n es st its st' :
    includes_opt (ignoreFolders options) n = false ->
    walk options fp es (readdir_failed (path.join fp n) st) its st' ->
    walk options fp ((n, Directory None) :: es) st
         (ItemFolder n [] :: its) st'
| walk_ignored_file fp n sz t es st its st' :
    includes_opt (ignoreFiles options) n = true ->
    walk options fp es st its st' ->
    walk options fp ((n, RegularFile sz t) :: es) st its st'
| walk_matched_file fp n sz t es st its st' :
    includes_opt (ignoreFiles options) n = false ->
    (some_pattern options n st).1 = Ok true ->
    walk options fp es (some_pattern options n st).2 its st' ->
    walk options fp ((n, RegularFile sz t) :: es) st its st'
| walk_retained_file fp n sz t es st its st' :
    retained options st n = true ->
    walk options fp es
         (file_calls options (path.join fp n) (RegularFile sz t)
                     (some_pattern options n st).2) its st' ->
    walk options fp ((n, RegularFile sz t) :: es) st
         (file_item n (file_content options (RegularFile sz t)) :: its) st'.

(** ** Vocabulary of the further properties *)

(** A call that changes the file system. *)
Definition is_write (e : Event) : bool :=
  match e with
  | EvMkdir _ _ | EvWriteFile _ => true
  | _ => false
  end.

(** From [st] to [st'] the store of documents is the same and the calls
    made are [evs], none of which writes. *)
Definition only_reads (st st' : State) : Prop :=
  documents st' = documents st
  /\ exists evs, trace st' = trace st ++ evs
                 /\ Forall (fun e => is_write e = false) evs.

(** [mirrors options entries items]: the [items] come from a part of the
    [entries], in the order of the listing. An entry is left out only for
    a reason the options give; a directory becomes a folder of the same
    name over a mirror of its own listing; a file becomes the node of its
    name with the content that its size and text determine. *)
Inductive mirrors (options : ScanOptions)
  : list (jstring * FsNode) -> list TemplateItem -> Prop :=
| mirrors_nil :
    mirrors options [] []
| mirrors_special n es its :
    mirrors options es its ->
    mirrors options ((n, Special) :: es) its
| mirrors_ignored_folder n listing es its :
    includes_opt (ignoreFolders options) n = true ->
    mirrors options es its ->
    mirrors options ((n, Directory listing) :: es) its
| mirrors_folder n sub children es its :
    includes_opt (ignoreFolders options) n = false ->
    mirrors options sub children ->
    mirrors options es its ->
    mirrors options ((n, Directory (Some sub)) :: es)
            (ItemFolder n children :: its)
| mirrors_unlisted_folder n es its :
    includes_opt (ignoreFolders options) n = false ->
    mirrors options es its ->
    mirrors options ((n, Directory None) :: es) (ItemFolder n [] :: its)
| mirrors_ignored_file n sz t es its :
    includes_opt (ignoreFiles options) n = true ->
    mirrors options es its ->
    mirrors options ((n, RegularFile sz t) :: es) its
| mirrors_matched_file n sz t es its :
    some_matches (or_empty (ignorePatterns options)) n = true ->
    mirrors options es its ->
    mirrors options ((n, RegularFile sz t) :: es) its
| mirrors_file n sz t es its :
    includes_opt (ignoreFiles options) n = false ->
    mirrors options es its ->
    mirrors options ((n, RegularFile sz t) :: es)
            (file_item n (file_content options (RegularFile sz t)) :: its).

(** The loop variables of [path.parse] on a name [n] without separator
    when the characters from index [k] on have been seen: [endIdx] is set
    once a character was seen, [startDot] is the last dot seen, and
    [preDotState] tells what was seen on the left of that dot (nothing
    yet, or last a dot, or last another character). *)
Definition parse_seen (n : jstring) (k : nat) (s : path.ScanState) : Prop :=
  path.startPart s = 0
  /\ path.endIdx s
     = (if bool_decide (k < length n)%nat then Z.of_nat (length n) else -1)
  /\ ((path.startDot s = -1 /\ path.preDotState s = 0
       /\ forall (j : nat) c, n !! j = Some c -> (k <= j)%nat -> c <> CHAR_DOT)
      \/ exists d : nat,
          path.startDot s = Z.of_nat d /\ (k <= d)%nat
          /\ n !! d = Some CHAR_DOT
          /\ (forall (j : nat) c,
                 (d < j)%nat -> n !! j = Some c -> c <> CHAR_DOT)
          /\ path.preDotState s
             = if bool_decide (d = k) then 0
               else if bool_decide (n !! k = Some CHAR_DOT) then 1 else -1).

(** The loop that [ends] runs for a repeated pattern. *)
Definition star_ends (a : Pattern) (s : jstring) : nat -> nat -> list nat :=
  fix star (fuel : nat) (i : nat) : list nat :=
    match fuel with
    | O => [i]
    | S fuel' =>
        (e ← ends a s i;
         if bool_decide (e = i) then [] else star fuel' e) ++ [i]
    end.

(** The names that the default patterns are written for: a swap file
    [.x.swp] with at least one character, none a line terminator, between
    the dots; a lock file [.#x]; a backup file [x~]. *)
Definition is_swap_name (n : jstring) : Prop :=
  exists mid,
    n = CHAR_DOT :: mid ++ js ".swp"
    /\ mid <> []
    /\ Forall (fun c => isLineTerminator c = false) mid.
Definition is_lock_name (n : jstring) : Prop :=
  exists r, n = js ".#" ++ r.
Definition is_backup_name (n : jstring) : Prop :=
  exists r, n = r ++ [126%N].

(** ** Further concrete inputs *)

(** A directory named like an ignored file and like a backup file, and a
    directory that cannot be listed. *)
Definition odd_directories : FsNode :=
  Directory (Some [
    (js ".env", Directory (Some [(js "a.txt", small_file)]));
    (js "old~", Directory None)]).

(** A file of 4 GiB: [stat] reports its size, [readFile] throws, as it
    does for every file above 2 GiB. *)
Definition huge_file : FsNode := RegularFile (Some 4294967296%N) None.
Definition one_huge_file : FsNode :=
  Directory (Some [(js "big.bin", huge_file)]).

(** * Properties *)

(** ** Library functions on concrete inputs *)

Example parse_txt :
  path.parse (js "notes.txt") = path.MkParsed (js "notes.txt") (js ".txt") (js "notes").
Proof. reflexivity. Qed.

Example parse_dotfile :
  path.parse (js ".bashrc") = path.MkParsed (js ".bashrc") [] (js ".bashrc").
Proof. reflexivity. Qed.

Example parse_two_dots :
  path.parse (js "a.tar.gz") = path.MkParsed (js "a.tar.gz") (js ".gz") (js "a.tar").
Proof. reflexivity. Qed.

Example parse_trailing_dot :
  path.parse (js "a.") = path.MkParsed (js "a.") (js ".") (js "a").
Proof. reflexivity. Qed.

Example parse_abs :
  path.parse (js "/home/u/file.txt")
  = path.MkParsed (js "file.txt") (js ".txt") (js "file").
Proof. reflexivity. Qed.

Example basename_nested :
  path.basename (js "/tmp/starters/react/") = js "react".
Proof. reflexivity. Qed.

Example basename_root : path.basename (js "/") = [].
Proof. reflexivity. Qed.

Example swp_matches :
  fst (RegExp_test (literal swap_file_pattern) (js ".main.c.swp")) = true.
Proof. reflexivity. Qed.

Example swp_needs_stem :
  fst (RegExp_test (literal swap_file_pattern) (js ".swp")) = false.
Proof. reflexivity. Qed.

Example lock_matches :
  fst (RegExp_test (literal lock_file_pattern) (js ".#notes")) = true.
Proof. reflexivity. Qed.

Example backup_matches :
  fst (RegExp_test (literal backup_file_pattern) (js "notes.txt~")) = true.
Proof. reflexivity. Qed.

Example backup_only_at_end :
  fst (RegExp_test (literal backup_file_pattern) (js "a~b")) = false.
Proof. reflexivity. Qed.

(** A global expression remembers where its last match ended. *)
Example global_alternates :
  let r := MkRegExp (PSeq (PStr (js ".log")) PEol) true false 0 in
  let '(b1, r1) := RegExp_test r (js "a.log") in
  let '(b2, r2) := RegExp_test r1 (js "b.log") in
  (b1, lastIndex r1, b2, lastIndex r2) = (true, 5%nat, false, 0%nat).
Proof. reflexivity. Qed.

(** ** Induction on file-system nodes *)

Lemma FsNode_nested_ind (P : FsNode -> Prop) :
  (forall sz t, P (RegularFile sz t)) ->
  P Special ->
  P (Directory None) ->
  (forall es, Forall (fun e => P e.2) es -> P (Directory (Some es))) ->
  forall n, P n.
Proof.
  intros Hfile Hspecial Hnone Hsome.
  fix IH 1. intros [sz t | [es |] | ].
  - apply Hfile.
  - apply Hsome. induction es as [| [nm c] es IHes]; constructor.
    + apply IH.
    + apply IHes.
  - apply Hnone.
  - apply Hspecial.
Qed.

(** ** The loop never throws and only appends *)

Section LoopFacts.

Variable process : jstring -> jstring -> FsNode -> M State TemplateFolder.
Variable options : ScanOptions.
Variable folderPath : jstring.

Lemma processEntry_frame entry st its :
  total_at process entry.2 ->
  exists new st',
    processEntry process options folderPath entry (st, its)
    = (Ok tt, (st', its ++ new))
    /\ processEntry process options folderPath entry (st, [])
       = (Ok tt, (st', new)).
Proof.
  destruct entry as [entryName node]. intros Htot. simpl in Htot.
  unfold processEntry.
  destruct node as [sz t | listing | ]; simpl.
  - destruct (includes_opt (ignoreFiles options) entryName).
    { exists [], st. rewrite app_nil_r. done. }
    unfold bind, lift, some_pattern.
    destruct (ignorePatterns options) as [ps |].
    + destruct (some_test (regexps st) entryName) as [b ps'].
      destruct b.
      { eexists [], _. rewrite app_nil_r. done. }
      unfold try_catch, bind, lift, fs_stat_size, bind, modify, push.
      destruct sz as [sz |]; simpl; [| by eexists [_], _].
      destruct (too_large options sz); simpl; [by eexists [_], _ |].
      destruct t; simpl; by eexists [_], _.
    + unfold ret at 1.
      unfold try_catch, bind, lift, fs_stat_size, bind, modify, push.
      destruct sz as [sz |]; simpl; [| by eexists [_], _].
      destruct (too_large options sz); simpl; [by eexists [_], _ |].
      destruct t; simpl; by eexists [_], _.
  - destruct (includes_opt (ignoreFolders options) entryName).
    { exists [], st. rewrite app_nil_r. done. }
    unfold bind, lift, push.
    destruct (Htot entryName (path.join folderPath entryName) st)
      as (d & st' & ->).
    by eexists [_], _.
  - exists [], st. rewrite app_nil_r. done.
Qed.

Lemma forEntries_frame entries :
  Forall (fun e => total_at process e.2) entries ->
  forall st its,
    forEntries process options folderPath entries (st, its)
    = (Ok tt, ((run_with process options folderPath entries st).2,
               its ++ (run_with process options folderPath entries st).1)).
Proof.
  induction 1 as [| e es He Hes IH]; intros st its.
  { unfold run_with. simpl. unfold ret. by rewrite app_nil_r. }
  unfold run_with. cbn [forEntries]. unfold bind.
  destruct (processEntry_frame e st its He) as (new & st' & -> & ->).
  rewrite (IH st' (its ++ new)), (IH st' new). simpl.
  by rewrite app_assoc.
Qed.

End LoopFacts.

(** ** [processDirectory] returns a folder for every node *)

Lemma processDirectory_total node :
  forall options, total_at (fun n p c => processDirectory n p options c) node.
Proof.
  induction node as [sz t | | | es IH] using FsNode_nested_ind;
    intros options fn fp st; try (by eexists _, _).
  simpl. unfold try_catch, bind at 1, lift at 1, fs_readdir. simpl.
  rewrite forEntries_frame; [by eexists _, _ |].
  eapply Forall_impl; [exact IH |]. intros e He. apply He.
Qed.

Lemma processDirectory_listing fn fp options es st :
  processDirectory fn fp options (Directory (Some es)) st
  = (Ok (MkFolder fn (run_entries options fp es (log (EvReaddir fp) st)).1),
     (run_entries options fp es (log (EvReaddir fp) st)).2).
Proof.
  simpl. unfold try_catch, bind at 1, lift at 1, fs_readdir. simpl.
  rewrite forEntries_frame; [done |].
  apply Forall_forall. intros e _. apply processDirectory_total.
Qed.

Lemma processDirectory_unlisted fn fp options node st :
  (forall es, node <> Directory (Some es)) ->
  processDirectory fn fp options node st
  = (Ok (MkFolder fn []), readdir_failed fp st).
Proof.
  intros Hn. destruct node as [sz t | [es |] | ]; try done.
  by destruct (Hn es).
Qed.

Lemma forEntries_run options fp es st its :
  forEntries (fun n p c => processDirectory n p options c) options fp es
             (st, its)
  = (Ok tt, ((run_entries options fp es st).2,
             its ++ (run_entries options fp es st).1)).
Proof.
  apply forEntries_frame, Forall_forall. intros e _.
  apply processDirectory_total.
Qed.

Lemma run_entries_nil options fp st : run_entries options fp [] st = ([], st).
Proof. reflexivity. Qed.

Lemma run_entries_cons options fp e es st :
  run_entries options fp (e :: es) st
  = let '(its1, st1) := run_entries options fp [e] st in
    let '(its2, st2) := run_entries options fp es st1 in
    (its1 ++ its2, st2).
Proof.
  unfold run_entries at 1 2, run_with. simpl. unfold bind.
  destruct (processEntry_frame (fun n p c => processDirectory n p options c)
              options fp e st [])
    as (new & st' & E & _); [apply processDirectory_total |].
  rewrite E. unfold ret. rewrite forEntries_run. simpl.
  by destruct (run_entries options fp es st').
Qed.

Lemma run_entries_app options fp es1 es2 st :
  run_entries options fp (es1 ++ es2) st
  = let '(its1, st1) := run_entries options fp es1 st in
    let '(its2, st2) := run_entries options fp es2 st1 in
    (its1 ++ its2, st2).
Proof.
  revert st. induction es1 as [| e es1 IH]; intros st; cbn [app].
  { rewrite run_entries_nil. by destruct (run_entries options fp es2 st). }
  rewrite (run_entries_cons _ _ e (es1 ++ es2)), (run_entries_cons _ _ e es1).
  destruct (run_entries options fp [e] st) as [its1 st1].
  rewrite IH.
  destruct (run_entries options fp es1 st1) as [its2 st2].
  destruct (run_entries options fp es2 st2) as [its3 st3].
  by rewrite app_assoc.
Qed.

(** ** What one entry contributes *)

Lemma run_entries_special options fp n st :
  run_entries options fp [(n, Special)] st = ([], st).
Proof. reflexivity. Qed.

Lemma run_entries_ignored_folder options fp n listing st :
  includes_opt (ignoreFolders options) n = true ->
  run_entries options fp [(n, Directory listing)] st = ([], st).
Proof.
  intros H. unfold run_entries, run_with. simpl. unfold bind. simpl.
  by rewrite H.
Qed.

Lemma run_entries_folder options fp n sub st :
  includes_opt (ignoreFolders options) n = false ->
  run_entries options fp [(n, Directory (Some sub))] st
  = let r := run_entries options (path.join fp n) sub
                         (log (EvReaddir (path.join fp n)) st) in
    ([ItemFolder n r.1], r.2).
Proof.
  intros H. unfold run_entries at 1, run_with.
  cbn [forEntries processEntry isDirectory]. unfold bind at 1.
  rewrite H. unfold bind at 1, lift at 1.
  rewrite processDirectory_listing. reflexivity.
Qed.

Lemma run_entries_unlisted_folder options fp n st :
  includes_opt (ignoreFolders options) n = false ->
  run_entries options fp [(n, Directory None)] st
  = ([ItemFolder n []], readdir_failed (path.join fp n) st).
Proof.
  intros H. unfold run_entries at 1, run_with.
  cbn [forEntries processEntry isDirectory]. unfold bind at 1.
  rewrite H. reflexivity.
Qed.

Lemma run_entries_ignored_file options fp n sz t st :
  includes_opt (ignoreFiles options) n = true ->
  run_entries options fp [(n, RegularFile sz t)] st = ([], st).
Proof.
  intros H. unfold run_entries, run_with. simpl. unfold bind. simpl.
  by rewrite H.
Qed.

Lemma some_pattern_ok options n st :
  exists b, (some_pattern options n st).1 = Ok b.
Proof.
  unfold some_pattern. destruct (ignorePatterns options); [| by eexists].
  destruct (some_test (regexps st) n). by eexists.
Qed.

Lemma run_entries_matched_file options fp n sz t st :
  includes_opt (ignoreFiles options) n = false ->
  (some_pattern options n st).1 = Ok true ->
  run_entries options fp [(n, RegularFile sz t)] st
  = ([], (some_pattern options n st).2).
Proof.
  intros H Hp. unfold run_entries, run_with.
  cbn [forEntries processEntry isDirectory isFile]. unfold bind at 1.
  rewrite H. unfold bind at 1, lift at 1.
  destruct (some_pattern options n st) as [r st1]. simpl in Hp. subst r.
  reflexivity.
Qed.

Lemma run_entries_retained_file options fp n sz t st :
  retained options st n = true ->
  run_entries options fp [(n, RegularFile sz t)] st
  = ([file_item n (file_content options (RegularFile sz t))],
     file_calls options (path.join fp n) (RegularFile sz t)
                (some_pattern options n st).2).
Proof.
  unfold retained. intros [H Hp]%andb_true_iff.
  apply negb_true_iff in H.
  unfold run_entries, run_with.
  cbn [forEntries processEntry isDirectory isFile]. unfold bind at 1.
  rewrite H. unfold bind at 1, lift at 1.
  destruct (some_pattern options n st) as [[[] | e] st1]; try done.
  clear Hp. unfold try_catch, bind, lift, fs_stat_size, bind, modify, push.
  destruct sz as [sz |]; simpl; [| done].
  destruct (too_large options sz); simpl; [done |].
  by destruct t.
Qed.

Lemma run_entries_split options fp pre e post st :
  run_entries options fp (pre ++ e :: post) st
  = let '(its1, st1) := run_entries options fp pre st in
    let '(its2, st2) := run_entries options fp [e] st1 in
    let '(its3, st3) := run_entries options fp post st2 in
    (its1 ++ its2 ++ its3, st3).
Proof.
  rewrite run_entries_app.
  destruct (run_entries options fp pre st) as [its1 st1].
  rewrite run_entries_cons.
  destruct (run_entries options fp [e] st1) as [its2 st2].
  by destruct (run_entries options fp post st2) as [its3 st3].
Qed.

(** ** Every retained file that the traversal reaches is in the tree *)

Lemma occurs_middle x its1 its3 : occurs x (its1 ++ [x] ++ its3).
Proof. apply occurs_here. set_solver. Qed.

Lemma reached_occurs options fp es st0 dir name node st :
  reached options fp es st0 dir name node st ->
  isFile node = true ->
  retained options st name = true ->
  occurs (file_item name (file_content options node))
         (run_entries options fp es st0).1.
Proof.
  induction 1 as [fp pre name node post st0
                 | fp pre d sub post st0 dir name node st Hd Hr IH];
    intros Hfile Hret.
  - destruct node as [sz t | |]; try done.
    rewrite run_entries_split.
    destruct (run_entries options fp pre st0) as [its1 st1]. simpl in Hret.
    rewrite run_entries_retained_file by done.
    destruct (run_entries options fp post _) as [its3 st3].
    apply occurs_middle.
  - rewrite run_entries_split.
    destruct (run_entries options fp pre st0) as [its1 st1]. simpl in *.
    rewrite run_entries_folder by done. simpl.
    destruct (run_entries options fp post _) as [its3 st3]. simpl.
    eapply occurs_below; [| by apply IH].
    apply elem_of_app. right. constructor.
Qed.

(** ** The three ways [scanTemplateDirectory] can go *)

Lemma scan_missing w tp options st :
  lookup_path w tp = None ->
  scanTemplateDirectory w tp options st
  = (Ok EMPTY_TEMPLATE,
     log (not_found_warning tp)
         (log (EvStat tp)
              (set_regexps (or_empty (ignorePatterns (mergedOptions options)))
                           st))).
Proof.
  intros H. unfold scanTemplateDirectory, bind at 1, use_patterns, modify.
  unfold bind at 1, try_catch, bind at 1, fs_stat_path, bind at 1, modify.
  by rewrite H.
Qed.

Lemma scan_not_directory w tp options node st :
  lookup_path w tp = Some node ->
  isDirectory node = false ->
  scanTemplateDirectory w tp options st
  = (Ok EMPTY_TEMPLATE,
     log (EvStat tp)
         (set_regexps (or_empty (ignorePatterns (mergedOptions options)))
                      st)).
Proof.
  intros H Hd. unfold scanTemplateDirectory, bind at 1, use_patterns, modify.
  unfold bind at 1, try_catch, bind at 1, fs_stat_path, bind at 1, modify.
  rewrite H. unfold ret at 1. by rewrite Hd.
Qed.

Lemma scan_directory w tp options node st :
  lookup_path w tp = Some node ->
  isDirectory node = true ->
  scanTemplateDirectory w tp options st
  = processDirectory (path.basename tp) tp (mergedOptions options) node
      (log (EvStat tp)
           (set_regexps (or_empty (ignorePatterns (mergedOptions options)))
                        st)).
Proof.
  intros H Hd. unfold scanTemplateDirectory, bind at 1, use_patterns, modify.
  unfold bind at 1, try_catch, bind at 1, fs_stat_path, bind at 1, modify.
  rewrite H. unfold ret at 1. by rewrite Hd.
Qed.

Lemma scan_listing w tp options es st :
  lookup_path w tp = Some (Directory (Some es)) ->
  scanTemplateDirectory w tp options st
  = (Ok (MkFolder (path.basename tp)
           (run_entries (mergedOptions options) tp es
                        (scan_start tp options st)).1),
     (run_entries (mergedOptions options) tp es
                  (scan_start tp options st)).2).
Proof.
  intros H. rewrite (scan_directory _ _ _ _ _ H) by done.
  apply processDirectory_listing.
Qed.

Lemma scan_total w tp options st :
  exists d st', scanTemplateDirectory w tp options st = (Ok d, st').
Proof.
  destruct (lookup_path w tp) as [node |] eqn:H.
  - destruct (isDirectory node) eqn:Hd.
    + rewrite (scan_directory _ _ _ _ _ H Hd).
      apply processDirectory_total.
    + rewrite (scan_not_directory _ _ _ _ _ H Hd). by eexists _, _.
  - rewrite (scan_missing _ _ _ _ H). by eexists _, _.
Qed.

(** * The claims *)

(** ** C3: a root that is missing or not a directory *)

(** C3. For every [templatePath] at which [stat] finds nothing, or finds
    something that is not a directory, and for every configuration,
    [scanTemplateDirectory] returns (it does not throw) the empty-tree
    fallback: the folder named "empty-template" with zero items. *)
Theorem scan_absent_root_gives_empty_template w tp options st :
  lookup_path w tp = None
  \/ (exists node, lookup_path w tp = Some node /\ isDirectory node = false) ->
  exists st',
    scanTemplateDirectory w tp options st = (Ok EMPTY_TEMPLATE, st')
    /\ folderName EMPTY_TEMPLATE = js "empty-template"
    /\ items EMPTY_TEMPLATE = [].
Proof.
  intros [H | (node & H & Hd)].
  - rewrite (scan_missing _ _ _ _ H). by eexists.
  - rewrite (scan_not_directory _ _ _ _ _ H Hd). by eexists.
Qed.

Lemma scan_absent_root_witness :
  lookup_path (world_of (js "/t") one_small_file) (js "/nope") = None
  /\ exists st',
      scanTemplateDirectory (world_of (js "/t") one_small_file) (js "/nope")
                            noOptions (initial ∅)
      = (Ok EMPTY_TEMPLATE, st')
      /\ folderName EMPTY_TEMPLATE = js "empty-template"
      /\ items EMPTY_TEMPLATE = [].
Proof.
  split; [reflexivity |].
  apply (scan_absent_root_gives_empty_template
           (world_of (js "/t") one_small_file) (js "/nope")
           noOptions (initial ∅)).
  left. reflexivity.
Defined.

(** ** C4: the size bound *)

Lemma decimal_example : decimal 2000000 = js "2000000".
Proof. reflexivity. Qed.

(** C4, as amended. For every configuration whose effective [maxFileSize]
    [m] is not zero and every retained file whose [stat] reports a size
    greater than [m], the tree has a node for the file, with the name and
    the extension that [path.parse] gives, whose content is
    "[File too large: <size> bytes]" with the size in decimal. A retained
    file whose size is at most [m], or of any size when [m] is zero, has a
    node whose content is its full text whenever the text can be read. *)
Theorem size_bound_substitutes_marker
        w tp options st es dir name size text st1 m :
  lookup_path w tp = Some (Directory (Some es)) ->
  reached (mergedOptions options) tp es (scan_start tp options st)
          dir name (RegularFile (Some size) text) st1 ->
  retained (mergedOptions options) st1 name = true ->
  maxFileSize (mergedOptions options) = Some m ->
  exists d st',
    scanTemplateDirectory w tp options st = (Ok d, st')
    /\ (m <> 0 -> m < Z.of_N size ->
        occurs (ItemFile
                  (MkFile (path.name (path.parse name))
                          (remove_first CHAR_DOT (path.ext (path.parse name)))
                          (js "[File too large: " ++ decimal size
                           ++ js " bytes]")))
               (items d))
    /\ (m = 0 \/ Z.of_N size <= m ->
        forall t,
          text = Some t ->
          occurs (ItemFile
                    (MkFile (path.name (path.parse name))
                            (remove_first CHAR_DOT
                                          (path.ext (path.parse name)))
                            t))
                 (items d)).
Proof.
  intros Hroot Hreach Hret Hm.
  rewrite (scan_listing _ _ _ _ _ Hroot).
  eexists _, _. split; [reflexivity |].
  pose proof (reached_occurs _ _ _ _ _ _ _ _ Hreach eq_refl Hret) as Hocc.
  cbn [items]. simpl in Hocc. unfold too_large in Hocc. rewrite Hm in Hocc.
  split.
  - intros Hnz Hlt.
    destruct (Z.eqb_spec m 0) as [| _]; [done |].
    destruct (Z.ltb_spec m (Z.of_N size)) as [_ |]; [| lia].
    exact Hocc.
  - intros Hle t ->.
    destruct (Z.eqb_spec m 0) as [| Hnz]; [exact Hocc |].
    destruct (Z.ltb_spec m (Z.of_N size)) as [|_]; [lia |].
    exact Hocc.
Qed.

Lemma size_bound_witness :
  lookup_path (world_of (js "/t") one_large_file) (js "/t")
  = Some one_large_file
  /\ retained (mergedOptions noOptions)
              (scan_start (js "/t") noOptions (initial ∅)) (js "big.bin")
     = true
  /\ maxFileSize (mergedOptions noOptions) = Some 1048576
  /\ exists d st',
      scanTemplateDirectory (world_of (js "/t") one_large_file) (js "/t")
                            noOptions (initial ∅) = (Ok d, st')
      /\ (1048576 <> 0 -> 1048576 < Z.of_N 2000000 ->
          occurs (ItemFile
                    (MkFile (js "big") (js "bin")
                            (js "[File too large: 2000000 bytes]")))
                 (items d))
      /\ (1048576 = 0 \/ Z.of_N 2000000 <= 1048576 ->
          forall t, Some (js "payload") = Some t ->
                    occurs (ItemFile (MkFile (js "big") (js "bin") t))
                           (items d)).
Proof.
  split; [reflexivity |]. split; [reflexivity |]. split; [reflexivity |].
  apply (size_bound_substitutes_marker
           (world_of (js "/t") one_large_file) (js "/t") noOptions (initial ∅)
           [(js "big.bin", large_file)] (js "/t") (js "big.bin")
           2000000%N (Some (js "payload"))
           (scan_start (js "/t") noOptions (initial ∅)) 1048576).
  - reflexivity.
  - exact (reached_here (mergedOptions noOptions) (js "/t") []
             (js "big.bin") large_file []
             (scan_start (js "/t") noOptions (initial ∅))).
  - reflexivity.
  - reflexivity.
Defined.

(** C4 as stated fails when the configured [maxFileSize] is 0: the file
    "a.txt" has 5 bytes, more than the bound, it is retained, and its node
    holds the text of the file, not the marker. *)
Lemma size_bound_zero_counterexample :
  maxFileSize (mergedOptions (only_maxFileSize 0)) = Some 0
  /\ 0 < Z.of_N 5
  /\ (scanTemplateDirectory (world_of (js "/t") one_small_file) (js "/t")
                            (only_maxFileSize 0) (initial ∅)).1
     = Ok (MkFolder (js "t")
             [ItemFile (MkFile (js "a") (js "txt") (js "hello"))])
  /\ js "hello" <> js "[File too large: 5 bytes]".
Proof.
  split; [reflexivity |]. split; [reflexivity |]. split; [reflexivity |].
  discriminate.
Qed.

(** ** C9: entries that cannot be read *)

Lemma too_large_false_content options sz text :
  sz = None
  \/ (exists n, sz = Some n /\ too_large options n = false /\ text = None) ->
  file_content options (RegularFile sz text) = [].
Proof.
  intros [-> | (n & -> & Hn & ->)]; simpl; [done |]. by rewrite Hn.
Qed.

(** C9, as amended. For every retained file entry whose [stat] throws, or
    whose [readFile] throws when the scanner attempts it (that is, [stat]
    succeeded and the size is not over a non-zero [maxFileSize]), the tree
    has a node for the file with the name and the extension that
    [path.parse] gives and with empty content; in the directory of the
    file the loop goes on with the remaining entries; and
    [scanTemplateDirectory] returns a folder. *)
Theorem unreadable_file_kept_with_empty_content
        w tp options st es dir name sz text st1 :
  lookup_path w tp = Some (Directory (Some es)) ->
  reached (mergedOptions options) tp es (scan_start tp options st)
          dir name (RegularFile sz text) st1 ->
  retained (mergedOptions options) st1 name = true ->
  sz = None
  \/ (exists n, sz = Some n
                /\ too_large (mergedOptions options) n = false
                /\ text = None) ->
  (exists d st',
      scanTemplateDirectory w tp options st = (Ok d, st')
      /\ occurs (ItemFile
                   (MkFile (path.name (path.parse name))
                           (remove_first CHAR_DOT (path.ext (path.parse name)))
                           []))
                (items d))
  /\ (forall fp pre post st0,
         retained (mergedOptions options)
                  (run_entries (mergedOptions options) fp pre st0).2 name
         = true ->
         exists st2,
           (run_entries (mergedOptions options) fp
                        (pre ++ (name, RegularFile sz text) :: post) st0).1
           = (run_entries (mergedOptions options) fp pre st0).1
             ++ [file_item name []]
             ++ (run_entries (mergedOptions options) fp post st2).1).
Proof.
  intros Hroot Hreach Hret Hfail.
  pose proof (too_large_false_content _ _ _ Hfail) as Hc.
  split.
  - rewrite (scan_listing _ _ _ _ _ Hroot).
    eexists _, _. split; [reflexivity |].
    pose proof (reached_occurs _ _ _ _ _ _ _ _ Hreach eq_refl Hret) as Hocc.
    rewrite Hc in Hocc. exact Hocc.
  - intros fp pre post st0 Hret0.
    rewrite run_entries_split.
    destruct (run_entries (mergedOptions options) fp pre st0) as [its1 st1'].
    simpl in Hret0.
    rewrite run_entries_retained_file by done. rewrite Hc.
    exists (file_calls (mergedOptions options) (path.join fp name)
                       (RegularFile sz text)
                       (some_pattern (mergedOptions options) name st1').2).
    by destruct (run_entries (mergedOptions options) fp post _).
Qed.

Lemma unreadable_file_witness :
  retained (mergedOptions noOptions)
           (scan_start (js "/t") noOptions (initial ∅)) (js "gone.txt")
  = true
  /\ (exists d st',
         scanTemplateDirectory (world_of (js "/t") vanished_then_small)
                               (js "/t") noOptions (initial ∅) = (Ok d, st')
         /\ occurs (ItemFile (MkFile (js "gone") (js "txt") [])) (items d)).
Proof.
  split; [reflexivity |].
  apply (unreadable_file_kept_with_empty_content
           (world_of (js "/t") vanished_then_small) (js "/t") noOptions
           (initial ∅)
           [(js "gone.txt", vanished_file); (js "a.txt", small_file)]
           (js "/t") (js "gone.txt") None None
           (scan_start (js "/t") noOptions (initial ∅))).
  - reflexivity.
  - exact (reached_here (mergedOptions noOptions) (js "/t") []
             (js "gone.txt") vanished_file [(js "a.txt", small_file)]
             (scan_start (js "/t") noOptions (initial ∅))).
  - reflexivity.
  - left. reflexivity.
Defined.

(** The sibling listed after the vanished file is still scanned. *)
Example vanished_then_small_scan :
  (scanTemplateDirectory (world_of (js "/t") vanished_then_small) (js "/t")
                         noOptions (initial ∅)).1
  = Ok (MkFolder (js "t")
          [ItemFile (MkFile (js "gone") (js "txt") []);
           ItemFile (MkFile (js "a") (js "txt") (js "hello"))]).
Proof. reflexivity. Qed.

(** C9 as stated fails for a file whose content cannot be read and whose
    size is over the bound: [readFile] is never called, and the node holds
    the marker, not the empty string. *)
Lemma unreadable_large_file_counterexample :
  large_unreadable_file = RegularFile (Some 2000000%N) None
  /\ retained (mergedOptions noOptions)
              (scan_start (js "/t") noOptions (initial ∅)) (js "big.bin")
     = true
  /\ (scanTemplateDirectory (world_of (js "/t") one_large_unreadable_file)
                            (js "/t") noOptions (initial ∅)).1
     = Ok (MkFolder (js "t")
             [ItemFile (MkFile (js "big") (js "bin")
                               (js "[File too large: 2000000 bytes]"))])
  /\ js "[File too large: 2000000 bytes]" <> [].
Proof.
  split; [reflexivity |]. split; [reflexivity |]. split; [reflexivity |].
  discriminate.
Qed.

(** ** C10: a bound of zero *)

Lemma too_large_zero options n :
  maxFileSize options = Some 0 -> too_large (mergedOptions options) n = false.
Proof. intros H. unfold too_large, mergedOptions. simpl. by rewrite H. Qed.

(** C10, as amended. When the caller supplies [maxFileSize = 0], the
    test [options.maxFileSize && size > options.maxFileSize] is false for
    every size and no file gets the marker of the size bound. A retained
    file whose [stat] and [readFile] both return has a node whose content
    is its full text, whatever its size; a retained file whose [stat] or
    whose [readFile] throws has a node whose content is empty. *)
Theorem zero_maxFileSize_disables_bound
        w tp options st es dir name sz text st1 :
  maxFileSize options = Some 0 ->
  lookup_path w tp = Some (Directory (Some es)) ->
  reached (mergedOptions options) tp es (scan_start tp options st)
          dir name (RegularFile sz text) st1 ->
  retained (mergedOptions options) st1 name = true ->
  (forall n, too_large (mergedOptions options) n = false)
  /\ exists d st',
      scanTemplateDirectory w tp options st = (Ok d, st')
      /\ (forall size t,
             sz = Some size -> text = Some t ->
             occurs (ItemFile
                       (MkFile (path.name (path.parse name))
                               (remove_first CHAR_DOT
                                             (path.ext (path.parse name)))
                               t))
                    (items d))
      /\ (sz = None \/ text = None ->
          occurs (ItemFile
                    (MkFile (path.name (path.parse name))
                            (remove_first CHAR_DOT
                                          (path.ext (path.parse name)))
                            []))
                 (items d)).
Proof.
  intros Hzero Hroot Hreach Hret.
  split; [intros n; by apply too_large_zero |].
  rewrite (scan_listing _ _ _ _ _ Hroot).
  eexists _, _. split; [reflexivity |].
  pose proof (reached_occurs _ _ _ _ _ _ _ _ Hreach eq_refl Hret) as Hocc.
  cbn [items].
  assert (file_content (mergedOptions options) (RegularFile sz text)
          = match sz with Some _ => default [] text | None => [] end) as Hc.
  { destruct sz as [n |]; simpl; [| done]. by rewrite too_large_zero. }
  rewrite Hc in Hocc. split.
  - intros size t -> ->. exact Hocc.
  - intros [-> | ->]; [exact Hocc |]. by destruct sz.
Qed.

Lemma zero_maxFileSize_witness :
  maxFileSize (only_maxFileSize 0) = Some 0
  /\ retained (mergedOptions (only_maxFileSize 0))
              (scan_start (js "/t") (only_maxFileSize 0) (initial ∅))
              (js "big.bin")
     = true
  /\ exists d st',
      scanTemplateDirectory (world_of (js "/t") one_large_file) (js "/t")
                            (only_maxFileSize 0) (initial ∅) = (Ok d, st')
      /\ occurs (ItemFile (MkFile (js "big") (js "bin") (js "payload")))
                (items d).
Proof.
  split; [reflexivity |]. split; [reflexivity |].
  destruct (zero_maxFileSize_disables_bound
              (world_of (js "/t") one_large_file) (js "/t")
              (only_maxFileSize 0) (initial ∅)
              [(js "big.bin", large_file)] (js "/t") (js "big.bin")
              (Some 2000000%N) (Some (js "payload"))
              (scan_start (js "/t") (only_maxFileSize 0) (initial ∅)))
    as (_ & d & st' & Hscan & Hocc & _).
  - reflexivity.
  - reflexivity.
  - exact (reached_here (mergedOptions (only_maxFileSize 0)) (js "/t") []
             (js "big.bin") large_file []
             (scan_start (js "/t") (only_maxFileSize 0) (initial ∅))).
  - reflexivity.
  - exists d, st'. split; [exact Hscan |].
    exact (Hocc 2000000%N (js "payload") eq_refl eq_refl).
Defined.

(** C10 as stated fails for a file that cannot be read: with
    [maxFileSize = 0] the file of 4 GiB is retained and gets no marker,
    but [readFile] throws and the node holds the empty string, not the
    content of the file. *)
Lemma zero_bound_unreadable_counterexample :
  maxFileSize (only_maxFileSize 0) = Some 0
  /\ huge_file = RegularFile (Some 4294967296%N) None
  /\ retained (mergedOptions (only_maxFileSize 0))
              (scan_start (js "/t") (only_maxFileSize 0) (initial ∅))
              (js "big.bin")
     = true
  /\ (scanTemplateDirectory (world_of (js "/t") one_huge_file) (js "/t")
                            (only_maxFileSize 0) (initial ∅)).1
     = Ok (MkFolder (js "t") [ItemFile (MkFile (js "big") (js "bin") [])])
  /\ Z.of_nat (length ([] : jstring)) < Z.of_N 4294967296.
Proof. repeat (split; [reflexivity |]). reflexivity. Qed.

(** ** C6: ignored folders *)

Lemma run_entries_kept_folder_congr options fp n c c' st :
  isDirectory c = true -> isDirectory c' = true ->
  (forall st, processDirectory n (path.join fp n) options c st
              = processDirectory n (path.join fp n) options c' st) ->
  run_entries options fp [(n, c)] st = run_entries options fp [(n, c')] st.
Proof.
  intros Hc Hc' Heq. unfold run_entries, run_with.
  cbn [forEntries processEntry]. rewrite Hc, Hc'.
  destruct (includes_opt (ignoreFolders options) n); [done |].
  unfold bind at 1 3, bind at 1 2, lift. by rewrite Heq.
Qed.

Lemma prune_isDirectory folders c : isDirectory (prune folders c) = isDirectory c.
Proof. by destruct c as [| [|] |]. Qed.

Lemma prune_not_directory folders c : isDirectory c = false -> prune folders c = c.
Proof. by destruct c as [| [|] |]. Qed.

Lemma processDirectory_prune node :
  forall fn fp options st,
    processDirectory fn fp options (prune (ignoreFolders options) node) st
    = processDirectory fn fp options node st.
Proof.
  induction node as [sz t | | | es IH] using FsNode_nested_ind;
    intros fn fp options st; try done.
  cbn [prune]. rewrite !processDirectory_listing.
  generalize (log (EvReaddir fp) st). clear st.
  induction IH as [| [n c] es Hc Hes IHes]; intros st; [done |].
  cbn [prune_list]. simpl in Hc.
  destruct (isDirectory c && includes_opt (ignoreFolders options) n) eqn:Hig.
  - apply andb_true_iff in Hig as [Hd Hin].
    rewrite (run_entries_cons _ _ (n, c)).
    destruct c as [| listing |]; try done.
    rewrite run_entries_ignored_folder by done.
    specialize (IHes st).
    destruct (run_entries options fp es st).
    destruct (run_entries options fp _ st). simpl in *.
    by inversion IHes.
  - rewrite (run_entries_cons _ _ (n, c)), (run_entries_cons _ _ (n, prune _ c)).
    assert (run_entries options fp [(n, prune (ignoreFolders options) c)] st
            = run_entries options fp [(n, c)] st) as ->.
    { destruct (isDirectory c) eqn:Hd.
      - apply run_entries_kept_folder_congr;
          [by rewrite prune_isDirectory | done |].
        intros st'. apply Hc.
      - by rewrite prune_not_directory. }
    destruct (run_entries options fp [(n, c)] st) as [its1 st1].
    specialize (IHes st1).
    destruct (run_entries options fp es st1).
    destruct (run_entries options fp _ st1). simpl in *.
    by inversion IHes.
Qed.

(** C6. A directory entry whose name is in the merged [ignoreFolders]
    contributes nothing: in any directory, the items pushed and the state
    reached (so also the file-system calls made) are those of the listing
    without that entry; and the whole scan, its tree and its trace of
    calls, is the scan of the tree from which all such directories have
    been removed at every depth. What is inside them is never looked at. *)
Theorem ignored_folders_are_pruned w tp options st :
  let merged := mergedOptions options in
  scanTemplateDirectory w tp options st
  = scanTemplateDirectory (prune_world (ignoreFolders merged) w) tp options st
  /\ forall fp pre d listing post st0,
      includes_opt (ignoreFolders merged) d = true ->
      run_entries merged fp (pre ++ (d, Directory listing) :: post) st0
      = run_entries merged fp (pre ++ post) st0.
Proof.
  intros merged. split.
  - destruct (lookup_path w tp) as [node |] eqn:H.
    + destruct (isDirectory node) eqn:Hd.
      * rewrite (scan_directory _ _ _ _ _ H Hd).
        rewrite (scan_directory (prune_world _ w) _ _
                   (prune (ignoreFolders merged) node)).
        -- symmetry. apply processDirectory_prune.
        -- simpl. by rewrite H.
        -- by rewrite prune_isDirectory.
      * rewrite (scan_not_directory _ _ _ _ _ H Hd).
        rewrite (scan_not_directory (prune_world _ w) _ _
                   (prune (ignoreFolders merged) node)); [done | |].
        -- simpl. by rewrite H.
        -- by rewrite prune_isDirectory.
    + rewrite (scan_missing _ _ _ _ H).
      rewrite (scan_missing (prune_world _ w)); [done |].
      simpl. by rewrite H.
  - intros fp pre d listing post st0 Hin.
    rewrite run_entries_split, run_entries_app.
    destruct (run_entries merged fp pre st0) as [its1 st1].
    rewrite run_entries_ignored_folder by done.
    by destruct (run_entries merged fp post st1).
Qed.

Lemma ignored_folders_witness :
  includes_opt (ignoreFolders (mergedOptions noOptions)) (js "node_modules")
  = true
  /\ (scanTemplateDirectory (world_of (js "/t") with_dependencies) (js "/t")
                            noOptions (initial ∅)).1
     = Ok (MkFolder (js "t") [file_item (js "a.txt") (js "hello")])
  /\ scanTemplateDirectory (world_of (js "/t") with_dependencies) (js "/t")
                           noOptions (initial ∅)
     = scanTemplateDirectory
         (prune_world (ignoreFolders (mergedOptions noOptions))
                      (world_of (js "/t") with_dependencies))
         (js "/t") noOptions (initial ∅).
Proof.
  split; [reflexivity |]. split; [reflexivity |].
  exact (proj1 (ignored_folders_are_pruned
                  (world_of (js "/t") with_dependencies) (js "/t")
                  noOptions (initial ∅))).
Defined.

(** No call of the scan names a path below the ignored directory. *)
Example ignored_folder_trace :
  trace (scanTemplateDirectory (world_of (js "/t") with_dependencies)
                               (js "/t") noOptions (initial ∅)).2
  = [EvStat (js "/t"); EvReaddir (js "/t");
     EvStat (js "/t/a.txt"); EvReadFile (js "/t/a.txt")].
Proof. reflexivity. Qed.

(** ** C7: ignored files *)

(** C7 at a failing input. The caller passes the single pattern
    [/\.log$/g]. It matches both "a.log" and "b.log", yet only "a.log" is
    skipped: the first [test] leaves [lastIndex] at 5, so the second
    [test] starts at the end of "b.log", finds nothing and answers
    [false], and "b.log" gets a node. *)
Theorem global_pattern_misses_second_match :
  pattern_matches log_file_pattern (js "a.log") = true
  /\ pattern_matches log_file_pattern (js "b.log") = true
  /\ (scanTemplateDirectory (world_of (js "/t") two_log_files) (js "/t")
                            (only_patterns [global_log_files]) (initial ∅)).1
     = Ok (MkFolder (js "t") [file_item (js "b.log") (js "two")]).
Proof. repeat split; reflexivity. Qed.

(** The same pattern without the flag skips both files. *)
Example flagless_pattern_skips_both :
  (scanTemplateDirectory (world_of (js "/t") two_log_files) (js "/t")
                         (only_patterns [literal log_file_pattern])
                         (initial ∅)).1
  = Ok (MkFolder (js "t") []).
Proof. reflexivity. Qed.

(** ** C8: the effective configuration *)

(** C8. The configuration that the scan works with lists the default
    ignore-file names, ignore-folder names and ignore patterns first and
    the caller's after them, so no default is replaced; its [maxFileSize]
    is the caller's when the caller supplies one and 1048576 otherwise;
    and it is this configuration that [processDirectory] receives. *)
Theorem merged_options_append_user_values w tp options st :
  let merged := mergedOptions options in
  ignoreFiles merged
  = Some (or_empty (ignoreFiles defaultOptions)
          ++ or_empty (ignoreFiles options))
  /\ ignoreFolders merged
     = Some (or_empty (ignoreFolders defaultOptions)
             ++ or_empty (ignoreFolders options))
  /\ ignorePatterns merged
     = Some (or_empty (ignorePatterns defaultOptions)
             ++ or_empty (ignorePatterns options))
  /\ maxFileSize merged
     = Some (match maxFileSize options with
             | Some m => m
             | None => 1048576
             end)
  /\ (forall x,
         includes_opt (ignoreFiles merged) x
         = includes_opt (ignoreFiles defaultOptions) x
           || includes_opt (ignoreFiles options) x)
  /\ (forall x,
         includes_opt (ignoreFolders merged) x
         = includes_opt (ignoreFolders defaultOptions) x
           || includes_opt (ignoreFolders options) x)
  /\ (forall node,
         lookup_path w tp = Some node ->
         isDirectory node = true ->
         scanTemplateDirectory w tp options st
         = processDirectory (path.basename tp) tp merged node
             (log (EvStat tp)
                  (set_regexps (or_empty (ignorePatterns defaultOptions)
                                ++ or_empty (ignorePatterns options))
                               st))).
Proof.
  intros merged.
  assert (forall (l1 : list jstring) l2 x,
             includes_opt (Some (l1 ++ or_empty l2)) x
             = includes_opt (Some l1) x || includes_opt l2 x) as Hinc.
  { intros l1 l2 x. unfold includes_opt, includes.
    destruct l2 as [l2 |]; simpl.
    - rewrite <- bool_decide_or. apply bool_decide_ext, elem_of_app.
    - unfold or_empty. simpl. rewrite app_nil_r.
      by destruct (bool_decide (x ∈ l1)). }
  split; [reflexivity |]. split; [reflexivity |]. split; [reflexivity |].
  split; [subst merged; simpl; by destruct (maxFileSize options) |].
  split; [intros x; apply Hinc |]. split; [intros x; apply Hinc |].
  intros node H Hd. apply (scan_directory _ _ _ _ _ H Hd).
Qed.

Example merged_custom_options :
  ignoreFiles (mergedOptions custom_options)
  = Some [js "package-lock.json"; js "yarn.lock"; js ".DS_Store";
          js "thumbs.db"; js ".gitignore"; js ".npmrc"; js ".yarnrc";
          js ".env"; js ".env.local"; js ".env.development";
          js ".env.production"; js "secret.txt"]
  /\ ignoreFolders (mergedOptions custom_options)
     = Some [js "node_modules"; js ".git"; js ".vscode"; js ".idea";
             js "dist"; js "build"; js "coverage"; js "tmp"]
  /\ maxFileSize (mergedOptions custom_options) = Some 10
  /\ maxFileSize (mergedOptions noOptions) = Some 1048576.
Proof. repeat split; reflexivity. Qed.

(** ** Facts about [path.parse] and [path.basename] *)

Lemma charCodeAt_lookup p (j : nat) c :
  p !! j = Some c -> charCodeAt p (Z.of_nat j) = c.
Proof. unfold charCodeAt. rewrite Nat2Z.id. by intros ->. Qed.

Lemma charCodeAt_dot p i :
  0 <= i -> charCodeAt p i = CHAR_DOT -> p !! Z.to_nat i = Some CHAR_DOT.
Proof.
  unfold charCodeAt. intros _. destruct (p !! Z.to_nat i); simpl; [congruence |].
  discriminate.
Qed.

Lemma elem_of_slice x p a b :
  0 <= a ->
  x ∈ slice p a b ->
  exists j : nat, p !! j = Some x /\ a <= Z.of_nat j < b.
Proof.
  unfold slice. intros Ha (i & Hi & Hlt)%elem_of_take.
  rewrite lookup_drop in Hi. exists (Z.to_nat a + i)%nat. split; [done | lia].
Qed.

Lemma slice_subseteq p a b : slice p a b ⊆ p.
Proof.
  unfold slice. etrans; [apply subseteq_take | apply subseteq_drop].
Qed.

Lemma startDot_see_first_char i s :
  path.startDot (path.see_first_char i s) = path.startDot s.
Proof. unfold path.see_first_char. by destruct (path.endIdx s =? -1). Qed.

Lemma startDot_see_dot i s :
  path.startDot (path.see_dot i s)
  = if path.startDot s =? -1 then i else path.startDot s.
Proof.
  unfold path.see_dot. destruct (path.startDot s =? -1); [done |].
  by destruct (negb (path.preDotState s =? 1)).
Qed.

Lemma startDot_see_other s :
  path.startDot (path.see_other s) = path.startDot s.
Proof. unfold path.see_other. by destruct (negb (path.startDot s =? -1)). Qed.

(** The loop of [parse] leaves [startDot] at the last dot of the string,
    if it sets it at all. *)
Lemma parse_loop_startDot p start k :
  0 <= start ->
  forall s,
    (path.startDot s = -1
     /\ forall (j : nat) c, p !! j = Some c ->
                            start + Z.of_nat k <= Z.of_nat j ->
                            c <> CHAR_DOT)
    \/ (exists d : nat,
           path.startDot s = Z.of_nat d /\ p !! d = Some CHAR_DOT
           /\ forall (j : nat) c, (d < j)%nat -> p !! j = Some c ->
                                  c <> CHAR_DOT) ->
    path.startDot (path.parse_loop p start k s) = -1
    \/ (exists d : nat,
           path.startDot (path.parse_loop p start k s) = Z.of_nat d
           /\ p !! d = Some CHAR_DOT
           /\ forall (j : nat) c, (d < j)%nat -> p !! j = Some c ->
                                  c <> CHAR_DOT).
Proof.
  intros Hstart. induction k as [| k IH]; intros s Hinv.
  { simpl. destruct Hinv as [[H _] | H]; [by left | by right]. }
  cbn [path.parse_loop]. set (i := start + Z.of_nat k).
  assert (forall (j : nat) c, p !! j = Some c -> Z.of_nat j = i ->
                              charCodeAt p i = c) as Hi.
  { intros j c Hj <-. by apply charCodeAt_lookup. }
  destruct (N.eqb_spec (charCodeAt p i) CHAR_FORWARD_SLASH) as [Hsl | Hnsl].
  - destruct (path.matchedSlash s); simpl.
    + apply IH. destruct Hinv as [[H1 H2] | H]; [left | by right].
      split; [done |]. intros j c Hj Hle.
      destruct (decide (Z.of_nat j = i)) as [Hji | Hji].
      * rewrite <- (Hi j c Hj Hji), Hsl. done.
      * apply (H2 j c Hj). lia.
    + destruct Hinv as [[H1 _] | H]; [by left | by right].
  - apply IH.
    destruct (N.eqb_spec (charCodeAt p i) CHAR_DOT) as [Hdot | Hndot].
    + rewrite startDot_see_dot, startDot_see_first_char.
      destruct Hinv as [[H1 H2] | (d & H1 & H2 & H3)].
      * right. rewrite H1. simpl. exists (Z.to_nat i).
        split; [lia |]. split; [apply charCodeAt_dot; [lia | done] |].
        intros j c Hlt Hj. apply (H2 j c Hj). lia.
      * right. exists d. rewrite H1.
        destruct (Z.eqb_spec (Z.of_nat d) (-1)); [lia | done].
    + rewrite startDot_see_other, startDot_see_first_char.
      destruct Hinv as [[H1 H2] | H]; [left | by right].
      split; [done |]. intros j c Hj Hle.
      destruct (decide (Z.of_nat j = i)) as [Hji | Hji].
      * by rewrite <- (Hi j c Hj Hji).
      * apply (H2 j c Hj). lia.
Qed.

Lemma remove_first_slice_no_dot p (d : nat) b :
  p !! d = Some CHAR_DOT ->
  (forall (j : nat) c, (d < j)%nat -> p !! j = Some c -> c <> CHAR_DOT) ->
  CHAR_DOT ∉ remove_first CHAR_DOT (slice p (Z.of_nat d) b).
Proof.
  intros Hd Hafter. unfold slice. rewrite Nat2Z.id, (drop_S _ _ _ Hd).
  destruct (Z.to_nat b - d)%nat as [| n]; simpl; [apply not_elem_of_nil |].
  intros (i & Hi & _)%elem_of_take. rewrite lookup_drop in Hi.
  apply (Hafter (S d + i)%nat CHAR_DOT); [lia | done | done].
Qed.

(** The extension that ends up in a file node has no dot. *)
Lemma extension_has_no_dot p :
  CHAR_DOT ∉ remove_first CHAR_DOT (path.ext (path.parse p)).
Proof.
  unfold path.parse.
  destruct (bool_decide (length p = 0%nat)); [apply not_elem_of_nil |].
  set (start := if (charCodeAt p 0 =? CHAR_FORWARD_SLASH)%N then 1 else 0).
  set (s := path.parse_loop p start _ _).
  destruct (negb (path.endIdx s =? -1)); [| apply not_elem_of_nil].
  destruct (Z.eqb_spec (path.startDot s) (-1)) as [| Hsd];
    [apply not_elem_of_nil |].
  simpl.
  match goal with
  | |- context [if ?b then _ else _] => destruct b
  end; [apply not_elem_of_nil |].
  cbn [path.ext].
  assert (0 <= start) as Hstart by (subst start; by destruct (_ =? _)%N).
  destruct (parse_loop_startDot p start (length p - Z.to_nat start) Hstart
              (path.MkScan (-1) 0 (-1) true 0)) as [H | (d & H1 & H2 & H3)].
  - left. split; [done |]. intros j c Hj Hle.
    apply lookup_lt_Some in Hj. lia.
  - by destruct Hsd.
  - fold s in H1. rewrite H1. by apply remove_first_slice_no_dot.
Qed.

Lemma parse_name_segment p : segment p -> segment (path.name (path.parse p)).
Proof.
  unfold segment, path.parse. intros Hp.
  repeat match goal with
         | |- context [if ?b then _ else _] => destruct b
         end; cbn [path.name]; try apply not_elem_of_nil;
    intros H%slice_subseteq; done.
Qed.

Lemma basename_loop_segment p k :
  forall start endI matched,
    0 <= start ->
    (matched = true -> endI = -1) ->
    (forall (j : nat) c, p !! j = Some c -> Z.of_nat k <= Z.of_nat j < endI ->
                         c <> CHAR_FORWARD_SLASH) ->
    forall a b,
      path.basename_loop p k start endI matched = (a, b) ->
      0 <= a
      /\ forall (j : nat) c, p !! j = Some c -> a <= Z.of_nat j < b ->
                             c <> CHAR_FORWARD_SLASH.
Proof.
  induction k as [| k IH]; intros start endI matched Hstart Hm Hinv a b.
  { simpl. intros [= <- <-]. split; [done |].
    intros j c Hj Hr. apply (Hinv j c Hj). lia. }
  cbn [path.basename_loop].
  assert (forall (j : nat) c, p !! j = Some c -> j = k ->
                              charCodeAt p (Z.of_nat k) = c) as Hk.
  { intros j c Hj <-. by apply charCodeAt_lookup. }
  destruct (N.eqb_spec (charCodeAt p (Z.of_nat k)) CHAR_FORWARD_SLASH)
    as [Hsl | Hnsl].
  - destruct matched; simpl.
    + apply IH; [done | done |]. rewrite (Hm eq_refl). intros; lia.
    + intros [= <- <-]. split; [lia |].
      intros j c Hj Hr. apply (Hinv j c Hj). lia.
  - destruct (Z.eqb_spec endI (-1)) as [-> | Hend].
    + apply IH; [done | done |]. intros j c Hj Hr.
      assert (j = k) as Hjk by lia. by rewrite <- (Hk j c Hj Hjk).
    + apply IH; [done | done |]. intros j c Hj Hr.
      destruct (decide (j = k)) as [Hjk | Hjk].
      * by rewrite <- (Hk j c Hj Hjk).
      * apply (Hinv j c Hj). lia.
Qed.

(** The name of the root folder has no separator. *)
Lemma basename_segment p : segment (path.basename p).
Proof.
  unfold segment, path.basename.
  destruct (path.basename_loop p (length p) 0 (-1) true) as [a b] eqn:E.
  destruct (b =? -1); [apply not_elem_of_nil |].
  apply basename_loop_segment in E as [Ha Hall]; [| done | done | intros; lia].
  intros (j & Hj & Hr)%elem_of_slice; [| done].
  by apply (Hall j _ Hj Hr).
Qed.

(** ** C5: the shape of names and extensions *)

Lemma occurs_nil x : ~ occurs x [].
Proof. inversion 1 as [? Hin | ? ? ? Hin]; by apply elem_of_nil in Hin. Qed.

Lemma occurs_app x its1 its2 :
  occurs x (its1 ++ its2) -> occurs x its1 \/ occurs x its2.
Proof.
  inversion 1 as [? Hin | n cs ? Hin Hc]; subst.
  - apply elem_of_app in Hin as [Hin | Hin]; [left | right];
      by apply occurs_here.
  - apply elem_of_app in Hin as [Hin | Hin]; [left | right];
      by eapply occurs_below.
Qed.

Lemma occurs_singleton x y :
  occurs x [y] ->
  x = y \/ exists n cs, y = ItemFolder n cs /\ occurs x cs.
Proof.
  inversion 1 as [? Hin | n cs ? Hin Hc]; subst.
  - left. by apply list_elem_of_singleton in Hin.
  - right. apply list_elem_of_singleton in Hin. by exists n, cs.
Qed.

(** What the single entry [(n, c)] can push. *)
Lemma run_entries_single options fp n c st :
  (run_entries options fp [(n, c)] st).1 = []
  \/ (exists content,
         (run_entries options fp [(n, c)] st).1 = [file_item n content])
  \/ (exists d st1 st2,
         processDirectory n (path.join fp n) options c st1 = (Ok d, st2)
         /\ (run_entries options fp [(n, c)] st).1
            = [ItemFolder n (items d)]).
Proof.
  destruct c as [sz t | listing |].
  - destruct (includes_opt (ignoreFiles options) n) eqn:Hin.
    { left. by rewrite run_entries_ignored_file. }
    destruct (some_pattern_ok options n st) as [[] Hb].
    + left. by rewrite run_entries_matched_file.
    + right. left. eexists. rewrite run_entries_retained_file; [done |].
      unfold retained. by rewrite Hin, Hb.
  - destruct (includes_opt (ignoreFolders options) n) eqn:Hin.
    { left. by rewrite run_entries_ignored_folder. }
    right. right.
    destruct (processDirectory_total (Directory listing) options n
                (path.join fp n) st) as (d & st2 & E).
    exists d, st, st2. split; [done |].
    unfold run_entries, run_with.
    cbn [forEntries processEntry isDirectory]. rewrite Hin.
    unfold bind at 1, bind at 1, lift at 1. rewrite E.
    assert (folderName d = n) as Hname.
    { destruct listing as [es |].
      - rewrite processDirectory_listing in E. by injection E as <- _.
      - rewrite processDirectory_unlisted in E by done.
        by injection E as <- _. }
    destruct d as [fn its]. simpl in Hname. by subst fn.
  - left. by rewrite run_entries_special.
Qed.

Lemma file_item_well_formed n content :
  segment n -> item_well_formed (file_item n content).
Proof.
  intros Hn. split; [apply extension_has_no_dot | by apply parse_name_segment].
Qed.

Lemma processDirectory_well_formed node :
  forall fn fp options st d st',
    segment_names node ->
    processDirectory fn fp options node st = (Ok d, st') ->
    forall x, occurs x (items d) -> item_well_formed x.
Proof.
  induction node as [sz t | | | es IH] using FsNode_nested_ind;
    intros fn fp options st d st' Hnames Hrun x Hx;
    try (rewrite processDirectory_unlisted in Hrun by done;
         injection Hrun as <- _; by apply occurs_nil in Hx).
  rewrite processDirectory_listing in Hrun. injection Hrun as <- _.
  cbn [items] in Hx. revert Hx Hnames. generalize (log (EvReaddir fp) st).
  clear st. induction IH as [| [n c] es Hc Hes IHes]; intros st Hx Hnames.
  { by apply occurs_nil in Hx. }
  simpl in Hnames. destruct Hnames as (Hn & Hcn & Hrest).
  rewrite run_entries_cons in Hx.
  destruct (run_entries options fp [(n, c)] st) as [its1 st1] eqn:E1.
  destruct (run_entries options fp es st1) as [its2 st2] eqn:E2.
  apply occurs_app in Hx as [Hx | Hx].
  - pose proof (run_entries_single options fp n c st) as Hcases.
    rewrite E1 in Hcases. simpl in Hcases.
    destruct Hcases as [-> | [(content & ->) | (d & sa & sb & Hd & ->)]].
    + by apply occurs_nil in Hx.
    + apply occurs_singleton in Hx as [-> | (? & ? & ? & _)]; [| done].
      by apply file_item_well_formed.
    + apply occurs_singleton in Hx as [-> | (? & ? & [= <- <-] & Hx)];
        [exact Hn |].
      by apply (Hc n (path.join fp n) options sa d sb).
  - apply (IHes st1); [by rewrite E2 | exact Hrest].
Qed.

(** Every file node of a scanned tree has an extension without a dot,
    and every name in the tree (of the root folder, of a folder, of a
    file) is free of the path separator, given that the entry names that
    [readdir] returns are. *)
Lemma scan_names_well_formed w tp options st d st' :
  (forall node, lookup_path w tp = Some node -> segment_names node) ->
  scanTemplateDirectory w tp options st = (Ok d, st') ->
  segment (folderName d)
  /\ forall x, occurs x (items d) -> item_well_formed x.
Proof.
  intros Hnames Hscan.
  destruct (lookup_path w tp) as [node |] eqn:H.
  - destruct (isDirectory node) eqn:Hd.
    + rewrite (scan_directory _ _ _ _ _ H Hd) in Hscan. split.
      * destruct (processDirectory_total node (mergedOptions options)
                    (path.basename tp) tp
                    (log (EvStat tp)
                         (set_regexps
                            (or_empty (ignorePatterns (mergedOptions options)))
                            st))) as (d' & st'' & E).
        destruct node as [| [es |] |]; try done.
        -- rewrite processDirectory_listing in Hscan.
           injection Hscan as <- _. apply basename_segment.
        -- rewrite processDirectory_unlisted in Hscan by done.
           injection Hscan as <- _. apply basename_segment.
      * eapply processDirectory_well_formed; [by apply Hnames | exact Hscan].
    + rewrite (scan_not_directory _ _ _ _ _ H Hd) in Hscan.
      injection Hscan as <- _. split.
      * unfold segment. vm_compute. intros Hin.
        repeat (apply elem_of_cons in Hin as [Hin | Hin]; [done |]).
        by apply elem_of_nil in Hin.
      * intros x Hx. by apply occurs_nil in Hx.
  - rewrite (scan_missing _ _ _ _ H) in Hscan.
    injection Hscan as <- _. split.
    + unfold segment. vm_compute. intros Hin.
      repeat (apply elem_of_cons in Hin as [Hin | Hin]; [done |]).
      by apply elem_of_nil in Hin.
    + intros x Hx. by apply occurs_nil in Hx.
Qed.

Lemma segment_decide s :
  bool_decide (CHAR_FORWARD_SLASH ∉ s) = true -> segment s.
Proof. intros H. by apply bool_decide_eq_true in H. Qed.

(** C5 as stated fails on the case of the extension: the entry
    "README.MD" gives a file node whose extension is "MD". *)
Lemma extension_keeps_capitals_counterexample :
  (scanTemplateDirectory (world_of (js "/t") one_capital_readme) (js "/t")
                         noOptions (initial ∅)).1
  = Ok (MkFolder (js "t")
          [ItemFile (MkFile (js "README") (js "MD") (js "hello"))])
  /\ is_lowercase (js "MD") = false.
Proof. split; reflexivity. Qed.

(** ** Strings survive [JSON.stringify] then [JSON.parse] *)

Section Strings.

Local Open Scope N_scope.

Lemma hex_value_hex_digit n :
  n < 16 -> JSON.hex_value (JSON.hex_digit n) = Some n.
Proof.
  intros H. unfold JSON.hex_value, JSON.hex_digit.
  destruct (N.ltb_spec n 10).
  - destruct (N.leb_spec 48 (48 + n)); [| lia].
    destruct (N.leb_spec (48 + n) 57); [| lia].
    simpl. f_equal. lia.
  - destruct (N.leb_spec 48 (87 + n)); [| lia].
    destruct (N.leb_spec (87 + n) 57); [lia |].
    destruct (N.leb_spec 97 (87 + n)); [| lia].
    destruct (N.leb_spec (87 + n) 102); [| lia].
    simpl. f_equal. lia.
Qed.

Lemma hex_digits_value c :
  c < 65536 ->
  (c / 4096 mod 16) * 4096 + (c / 256 mod 16) * 256
  + (c / 16 mod 16) * 16 + c mod 16 = c.
Proof.
  intros H. zify. Z.to_euclidean_division_equations. lia.
Qed.

Lemma parse_chars_unicode c r :
  c < 65536 ->
  JSON.parse_chars (JSON.unicode_escape c ++ r)
  = JSON.cons_char c (JSON.parse_chars r).
Proof.
  intros H. unfold JSON.unicode_escape. cbn [app JSON.parse_chars].
  change (92 =? 34) with false. change (92 =? 92) with true.
  change (117 =? 117) with true. cbv iota.
  unfold JSON.hex4.
  rewrite !hex_value_hex_digit by (apply N.mod_lt; lia).
  by rewrite hex_digits_value.
Qed.

Lemma parse_chars_literal c r :
  c <> 34 -> c <> 92 -> 32 <= c ->
  JSON.parse_chars (c :: r) = JSON.cons_char c (JSON.parse_chars r).
Proof.
  intros H1 H2 H3. cbn [JSON.parse_chars].
  rewrite (proj2 (N.eqb_neq c 34) H1), (proj2 (N.eqb_neq c 92) H2).
  by rewrite (proj2 (N.ltb_ge c 32) H3).
Qed.

Lemma surrogate_is_literal c :
  is_high_surrogate c || is_low_surrogate c = true ->
  c <> 34 /\ c <> 92 /\ 32 <= c /\ c < 65536.
Proof.
  unfold is_high_surrogate, is_low_surrogate.
  intros [H | H]%orb_true_iff;
    apply andb_true_iff in H as [H1%N.leb_le H2%N.leb_le]; lia.
Qed.

(** One step of the induction covers a string and the string with one
    more character in front, since a surrogate pair is quoted in one go. *)
Lemma parse_chars_quote_chars s :
  (forall rest,
      JSON.parse_chars (JSON.quote_chars s ++ 34 :: rest) = Some (s, rest))
  /\ (forall c rest,
         JSON.parse_chars (JSON.quote_chars (c :: s) ++ 34 :: rest)
         = Some (c :: s, rest)).
Proof.
  assert (forall c s,
             (forall rest,
                 JSON.parse_chars (JSON.quote_chars s ++ 34 :: rest)
                 = Some (s, rest)) ->
             (forall a s', s = a :: s' ->
                           forall rest,
                             JSON.parse_chars (JSON.quote_chars s' ++ 34 :: rest)
                             = Some (s', rest)) ->
             forall rest,
               JSON.parse_chars (JSON.quote_chars (c :: s) ++ 34 :: rest)
               = Some (c :: s, rest)) as Hstep.
  { clear s. intros c s Hs Hs' rest. cbn [JSON.quote_chars].
    destruct (N.eqb_spec c 8) as [-> | ?]; [simpl; by rewrite Hs |].
    destruct (N.eqb_spec c 9) as [-> | ?]; [simpl; by rewrite Hs |].
    destruct (N.eqb_spec c 10) as [-> | ?]; [simpl; by rewrite Hs |].
    destruct (N.eqb_spec c 12) as [-> | ?]; [simpl; by rewrite Hs |].
    destruct (N.eqb_spec c 13) as [-> | ?]; [simpl; by rewrite Hs |].
    destruct (N.eqb_spec c 34) as [-> | ?]; [simpl; by rewrite Hs |].
    destruct (N.eqb_spec c 92) as [-> | ?]; [simpl; by rewrite Hs |].
    destruct (N.ltb_spec c 32) as [? | ?].
    { rewrite <- app_assoc, parse_chars_unicode by lia. by rewrite Hs. }
    destruct (is_high_surrogate c) eqn:Hhigh.
    { destruct (surrogate_is_literal c) as (? & ? & ? & ?);
        [by rewrite Hhigh |].
      destruct s as [| d s'].
      - by rewrite parse_chars_unicode.
      - destruct (is_low_surrogate d) eqn:Hlow.
        + destruct (surrogate_is_literal d) as (? & ? & ? & ?);
            [by rewrite Hlow, orb_true_r |].
          cbn [app]. rewrite !parse_chars_literal by done.
          by rewrite (Hs' d s' eq_refl).
        + rewrite <- app_assoc, parse_chars_unicode by done. by rewrite Hs. }
    destruct (is_low_surrogate c) eqn:Hlow.
    { destruct (surrogate_is_literal c) as (? & ? & ? & ?);
        [by rewrite Hlow, orb_true_r |].
      rewrite <- app_assoc, parse_chars_unicode by done. by rewrite Hs. }
    cbn [app]. rewrite parse_chars_literal by done. by rewrite Hs. }
  induction s as [| a s [IH0 IH1]].
  - split; [done |]. intros c rest. by apply Hstep.
  - split; [apply IH1 |]. intros c rest.
    apply Hstep; [apply IH1 |]. by intros ? ? [= <- <-].
Qed.

Lemma parse_chars_quote s rest :
  JSON.parse_chars (JSON.quote_chars s ++ 34 :: rest) = Some (s, rest).
Proof. apply parse_chars_quote_chars. Qed.

End Strings.

(** ** Values survive [JSON.stringify] then [JSON.parse] *)

Lemma JValue_nested_ind (P : JValue -> Prop) :
  P JNull ->
  (forall b, P (JBool b)) ->
  (forall lexeme, P (JNumber lexeme)) ->
  (forall s, P (JString s)) ->
  (forall vs, Forall P vs -> P (JArray vs)) ->
  (forall ms, Forall (fun m => P m.2) ms -> P (JObject ms)) ->
  forall v, P v.
Proof.
  intros Hnull Hbool Hnum Hstr Harr Hobj.
  fix IH 1. intros [| b | lexeme | s | vs | ms].
  - apply Hnull.
  - apply Hbool.
  - apply Hnum.
  - apply Hstr.
  - apply Harr. induction vs as [| v vs IHvs]; constructor.
    + apply IH.
    + apply IHvs.
  - apply Hobj. induction ms as [| [k v] ms IHms]; constructor.
    + apply IH.
    + apply IHms.
Qed.

Section Values.

Local Open Scope N_scope.

Lemma skip_ws_app ws c r :
  blank ws -> JSON.is_ws c = false -> JSON.skip_ws (ws ++ c :: r) = c :: r.
Proof.
  induction 1 as [| x ws Hx _ IH]; intros Hc; simpl.
  - by rewrite Hc.
  - rewrite Hx. by apply IH.
Qed.

Lemma skip_ws_cons c r : JSON.is_ws c = false -> JSON.skip_ws (c :: r) = c :: r.
Proof. intros Hc. simpl. by rewrite Hc. Qed.

Lemma starts_with_same c r : JSON.starts_with c (c :: r) = Some r.
Proof. unfold JSON.starts_with. by rewrite N.eqb_refl. Qed.

Lemma starts_with_other c x r :
  x <> c -> JSON.starts_with c (x :: r) = None.
Proof. intros H. unfold JSON.starts_with. by rewrite (proj2 (N.eqb_neq x c) H). Qed.

Lemma blank_gap stepback : blank stepback -> blank (stepback ++ JSON.gap).
Proof. intros H. apply Forall_app. split; [done |]. by repeat constructor. Qed.

(** The first character of a serialized value. *)
Lemma serialize_head stepback v :
  JSON.plain v = true ->
  exists c r,
    JSON.serialize stepback v = c :: r
    /\ JSON.is_ws c = false /\ c <> 93 /\ c <> 44.
Proof.
  destruct v as [| [] | lexeme | s | [| x xs] | [| [k x] ms]]; intros Hp;
    try discriminate; by eexists _, _.
Qed.

Lemma parse_value_S fuel s :
  JSON.parse_value (S fuel) s
  = match JSON.skip_ws s with
    | [] => None
    | c :: r =>
        if c =? 123 then
          match JSON.starts_with 125 (JSON.skip_ws r) with
          | Some r' => Some (JObject [], r')
          | None =>
              match JSON.parse_members fuel r with
              | Some (ms, rest) => Some (JObject ms, rest)
              | None => None
              end
          end
        else if c =? 91 then
          match JSON.starts_with 93 (JSON.skip_ws r) with
          | Some r' => Some (JArray [], r')
          | None =>
              match JSON.parse_elements fuel r with
              | Some (vs, rest) => Some (JArray vs, rest)
              | None => None
              end
          end
        else if c =? 34 then
          match JSON.parse_chars r with
          | Some (str, rest) => Some (JString str, rest)
          | None => None
          end
        else JSON.parse_literal (c :: r)
    end.
Proof. reflexivity. Qed.

Lemma parse_elements_S fuel s :
  JSON.parse_elements (S fuel) s
  = match JSON.parse_value fuel s with
    | Some (v, r) =>
        match JSON.starts_with 44 (JSON.skip_ws r) with
        | Some r' =>
            match JSON.parse_elements fuel r' with
            | Some (vs, rest) => Some (v :: vs, rest)
            | None => None
            end
        | None =>
            match JSON.starts_with 93 (JSON.skip_ws r) with
            | Some r' => Some ([v], r')
            | None => None
            end
        end
    | None => None
    end.
Proof. reflexivity. Qed.

Lemma parse_members_S fuel s :
  JSON.parse_members (S fuel) s
  = match JSON.starts_with 34 (JSON.skip_ws s) with
    | Some r =>
        match JSON.parse_chars r with
        | Some (k, r1) =>
            match JSON.starts_with 58 (JSON.skip_ws r1) with
            | Some r2 =>
                match JSON.parse_value fuel r2 with
                | Some (v, r3) =>
                    match JSON.starts_with 44 (JSON.skip_ws r3) with
                    | Some r4 =>
                        match JSON.parse_members fuel r4 with
                        | Some (ms, rest) => Some ((k, v) :: ms, rest)
                        | None => None
                        end
                    | None =>
                        match JSON.starts_with 125 (JSON.skip_ws r3) with
                        | Some r4 => Some ([(k, v)], r4)
                        | None => None
                        end
                    end
                | None => None
                end
            | None => None
            end
        | None => None
        end
    | None => None
    end.
Proof. reflexivity. Qed.

Lemma join_cons_cons sep a b r :
  JSON.join sep (a :: b :: r) = a ++ sep ++ JSON.join sep (b :: r).
Proof. reflexivity. Qed.

Lemma parse_elements_join xs :
  Forall round_trips xs ->
  xs <> [] ->
  forall ws indent tail rest fuel,
    blank ws -> blank indent -> blank tail ->
    (S (length (JSON.join (44%N :: 10%N :: indent ++ JSON.gap)
                          (map (JSON.serialize (indent ++ JSON.gap)) xs)))
     <= fuel)%nat ->
    JSON.parse_elements fuel
      (ws ++ JSON.join (44 :: 10 :: indent ++ JSON.gap)
                       (map (JSON.serialize (indent ++ JSON.gap)) xs)
          ++ tail ++ 93 :: rest)
    = Some (xs, rest).
Proof.
  induction 1 as [| x xs [Hp Hx] Hxs IH]; [done |].
  intros _ ws indent tail rest fuel Hws Hind Htail Hfuel.
  destruct fuel as [| fuel]; [lia |]. rewrite parse_elements_S.
  destruct xs as [| y ys].
  - cbn [map JSON.join] in Hfuel |- *.
    rewrite Hx by (try apply blank_gap; try done; lia).
    rewrite skip_ws_app by done.
    rewrite starts_with_other by done. by rewrite starts_with_same.
  - cbn [map] in Hfuel |- *. rewrite join_cons_cons in Hfuel |- *.
    rewrite <- !app_assoc. rewrite !length_app in Hfuel.
    rewrite Hx by (try apply blank_gap; try done; lia).
    cbn [app]. rewrite skip_ws_cons by done. rewrite starts_with_same.
    assert (blank (10 :: indent ++ JSON.gap)) as Hb
        by (constructor; [done | by apply blank_gap]).
    assert (S (length (JSON.join (44%N :: 10%N :: indent ++ JSON.gap)
                         (map (JSON.serialize (indent ++ JSON.gap)) (y :: ys))))
            <= fuel)%nat as Hf by (cbn [map length] in Hfuel |- *; lia).
    pose proof (IH ltac:(done) _ indent tail rest fuel Hb Hind Htail Hf) as E.
    cbn [map app] in E. by rewrite E.
Qed.

Lemma parse_members_join ms :
  Forall (fun m => round_trips m.2) ms ->
  ms <> [] ->
  forall ws indent tail rest fuel,
    blank ws -> blank indent -> blank tail ->
    (S (length (JSON.join (44%N :: 10%N :: indent ++ JSON.gap)
                  (map (fun '(k, x) =>
                          JSON.QuoteJSONString k
                          ++ 58%N :: 32%N
                          :: JSON.serialize (indent ++ JSON.gap) x)
                       ms)))
     <= fuel)%nat ->
    JSON.parse_members fuel
      (ws ++ JSON.join (44 :: 10 :: indent ++ JSON.gap)
                (map (fun '(k, x) =>
                        JSON.QuoteJSONString k
                        ++ 58 :: 32 :: JSON.serialize (indent ++ JSON.gap) x)
                     ms)
          ++ tail ++ 125 :: rest)
    = Some (ms, rest).
Proof.
  induction 1 as [| [k x] ms [Hp Hx] Hms IH]; [done |].
  intros _ ws indent tail rest fuel Hws Hind Htail Hfuel.
  destruct fuel as [| fuel]; [lia |]. rewrite parse_members_S.
  assert (forall more,
             JSON.parse_value fuel
               (32 :: JSON.serialize (indent ++ JSON.gap) x ++ more)
             = Some (x, more)
             -> forall k' front,
               front = ws ++ (JSON.QuoteJSONString k' ++ 58 :: 32
                              :: JSON.serialize (indent ++ JSON.gap) x) ++ more
               -> JSON.starts_with 34 (JSON.skip_ws front)
                  = Some (JSON.quote_chars k' ++ 34 :: 58 :: 32
                          :: JSON.serialize (indent ++ JSON.gap) x ++ more))
    as Hfront.
  { intros more _ k' front ->. unfold JSON.QuoteJSONString.
    cbn [app]. rewrite skip_ws_app by done. rewrite starts_with_same.
    by rewrite <- !app_assoc. }
  simpl in Hx.
  destruct ms as [| [k2 y] ys].
  - cbn [map JSON.join] in Hfuel |- *.
    rewrite !length_app in Hfuel. cbn [length] in Hfuel.
    assert (JSON.parse_value fuel
              (32 :: JSON.serialize (indent ++ JSON.gap) x
                  ++ tail ++ 125 :: rest)
            = Some (x, tail ++ 125 :: rest)) as Ex.
    { apply (Hx [32]); [by repeat constructor | by apply blank_gap | lia]. }
    rewrite (Hfront _ Ex k _ eq_refl).
    rewrite parse_chars_quote, skip_ws_cons, starts_with_same, Ex by done.
    rewrite skip_ws_app by done.
    rewrite starts_with_other by done. by rewrite starts_with_same.
  - cbn [map] in Hfuel |- *. rewrite join_cons_cons in Hfuel |- *.
    rewrite !length_app in Hfuel. cbn [length] in Hfuel.
    rewrite <- (app_assoc (JSON.QuoteJSONString k ++ _)).
    rewrite <- (app_assoc (44 :: _)).
    match goal with
    | |- context [JSON.skip_ws (ws ++ _ ++ ?m)] => set (more := m)
    end.
    assert (JSON.parse_value fuel
              (32 :: JSON.serialize (indent ++ JSON.gap) x ++ more)
            = Some (x, more)) as Ex.
    { apply (Hx [32]); [by repeat constructor | by apply blank_gap | lia]. }
    rewrite (Hfront _ Ex k _ eq_refl).
    rewrite parse_chars_quote, skip_ws_cons, starts_with_same, Ex by done.
    subst more. cbn [app]. rewrite skip_ws_cons by done.
    rewrite starts_with_same.
    assert (blank (10 :: indent ++ JSON.gap)) as Hb
        by (constructor; [done | by apply blank_gap]).
    pose proof (IH ltac:(done) _ indent tail rest fuel Hb Hind Htail) as E.
    cbn [map app] in E. rewrite E; [done |]. lia.
Qed.

Lemma join_head sep x parts rest c r :
  x = c :: r -> exists t, JSON.join sep (x :: parts) ++ rest = c :: t.
Proof. intros ->. destruct parts; by eexists. Qed.

Lemma after_bracket close ws J more c t :
  blank ws -> J ++ more = c :: t -> JSON.is_ws c = false -> c <> close ->
  JSON.starts_with close (JSON.skip_ws (ws ++ J ++ more)) = None.
Proof.
  intros Hws -> Hc Hclose. rewrite skip_ws_app by done.
  by apply starts_with_other.
Qed.

Lemma serialize_array_text stepback x xs rest :
  JSON.serialize stepback (JArray (x :: xs)) ++ rest
  = 91 :: (10 :: stepback ++ JSON.gap)
       ++ JSON.join (44 :: 10 :: stepback ++ JSON.gap)
            (map (JSON.serialize (stepback ++ JSON.gap)) (x :: xs))
       ++ (10 :: stepback) ++ 93 :: rest.
Proof.
  cbn [JSON.serialize map]. cbn [app]. rewrite <- ?app_assoc.
  cbn [app]. by rewrite <- ?app_assoc.
Qed.

Lemma serialize_object_text stepback m ms rest :
  JSON.serialize stepback (JObject (m :: ms)) ++ rest
  = 123 :: (10 :: stepback ++ JSON.gap)
        ++ JSON.join (44 :: 10 :: stepback ++ JSON.gap)
             (map (fun '(k, x) =>
                     JSON.QuoteJSONString k
                     ++ 58 :: 32 :: JSON.serialize (stepback ++ JSON.gap) x)
                  (m :: ms))
        ++ (10 :: stepback) ++ 125 :: rest.
Proof.
  cbn [JSON.serialize map]. cbn [app]. rewrite <- ?app_assoc.
  cbn [app]. by rewrite <- ?app_assoc.
Qed.

Lemma serialize_round_trips v : JSON.plain v = true -> round_trips v.
Proof.
  induction v as [| b | lexeme | s | vs IH | ms IH] using JValue_nested_ind;
    intros Hp; (split; [exact Hp |]);
    intros ws stepback rest fuel Hws Hsb Hfuel; try discriminate;
    (destruct fuel as [| fuel];
     [by destruct (serialize_head stepback _ Hp) as (? & ? & E & _);
         rewrite E in Hfuel; simpl in Hfuel; lia |]);
    rewrite parse_value_S.
  - change (JSON.serialize stepback JNull) with [110; 117; 108; 108].
    cbn [app]. by rewrite skip_ws_app.
  - destruct b.
    + change (JSON.serialize stepback (JBool true)) with [116; 114; 117; 101].
      cbn [app]. by rewrite skip_ws_app.
    + change (JSON.serialize stepback (JBool false))
        with [102; 97; 108; 115; 101].
      cbn [app]. by rewrite skip_ws_app.
  - cbn [JSON.serialize]. unfold JSON.QuoteJSONString. cbn [app].
    rewrite (skip_ws_app ws 34) by done.
    change (34 =? 123) with false. change (34 =? 91) with false.
    change (34 =? 34) with true. cbv iota.
    rewrite <- app_assoc. cbn [app]. by rewrite parse_chars_quote.
  - assert (Forall round_trips vs) as Hvs.
    { simpl in Hp. rewrite forallb_forall in Hp.
      apply Forall_forall. intros x Hx. apply (proj1 (Forall_forall _ _) IH x Hx).
      apply Hp. by apply list_elem_of_In. }
    destruct vs as [| x xs].
    { change (JSON.serialize stepback (JArray [])) with [91; 93].
      cbn [app]. by rewrite skip_ws_app. }
    pose proof (serialize_array_text stepback x xs []) as Hlen.
    rewrite app_nil_r in Hlen. rewrite Hlen in Hfuel.
    cbn [length] in Hfuel. rewrite !length_app in Hfuel.
    rewrite serialize_array_text, (skip_ws_app ws 91) by done.
    change (91 =? 123) with false. change (91 =? 91) with true. cbv iota.
    destruct (serialize_head (stepback ++ JSON.gap) x)
      as (c & r & Ec & Hc & Hc93 & _); [by apply (Forall_inv Hvs) |].
    destruct (join_head (44 :: 10 :: stepback ++ JSON.gap)
                (JSON.serialize (stepback ++ JSON.gap) x)
                (map (JSON.serialize (stepback ++ JSON.gap)) xs)
                ((10 :: stepback) ++ 93 :: rest) c r Ec) as (t & Et).
    rewrite (after_bracket 93 _ _ _ c t);
      [| constructor; [done | by apply blank_gap] | exact Et | done | done].
    rewrite parse_elements_join;
      first [done | by constructor
             | constructor; [done | by apply blank_gap]
             | cbn [length] in Hfuel; lia].
  - assert (Forall (fun m => round_trips m.2) ms) as Hms.
    { simpl in Hp. rewrite forallb_forall in Hp.
      apply Forall_forall. intros [k x] Hx.
      apply (proj1 (Forall_forall _ _) IH (k, x) Hx).
      apply (Hp (k, x)). by apply list_elem_of_In. }
    destruct ms as [| [k x] ms].
    { change (JSON.serialize stepback (JObject [])) with [123; 125].
      cbn [app]. by rewrite skip_ws_app. }
    pose proof (serialize_object_text stepback (k, x) ms []) as Hlen.
    rewrite app_nil_r in Hlen. rewrite Hlen in Hfuel.
    cbn [length] in Hfuel. rewrite !length_app in Hfuel.
    rewrite serialize_object_text, (skip_ws_app ws 123) by done.
    change (123 =? 123) with true. cbv iota.
    destruct (join_head (44 :: 10 :: stepback ++ JSON.gap)
                (JSON.QuoteJSONString k
                 ++ 58 :: 32 :: JSON.serialize (stepback ++ JSON.gap) x)
                (map (fun '(k, x) =>
                        JSON.QuoteJSONString k
                        ++ 58 :: 32 :: JSON.serialize (stepback ++ JSON.gap) x)
                     ms)
                ((10 :: stepback) ++ 125 :: rest) 34
                (JSON.quote_chars k ++ [34]
                 ++ 58 :: 32 :: JSON.serialize (stepback ++ JSON.gap) x))
      as (t & Et).
    { unfold JSON.QuoteJSONString. cbn [app]. by rewrite <- app_assoc. }
    rewrite (after_bracket 125 _ _ _ 34 t);
      [| constructor; [done | by apply blank_gap] | exact Et | done | done].
    rewrite parse_members_join;
      first [done | by constructor
             | constructor; [done | by apply blank_gap]
             | cbn [length] in Hfuel; lia].
Qed.

End Values.

Lemma parse_text_stringify v :
  JSON.plain v = true -> JSON.parse_text (JSON.stringify v) = Some v.
Proof.
  intros Hp. destruct (serialize_round_trips v Hp) as [_ Hv].
  unfold JSON.parse_text, JSON.stringify.
  specialize (Hv [] [] [] (2 * length (JSON.serialize [] v) + 2)%nat).
  rewrite app_nil_r in Hv. cbn [app] in Hv.
  rewrite Hv; [done | constructor | constructor | lia].
Qed.

(** ** The JavaScript object of a tree *)

Lemma TemplateItem_nested_ind (P : TemplateItem -> Prop) :
  (forall f, P (ItemFile f)) ->
  (forall n children, Forall P children -> P (ItemFolder n children)) ->
  forall it, P it.
Proof.
  intros Hfile Hfolder. fix IH 1. intros [f | n children].
  - apply Hfile.
  - apply Hfolder. induction children as [| c cs IHcs]; constructor.
    + apply IH.
    + apply IHcs.
Qed.

Lemma item_value_plain it : JSON.plain (item_value it) = true.
Proof.
  induction it as [f | n children IH] using TemplateItem_nested_ind; [done |].
  cbn [item_value JSON.plain forallb]. rewrite andb_true_r.
  induction IH as [| c cs Hc _ IHcs]; [done |].
  cbn [map forallb]. by rewrite Hc, IHcs.
Qed.

Lemma item_value_inj a :
  forall b, item_value a = item_value b -> a = b.
Proof.
  induction a as [[n1 e1 c1] | n1 cs1 IH] using TemplateItem_nested_ind;
    intros [[n2 e2 c2] | n2 cs2]; cbn [item_value filename fileExtension content].
  - by intros [= -> -> ->].
  - by intros [=].
  - by intros [=].
  - intros [= -> Hcs]. f_equal. clear n2.
    revert cs2 Hcs. induction IH as [| c cs Hc _ IHcs]; intros [| c2 cs2];
      cbn [map]; try done.
    intros [= H1 H2]. f_equal; [by apply Hc | by apply IHcs].
Qed.

Lemma folder_value_inj d d' : folder_value d = folder_value d' -> d = d'.
Proof.
  destruct d as [n its], d' as [n' its']. unfold folder_value, as_item.
  intros H%item_value_inj. by injection H as -> ->.
Qed.

Lemma parse_text_folder d :
  JSON.parse_text (JSON.stringify (folder_value d)) = Some (folder_value d).
Proof. apply parse_text_stringify, item_value_plain. Qed.

(** ** C2: loading *)

Lemma read_equation filePath st :
  readTemplateStructureFromJson filePath st
  = (Ok (match documents st !! filePath with
         | Some data => default (folder_value EMPTY_TEMPLATE)
                                (JSON.parse_text data)
         | None => folder_value EMPTY_TEMPLATE
         end),
     log (EvReadFile filePath) st).
Proof.
  unfold readTemplateStructureFromJson, try_catch, bind, fs_readFile, bind,
    modify, JSON.parse.
  cbn [documents log].
  destruct (documents st !! filePath) as [data |]; [| done].
  by destruct (JSON.parse_text data).
Qed.

(** C2. [readTemplateStructureFromJson] returns a value for every path
    and every state of the store: it never throws. When the file cannot
    be read, and when its text is not JSON, the value is the empty-tree
    fallback, the folder "empty-template" without items. (A text that is
    JSON is returned as parsed, whatever its shape.) *)
Theorem load_never_throws filePath st :
  exists v,
    readTemplateStructureFromJson filePath st
    = (Ok v, log (EvReadFile filePath) st)
    /\ (documents st !! filePath = None -> v = folder_value EMPTY_TEMPLATE)
    /\ (forall data,
           documents st !! filePath = Some data ->
           JSON.parse_text data = None ->
           v = folder_value EMPTY_TEMPLATE)
    /\ (forall data v',
           documents st !! filePath = Some data ->
           JSON.parse_text data = Some v' ->
           v = v')
    /\ folder_value EMPTY_TEMPLATE
       = JObject [(js "folderName", JString (js "empty-template"));
                  (js "items", JArray [])].
Proof.
  rewrite read_equation. eexists. split; [reflexivity |].
  split; [by intros -> |].
  split; [by intros data -> -> |].
  split; [by intros data v' -> -> | reflexivity].
Qed.

Example load_missing :
  (readTemplateStructureFromJson (js "/out/t.json") (initial ∅)).1
  = Ok fallback_value.
Proof. reflexivity. Qed.

Example load_unparsable :
  JSON.parse_text unparsable_text = None
  /\ (readTemplateStructureFromJson
        (js "/out/t.json")
        (initial {[ js "/out/t.json" := unparsable_text ]})).1
     = Ok fallback_value.
Proof. split; [reflexivity |]. by rewrite read_equation. Qed.

(** A document that is JSON but not a folder comes back as it is. *)
Example load_other_shape :
  (readTemplateStructureFromJson
     (js "/out/t.json")
     (initial {[ js "/out/t.json" := number_text ]})).1
  = Ok (JNumber (js "42")).
Proof. by rewrite read_equation. Qed.

(** ** Serialized text survives the UTF-8 encoding of the file *)

Section Utf8.

Local Open Scope N_scope.

Lemma utf8_safe_regular c r : regular c -> utf8_safe r -> utf8_safe (c :: r).
Proof.
  unfold utf8_safe. intros [H1 H2] Hr. cbn [utf8_round_trip].
  by rewrite H1, H2, Hr.
Qed.

Lemma utf8_safe_pair c d r :
  is_high_surrogate c = true -> is_low_surrogate d = true ->
  utf8_safe r -> utf8_safe (c :: d :: r).
Proof.
  unfold utf8_safe. intros H1 H2 Hr. cbn [utf8_round_trip].
  by rewrite H1, H2, Hr.
Qed.

Lemma utf8_round_trip_app a :
  (forall b, utf8_safe a -> utf8_round_trip (a ++ b) = a ++ utf8_round_trip b)
  /\ (forall c b,
         utf8_safe (c :: a) ->
         utf8_round_trip ((c :: a) ++ b) = (c :: a) ++ utf8_round_trip b).
Proof.
  assert (forall c a,
             (forall b, utf8_safe a ->
                        utf8_round_trip (a ++ b) = a ++ utf8_round_trip b) ->
             (forall d a', a = d :: a' ->
                           forall b, utf8_safe a' ->
                                     utf8_round_trip (a' ++ b)
                                     = a' ++ utf8_round_trip b) ->
             forall b, utf8_safe (c :: a) ->
                       utf8_round_trip ((c :: a) ++ b)
                       = (c :: a) ++ utf8_round_trip b) as Hstep.
  { clear a. unfold utf8_safe. intros c a Ha Ha' b Hsafe.
    cbn [app utf8_round_trip] in Hsafe |- *.
    destruct (is_high_surrogate c) eqn:Hhigh.
    - destruct a as [| d a'].
      + injection Hsafe as <-. discriminate Hhigh.
      + cbn [app]. destruct (is_low_surrogate d) eqn:Hlow.
        * injection Hsafe as Hsafe. by rewrite (Ha' d a' eq_refl b Hsafe).
        * injection Hsafe as <- _. discriminate Hhigh.
    - destruct (is_low_surrogate c) eqn:Hlow.
      + injection Hsafe as <- _. discriminate Hlow.
      + injection Hsafe as Hsafe. by rewrite (Ha b Hsafe). }
  induction a as [| x a [IH0 IH1]].
  - split; [done |]. intros c b. by apply Hstep.
  - split; [apply IH1 |]. intros c b.
    apply Hstep; [apply IH1 |]. by intros ? ? [= <- <-].
Qed.

Lemma utf8_safe_app a b : utf8_safe a -> utf8_safe b -> utf8_safe (a ++ b).
Proof.
  intros Ha Hb. unfold utf8_safe.
  rewrite (proj1 (utf8_round_trip_app a) b Ha). by rewrite Hb.
Qed.

Lemma utf8_safe_nil : utf8_safe [].
Proof. reflexivity. Qed.

Lemma blank_regular c : JSON.is_ws c = true -> regular c.
Proof.
  unfold JSON.is_ws. intros H.
  repeat (apply orb_true_iff in H as [H | H]);
    apply N.eqb_eq in H; by subst.
Qed.

Lemma blank_utf8_safe s : blank s -> utf8_safe s.
Proof.
  induction 1 as [| c s Hc _ IH]; [done |].
  apply utf8_safe_regular; [by apply blank_regular | done].
Qed.

Lemma hex_digit_regular n : n < 16 -> regular (JSON.hex_digit n).
Proof.
  intros H. unfold regular, is_high_surrogate, is_low_surrogate, JSON.hex_digit.
  destruct (N.ltb_spec n 10); split; apply andb_false_iff; left;
    apply N.leb_gt; lia.
Qed.

Lemma unicode_escape_utf8_safe c r :
  utf8_safe r -> utf8_safe (JSON.unicode_escape c ++ r).
Proof.
  intros Hr. unfold JSON.unicode_escape. cbn [app].
  repeat (apply utf8_safe_regular;
          [first [done | apply hex_digit_regular, N.mod_lt; lia] |]).
  done.
Qed.

Lemma quote_chars_utf8_safe s :
  utf8_safe (JSON.quote_chars s)
  /\ forall c, utf8_safe (JSON.quote_chars (c :: s)).
Proof.
  assert (forall c s,
             utf8_safe (JSON.quote_chars s) ->
             (forall d s', s = d :: s' -> utf8_safe (JSON.quote_chars s')) ->
             utf8_safe (JSON.quote_chars (c :: s))) as Hstep.
  { clear s. intros c s Hs Hs'. cbn [JSON.quote_chars].
    repeat match goal with
           | |- context [if ?x =? ?k then _ else _] =>
               destruct (N.eqb_spec x k) as [-> | ?];
               [by repeat (apply utf8_safe_regular; [done |]) |]
           end.
    destruct (c <? 32); [by apply unicode_escape_utf8_safe |].
    destruct (is_high_surrogate c) eqn:Hhigh.
    { destruct s as [| d s'].
      - rewrite <- (app_nil_r (JSON.unicode_escape c)).
        by apply unicode_escape_utf8_safe.
      - destruct (is_low_surrogate d) eqn:Hlow.
        + apply utf8_safe_pair; [done | done |]. by apply (Hs' d s').
        + by apply unicode_escape_utf8_safe. }
    destruct (is_low_surrogate c) eqn:Hlow;
      [by apply unicode_escape_utf8_safe |].
    by apply utf8_safe_regular. }
  induction s as [| a s [IH0 IH1]].
  - split; [done |]. intros c. by apply Hstep.
  - split; [apply IH1 |]. intros c.
    apply Hstep; [apply IH1 |]. by intros ? ? [= <- <-].
Qed.

Lemma quote_utf8_safe s : utf8_safe (JSON.QuoteJSONString s).
Proof.
  unfold JSON.QuoteJSONString. apply utf8_safe_regular; [done |].
  apply utf8_safe_app; [apply quote_chars_utf8_safe |].
  by apply utf8_safe_regular.
Qed.

Lemma join_utf8_safe sep parts :
  utf8_safe sep -> Forall utf8_safe parts -> utf8_safe (JSON.join sep parts).
Proof.
  intros Hsep. induction 1 as [| x parts Hx Hparts IH]; [done |].
  destruct parts as [| y parts]; [done |].
  rewrite join_cons_cons. by repeat apply utf8_safe_app.
Qed.

Lemma serialize_utf8_safe v :
  JSON.plain v = true ->
  forall stepback, blank stepback -> utf8_safe (JSON.serialize stepback v).
Proof.
  induction v as [| b | lexeme | s | vs IH | ms IH] using JValue_nested_ind;
    intros Hp stepback Hsb; try done.
  - by destruct b.
  - apply quote_utf8_safe.
  - destruct vs as [| x xs]; [done |].
    pose proof (serialize_array_text stepback x xs []) as E.
    rewrite app_nil_r in E. rewrite E.
    assert (utf8_safe (stepback ++ JSON.gap)) as Hind
        by (by apply blank_utf8_safe, blank_gap).
    apply utf8_safe_regular; [done |].
    apply utf8_safe_app; [by apply utf8_safe_regular |].
    apply utf8_safe_app.
    + apply join_utf8_safe; [by repeat (apply utf8_safe_regular; [done |]) |].
      cbn [JSON.plain] in Hp. rewrite forallb_forall in Hp.
      apply Forall_forall. intros t (y & -> & Hy)%list_elem_of_fmap.
      apply (proj1 (Forall_forall _ _) IH y Hy);
        [apply Hp; by apply list_elem_of_In | by apply blank_gap].
    + apply utf8_safe_app; [| by apply utf8_safe_regular].
      apply utf8_safe_regular; [done | by apply blank_utf8_safe].
  - destruct ms as [| [k x] ms]; [done |].
    pose proof (serialize_object_text stepback (k, x) ms []) as E.
    rewrite app_nil_r in E. rewrite E.
    assert (utf8_safe (stepback ++ JSON.gap)) as Hind
        by (by apply blank_utf8_safe, blank_gap).
    apply utf8_safe_regular; [done |].
    apply utf8_safe_app; [by apply utf8_safe_regular |].
    apply utf8_safe_app.
    + apply join_utf8_safe; [by repeat (apply utf8_safe_regular; [done |]) |].
      cbn [JSON.plain] in Hp. rewrite forallb_forall in Hp.
      apply Forall_forall. intros t ([k' y] & -> & Hy)%list_elem_of_fmap.
      apply utf8_safe_app; [apply quote_utf8_safe |].
      do 2 (apply utf8_safe_regular; [done |]).
      apply (proj1 (Forall_forall _ _) IH (k', y) Hy);
        [apply (Hp (k', y)); by apply list_elem_of_In | by apply blank_gap].
    + apply utf8_safe_app; [| by apply utf8_safe_regular].
      apply utf8_safe_regular; [done | by apply blank_utf8_safe].
Qed.

Lemma stringify_folder_utf8_safe d :
  utf8_round_trip (JSON.stringify (folder_value d))
  = JSON.stringify (folder_value d).
Proof.
  apply serialize_utf8_safe; [apply item_value_plain | constructor].
Qed.

End Utf8.

(** ** C1: saving, then loading *)

Lemma save_equation w tp out options st d st1 :
  scanTemplateDirectory w tp (default noOptions options) st = (Ok d, st1) ->
  mkdir_ok w (path.dirname out) = true ->
  write_ok w out (JSON.stringify (folder_value d)) = true ->
  saveTemplateStructureToJson w tp out options st
  = (Ok tt,
     set_document out (utf8_round_trip (JSON.stringify (folder_value d)))
       (log (EvWriteFile out) (log (EvMkdir (path.dirname out) true) st1))).
Proof.
  intros Hscan Hmk Hwr.
  unfold saveTemplateStructureToJson, try_catch, bind at 1.
  rewrite Hscan.
  unfold bind, fs_mkdir, fs_writeFile, bind, modify. cbn [fst snd].
  by rewrite Hmk, Hwr.
Qed.

(** C1. For every tree [d] that the scanner produces, if the directory of
    the output path can be made and the document can be written, then
    [saveTemplateStructureToJson] returns, and
    [readTemplateStructureFromJson] on the same path afterwards returns the
    object of [d]: same nesting, same attributes, same order of items. The
    object determines the tree. *)
Theorem save_then_load_round_trip w tp out options st d st1 :
  scanTemplateDirectory w tp (default noOptions options) st = (Ok d, st1) ->
  mkdir_ok w (path.dirname out) = true ->
  write_ok w out (JSON.stringify (folder_value d)) = true ->
  exists st2 st3,
    saveTemplateStructureToJson w tp out options st = (Ok tt, st2)
    /\ readTemplateStructureFromJson out st2 = (Ok (folder_value d), st3)
    /\ forall d', folder_value d' = folder_value d -> d' = d.
Proof.
  intros Hscan Hmk Hwr.
  rewrite (save_equation _ _ _ _ _ _ _ Hscan Hmk Hwr).
  eexists _, _. split; [reflexivity |]. split.
  - rewrite read_equation. cbn [documents set_document].
    rewrite lookup_insert_eq, stringify_folder_utf8_safe.
    by rewrite parse_text_folder.
  - intros d' H. by apply folder_value_inj.
Qed.

(** When the document of the tree cannot be written, the [catch] of
    [saveTemplateStructureToJson] writes the document of the empty tree;
    when that write fails as well, the call throws. *)
Lemma save_falls_back_to_empty_document w tp out options st d st1 :
  scanTemplateDirectory w tp (default noOptions options) st = (Ok d, st1) ->
  mkdir_ok w (path.dirname out) = true ->
  write_ok w out (JSON.stringify (folder_value d)) = false ->
  exists st2,
    saveTemplateStructureToJson w tp out options st
    = (if write_ok w out (JSON.stringify (folder_value EMPTY_TEMPLATE))
       then Ok tt else Throw IOError,
       st2)
    /\ (write_ok w out (JSON.stringify (folder_value EMPTY_TEMPLATE)) = true ->
        documents st2 !! out
        = Some (JSON.stringify (folder_value EMPTY_TEMPLATE))).
Proof.
  intros Hscan Hmk Hwr.
  unfold saveTemplateStructureToJson, try_catch, bind at 1.
  rewrite Hscan.
  unfold bind, fs_mkdir, fs_writeFile, bind, modify, console_warn, modify,
    throw, ret.
  cbn [fst snd]. rewrite Hmk, Hwr. cbn [fst snd].
  destruct (write_ok w out (JSON.stringify (folder_value EMPTY_TEMPLATE)));
    eexists; (split; [reflexivity |]); [| done].
  intros _. cbn [documents set_document log].
  by rewrite lookup_insert_eq, stringify_folder_utf8_safe.
Qed.

Example save_with_small_quota :
  let w := small_quota_world (js "/t") nested_tree in
  let st2 := (saveTemplateStructureToJson w (js "/t") (js "/out/t.json")
                                          None (initial ∅)).2 in
  (saveTemplateStructureToJson w (js "/t") (js "/out/t.json")
                               None (initial ∅)).1 = Ok tt
  /\ (readTemplateStructureFromJson (js "/out/t.json") st2).1
     = Ok fallback_value.
Proof.
  split; [reflexivity |]. rewrite read_equation. cbn [fst].
  destruct (save_falls_back_to_empty_document
              (small_quota_world (js "/t") nested_tree) (js "/t")
              (js "/out/t.json") None (initial ∅) nested_folder
              (scanTemplateDirectory
                 (small_quota_world (js "/t") nested_tree) (js "/t")
                 noOptions (initial ∅)).2) as (st2 & Hsave & Hdoc);
    [reflexivity | reflexivity | reflexivity |].
  rewrite Hsave. cbn [snd]. rewrite Hdoc by reflexivity.
  by rewrite parse_text_folder.
Qed.

Lemma save_then_load_witness :
  mkdir_ok (world_of (js "/t") nested_tree) (path.dirname (js "/out/t.json"))
  = true
  /\ exists st2 st3,
      saveTemplateStructureToJson (world_of (js "/t") nested_tree) (js "/t")
                                  (js "/out/t.json") None (initial ∅)
      = (Ok tt, st2)
      /\ readTemplateStructureFromJson (js "/out/t.json") st2
         = (Ok (folder_value nested_folder), st3).
Proof.
  split; [reflexivity |].
  destruct (save_then_load_round_trip
              (world_of (js "/t") nested_tree) (js "/t") (js "/out/t.json")
              None (initial ∅) nested_folder
              (scanTemplateDirectory (world_of (js "/t") nested_tree)
                                     (js "/t") noOptions (initial ∅)).2)
    as (st2 & st3 & Hsave & Hload & _).
  - reflexivity.
  - reflexivity.
  - reflexivity.
  - by exists st2, st3.
Defined.

(** A nested directory comes out as nested folders, in listing order. *)
Example nested_scan :
  (scanTemplateDirectory (world_of (js "/t") nested_tree) (js "/t")
                         noOptions (initial ∅)).1
  = Ok nested_folder.
Proof. reflexivity. Qed.

(** ** Patterns without flags *)

Lemma RegExp_test_flagless r s :
  flagless r = true -> RegExp_test r s = (pattern_matches (source r) s, r).
Proof.
  unfold flagless, RegExp_test, pattern_matches.
  intros [Hg Hs]%andb_true_iff.
  apply negb_true_iff in Hg, Hs. rewrite Hg, Hs. cbn [orb].
  destruct (search (source r) false s (S (S (length s))) 0) as [e |] eqn:E.
  - rewrite bool_decide_eq_true_2; [done | by eexists].
  - rewrite bool_decide_eq_false_2; [done | by intros [? ?]].
Qed.

Lemma some_test_flagless ps s :
  forallb flagless ps = true -> some_test ps s = (some_matches ps s, ps).
Proof.
  induction ps as [| r ps IH]; [done |].
  cbn [forallb some_test some_matches existsb].
  intros [Hr Hps]%andb_true_iff.
  rewrite (RegExp_test_flagless r s Hr).
  destruct (pattern_matches (source r) s); [done |].
  by rewrite (IH Hps).
Qed.

Lemma some_pattern_flagless options n st :
  forallb flagless (regexps st) = true ->
  some_pattern options n st
  = (Ok (match ignorePatterns options with
         | Some _ => some_matches (regexps st) n
         | None => false
         end), st).
Proof.
  intros H. unfold some_pattern.
  destruct (ignorePatterns options); [| done].
  rewrite (some_test_flagless _ _ H). by destruct st.
Qed.

Lemma retained_flagless options n st :
  forallb flagless (regexps st) = true ->
  retained options st n
  = negb (includes_opt (ignoreFiles options) n)
    && negb (match ignorePatterns options with
             | Some _ => some_matches (regexps st) n
             | None => false
             end).
Proof. intros H. unfold retained. by rewrite (some_pattern_flagless _ _ _ H). Qed.

Lemma run_entries_keeps_flagless_with options fp es :
  Forall (fun e =>
            forall fn fp options st,
              forallb flagless (regexps st) = true ->
              regexps (processDirectory fn fp options e.2 st).2 = regexps st)
         es ->
  forall st,
    forallb flagless (regexps st) = true ->
    regexps (run_entries options fp es st).2 = regexps st.
Proof.
  induction 1 as [| [n c] es Hc _ IHes]; intros st Hfl; [done |].
  rewrite run_entries_cons.
  destruct (run_entries options fp [(n, c)] st) as [its1 st1] eqn:E1.
  assert (regexps st1 = regexps st) as Hst1.
  { destruct c as [sz t | listing |].
    - destruct (retained options st n) eqn:Hret.
      + rewrite run_entries_retained_file in E1 by done.
        injection E1 as _ <-. rewrite (some_pattern_flagless _ _ _ Hfl).
        cbn [snd]. unfold file_calls.
        destruct sz as [sz |]; [| done]. by destruct (too_large options sz).
      + rewrite (retained_flagless _ _ _ Hfl) in Hret.
        destruct (includes_opt (ignoreFiles options) n) eqn:Hin.
        * rewrite run_entries_ignored_file in E1 by done.
          by injection E1 as _ <-.
        * assert ((some_pattern options n st).1 = Ok true) as Hm.
          { rewrite (some_pattern_flagless _ _ _ Hfl). cbn [fst].
            simpl in Hret. apply negb_false_iff in Hret. by rewrite Hret. }
          rewrite (run_entries_matched_file _ _ _ _ _ _ Hin Hm) in E1.
          rewrite (some_pattern_flagless _ _ _ Hfl) in E1.
          by injection E1 as _ <-.
    - destruct (includes_opt (ignoreFolders options) n) eqn:Hin.
      + rewrite run_entries_ignored_folder in E1 by done.
        by injection E1 as _ <-.
      + cbn [snd] in Hc.
        specialize (Hc n (path.join fp n) options st Hfl).
        destruct listing as [sub |].
        * rewrite processDirectory_listing in Hc.
          rewrite run_entries_folder in E1 by done.
          by injection E1 as _ <-.
        * rewrite run_entries_unlisted_folder in E1 by done.
          by injection E1 as _ <-.
    - rewrite run_entries_special in E1. by injection E1 as _ <-. }
  rewrite <- Hst1 in Hfl |- *. specialize (IHes st1 Hfl).
  destruct (run_entries options fp es st1) as [its2 st2] eqn:E2.
  exact IHes.
Qed.

Lemma processDirectory_keeps_flagless node :
  forall fn fp options st,
    forallb flagless (regexps st) = true ->
    regexps (processDirectory fn fp options node st).2 = regexps st.
Proof.
  induction node as [sz t | | | es IH] using FsNode_nested_ind;
    intros fn fp options st Hfl; try done.
  rewrite processDirectory_listing. cbn [snd].
  by rewrite run_entries_keeps_flagless_with.
Qed.

Lemma run_entries_keeps_flagless options fp es st :
  forallb flagless (regexps st) = true ->
  regexps (run_entries options fp es st).2 = regexps st.
Proof.
  apply run_entries_keeps_flagless_with, Forall_forall.
  intros e _. apply processDirectory_keeps_flagless.
Qed.

Lemma reached_keeps_flagless options fp es st0 dir name node st :
  reached options fp es st0 dir name node st ->
  forallb flagless (regexps st0) = true ->
  regexps st = regexps st0.
Proof.
  induction 1 as [fp pre name node post st0
                 | fp pre d sub post st0 dir name node st Hd Hr IH];
    intros Hfl.
  - by apply run_entries_keeps_flagless.
  - rewrite IH; cbn [regexps log];
      by rewrite run_entries_keeps_flagless.
Qed.

(** Without the flags [g] and [y] among the caller's patterns, C7 holds:
    a file entry that the traversal reaches is left out exactly when its
    name is in the merged [ignoreFiles] or some merged pattern matches
    it, and it has a node otherwise. *)
Lemma flagless_patterns_filter_by_match
      w tp options st es dir name sz text st1 :
  forallb flagless (or_empty (ignorePatterns options)) = true ->
  lookup_path w tp = Some (Directory (Some es)) ->
  reached (mergedOptions options) tp es (scan_start tp options st)
          dir name (RegularFile sz text) st1 ->
  let merged := mergedOptions options in
  let skipped :=
    includes_opt (ignoreFiles merged) name
    || some_matches (or_empty (ignorePatterns merged)) name in
  (skipped = true ->
   (run_entries merged dir [(name, RegularFile sz text)] st1).1 = [])
  /\ (skipped = false ->
      exists d st',
        scanTemplateDirectory w tp options st = (Ok d, st')
        /\ occurs (file_item name (file_content merged (RegularFile sz text)))
                  (items d)).
Proof.
  intros Hfl Hroot Hreach merged skipped.
  assert (forallb flagless (regexps (scan_start tp options st)) = true) as H0.
  { change (regexps (scan_start tp options st))
      with (or_empty (ignorePatterns defaultOptions)
            ++ or_empty (ignorePatterns options)).
    rewrite forallb_app. by rewrite Hfl. }
  pose proof (reached_keeps_flagless _ _ _ _ _ _ _ _ Hreach H0) as Hst1.
  assert (forallb flagless (regexps st1) = true) as H1 by by rewrite Hst1.
  assert (retained merged st1 name = negb skipped) as Hret.
  { rewrite (retained_flagless _ _ _ H1), Hst1. subst skipped.
    by rewrite negb_orb. }
  split; intros Hs; rewrite Hs in Hret; simpl in Hret.
  - destruct (includes_opt (ignoreFiles merged) name) eqn:Hin.
    + by rewrite run_entries_ignored_file.
    + rewrite run_entries_matched_file; [done | done |].
      rewrite (some_pattern_flagless _ _ _ H1). cbn [fst].
      rewrite (retained_flagless _ _ _ H1), Hin in Hret. simpl in Hret.
      apply negb_false_iff in Hret. by rewrite Hret.
  - rewrite (scan_listing _ _ _ _ _ Hroot). eexists _, _.
    split; [reflexivity |].
    by apply (reached_occurs _ _ _ _ _ _ _ _ Hreach).
Qed.

Set Warnings "-clear-no-such-hyp".

(** * Further properties of the scanner and of the persistence adapter *)

(** ** The loop follows the rules of [walk] *)

Lemma run_entries_walk_with options :
  forall es,
    Forall (fun e => forall sub, e.2 = Directory (Some sub) ->
                       forall fp st,
                         walk options fp sub st
                              (run_entries options fp sub st).1
                              (run_entries options fp sub st).2) es ->
    forall fp st,
      walk options fp es st (run_entries options fp es st).1
           (run_entries options fp es st).2.
Proof.
  induction 1 as [| [n c] es Hc _ IHes]; intros fp st; [constructor |].
  rewrite run_entries_cons.
  destruct c as [sz t | [sub |] |].
  - destruct (retained options st n) eqn:Hret.
    + rewrite run_entries_retained_file by done.
      specialize (IHes fp (file_calls options (path.join fp n)
                                      (RegularFile sz t)
                                      (some_pattern options n st).2)).
      destruct (run_entries options fp es _) as [its2 st2].
      by apply walk_retained_file.
    + destruct (includes_opt (ignoreFiles options) n) eqn:Hin.
      * rewrite run_entries_ignored_file by done.
        specialize (IHes fp st).
        destruct (run_entries options fp es st) as [its2 st2].
        by apply walk_ignored_file.
      * assert ((some_pattern options n st).1 = Ok true) as Hm.
        { unfold retained in Hret. rewrite Hin in Hret. simpl in Hret.
          destruct (some_pattern_ok options n st) as [[] Hb]; [done |].
          by rewrite Hb in Hret. }
        rewrite run_entries_matched_file by done.
        specialize (IHes fp (some_pattern options n st).2).
        destruct (run_entries options fp es _) as [its2 st2].
        by apply walk_matched_file.
  - destruct (includes_opt (ignoreFolders options) n) eqn:Hin.
    + rewrite run_entries_ignored_folder by done.
      specialize (IHes fp st).
      destruct (run_entries options fp es st) as [its2 st2].
      by apply walk_ignored_folder.
    + rewrite run_entries_folder by done. cbn zeta. cbn [fst snd].
      specialize (Hc sub eq_refl (path.join fp n)
                     (log (EvReaddir (path.join fp n)) st)).
      specialize (IHes fp (run_entries options (path.join fp n) sub
                             (log (EvReaddir (path.join fp n)) st)).2).
      destruct (run_entries options fp es _) as [its2 st2].
      by eapply walk_folder.
  - destruct (includes_opt (ignoreFolders options) n) eqn:Hin.
    + rewrite run_entries_ignored_folder by done.
      specialize (IHes fp st).
      destruct (run_entries options fp es st) as [its2 st2].
      by apply walk_ignored_folder.
    + rewrite run_entries_unlisted_folder by done.
      specialize (IHes fp (readdir_failed (path.join fp n) st)).
      destruct (run_entries options fp es _) as [its2 st2].
      by apply walk_unlisted_folder.
  - rewrite run_entries_special.
    specialize (IHes fp st).
    destruct (run_entries options fp es st) as [its2 st2].
    by apply walk_special.
Qed.

Lemma run_entries_walk options fp es st :
  walk options fp es st (run_entries options fp es st).1
       (run_entries options fp es st).2.
Proof.
  revert fp st.
  enough (forall node sub, node = Directory (Some sub) ->
            forall fp st,
              walk options fp sub st (run_entries options fp sub st).1
                   (run_entries options fp sub st).2) as H
      by (apply (H (Directory (Some es))); reflexivity).
  induction node as [sz t | | | es' IH] using FsNode_nested_ind;
    intros sub [=]; subst.
  apply run_entries_walk_with.
  eapply Forall_impl; [exact IH |]. intros e He. exact He.
Qed.

(** ** The scanner changes nothing *)

Lemma only_reads_refl st : only_reads st st.
Proof. split; [done |]. exists []. by rewrite app_nil_r. Qed.

Lemma only_reads_trans a b c :
  only_reads a b -> only_reads b c -> only_reads a c.
Proof.
  intros (Hd1 & evs1 & Ht1 & H1) (Hd2 & evs2 & Ht2 & H2).
  split; [congruence |]. exists (evs1 ++ evs2).
  split; [by rewrite Ht2, Ht1, app_assoc | by apply Forall_app].
Qed.

Lemma only_reads_log e st : is_write e = false -> only_reads st (log e st).
Proof. intros He. split; [done |]. exists [e]. by split; [| constructor]. Qed.

Lemma only_reads_set_regexps ps st : only_reads st (set_regexps ps st).
Proof. split; [done |]. exists []. by rewrite app_nil_r. Qed.

Lemma some_pattern_state options n st :
  (some_pattern options n st).2
  = match ignorePatterns options with
    | Some _ => set_regexps (some_test (regexps st) n).2 st
    | None => st
    end.
Proof.
  unfold some_pattern. destruct (ignorePatterns options); [| done].
  by destruct (some_test (regexps st) n).
Qed.

Lemma only_reads_some_pattern options n st :
  only_reads st (some_pattern options n st).2.
Proof.
  rewrite some_pattern_state. destruct (ignorePatterns options).
  - apply only_reads_set_regexps.
  - apply only_reads_refl.
Qed.

Lemma only_reads_file_calls options p node st :
  only_reads st (file_calls options p node st).
Proof.
  unfold file_calls.
  destruct node as [[sz |] t | |]; try by apply only_reads_log.
  destruct (too_large options sz); [by apply only_reads_log |].
  eapply only_reads_trans; by apply only_reads_log.
Qed.

Lemma only_reads_readdir_failed p st : only_reads st (readdir_failed p st).
Proof.
  unfold readdir_failed. eapply only_reads_trans; by apply only_reads_log.
Qed.

Lemma walk_only_reads options fp es st its st' :
  walk options fp es st its st' -> only_reads st st'.
Proof.
  induction 1; try done.
  - apply only_reads_refl.
  - eapply only_reads_trans; [| done].
    eapply only_reads_trans; [| done]. by apply only_reads_log.
  - eapply only_reads_trans; [apply only_reads_readdir_failed | done].
  - eapply only_reads_trans; [apply only_reads_some_pattern | done].
  - eapply only_reads_trans; [| done].
    eapply only_reads_trans;
      [apply only_reads_some_pattern | apply only_reads_file_calls].
Qed.

Lemma only_reads_scan_start tp options st :
  only_reads st (scan_start tp options st).
Proof.
  unfold scan_start.
  eapply only_reads_trans; [apply only_reads_set_regexps |].
  eapply only_reads_trans; by apply only_reads_log.
Qed.

Lemma scan_only_reads_any w tp options st :
  only_reads st (scanTemplateDirectory w tp options st).2.
Proof.
  destruct (lookup_path w tp) as [node |] eqn:H.
  - destruct (isDirectory node) eqn:Hd.
    + destruct node as [| [es |] |]; try done.
      * rewrite (scan_listing _ _ _ _ _ H). cbn [snd].
        eapply only_reads_trans; [apply only_reads_scan_start |].
        eapply walk_only_reads, run_entries_walk.
      * rewrite (scan_directory _ _ _ _ _ H Hd).
        rewrite processDirectory_unlisted by done. cbn [snd].
        eapply only_reads_trans; [apply only_reads_set_regexps |].
        eapply only_reads_trans; [| apply only_reads_readdir_failed].
        by apply only_reads_log.
    + rewrite (scan_not_directory _ _ _ _ _ H Hd). cbn [snd].
      eapply only_reads_trans; [apply only_reads_set_regexps |].
      by apply only_reads_log.
  - rewrite (scan_missing _ _ _ _ H). cbn [snd].
    eapply only_reads_trans; [apply only_reads_set_regexps |].
    eapply only_reads_trans; by apply only_reads_log.
Qed.

(** X1. [scanTemplateDirectory] returns for every path, every
    configuration and every state of the file system: no failure of
    [stat], [readdir] or [readFile] reaches the caller. What it returns is
    the empty template or a folder named after the last segment of the
    path. *)
Theorem scan_always_returns_a_folder w tp options st :
  exists d st',
    scanTemplateDirectory w tp options st = (Ok d, st')
    /\ (d = EMPTY_TEMPLATE \/ folderName d = path.basename tp).
Proof.
  destruct (lookup_path w tp) as [node |] eqn:H.
  - destruct (isDirectory node) eqn:Hd.
    + rewrite (scan_directory _ _ _ _ _ H Hd).
      destruct node as [| [es |] |]; try done.
      * rewrite processDirectory_listing. eexists _, _.
        split; [reflexivity | by right].
      * rewrite processDirectory_unlisted by done. eexists _, _.
        split; [reflexivity | by right].
    + rewrite (scan_not_directory _ _ _ _ _ H Hd). eexists _, _.
      split; [reflexivity | by left].
  - rewrite (scan_missing _ _ _ _ H). eexists _, _.
    split; [reflexivity | by left].
Qed.

(** X2. A scan writes nothing: in the state after
    [scanTemplateDirectory] the store of documents is the one before, and
    the calls added to the trace are [stat], [readdir], [readFile] and
    warnings, never [mkdir] or [writeFile]. *)
Theorem scan_writes_nothing w tp options st :
  documents (scanTemplateDirectory w tp options st).2 = documents st
  /\ exists evs,
      trace (scanTemplateDirectory w tp options st).2 = trace st ++ evs
      /\ Forall (fun e => is_write e = false) evs.
Proof. apply scan_only_reads_any. Qed.

(** ** A test that answers [true] has found a match *)

Lemma search_finds p stick s fuel i e :
  search p stick s fuel i = Some e ->
  exists j, (i <= j <= length s)%nat /\ ends p s j <> [].
Proof.
  revert i. induction fuel as [| fuel IH]; intros i; [done |].
  cbn [search]. case_bool_decide as Hlen; [done |].
  destruct (ends p s i) as [| e' l] eqn:E.
  - destruct stick; [done |]. intros (j & Hj & Hne)%IH.
    exists j. split; [lia | done].
  - intros _. exists i. split; [lia | by rewrite E].
Qed.

Lemma search_complete p s j :
  (j <= length s)%nat ->
  ends p s j <> [] ->
  forall fuel i,
    (i <= j)%nat -> (j - i < fuel)%nat ->
    is_Some (search p false s fuel i).
Proof.
  intros Hj Hne. induction fuel as [| fuel IH]; intros i Hi Hfuel; [lia |].
  cbn [search]. rewrite bool_decide_eq_false_2 by lia.
  destruct (ends p s i) as [| e' l] eqn:E; [| by eexists].
  destruct (decide (i = j)) as [-> | Hij]; [done |].
  apply IH; lia.
Qed.

Lemma pattern_matches_iff p s :
  pattern_matches p s = true
  <-> exists j, (j <= length s)%nat /\ ends p s j <> [].
Proof.
  unfold pattern_matches. rewrite bool_decide_eq_true. split.
  - intros [e He]. apply search_finds in He as (j & Hj & Hne).
    exists j. split; [lia | done].
  - intros (j & Hj & Hne). apply (search_complete p s j Hj Hne); lia.
Qed.

Lemma RegExp_test_true r s :
  (RegExp_test r s).1 = true -> pattern_matches (source r) s = true.
Proof.
  unfold RegExp_test.
  destruct (search (source r) (sticky r) s (S (S (length s))) _)
    as [e |] eqn:E; [| done].
  intros _. apply pattern_matches_iff.
  apply search_finds in E as (j & Hj & Hne). exists j. split; [lia | done].
Qed.

Lemma RegExp_test_source r s : source (RegExp_test r s).2 = source r.
Proof.
  unfold RegExp_test.
  destruct (search (source r) (sticky r) s (S (S (length s))) _);
    cbn [snd]; by destruct (global r || sticky r).
Qed.

Lemma some_test_true ps s :
  (some_test ps s).1 = true -> some_matches ps s = true.
Proof.
  unfold some_matches. induction ps as [| r ps IH]; [done |].
  cbn [some_test existsb].
  pose proof (RegExp_test_true r s) as Hr.
  destruct (RegExp_test r s) as [[] r']; cbn [fst] in *.
  - intros _. by rewrite Hr.
  - destruct (some_test ps s) as [b ps']. cbn [fst] in *.
    intros ->. rewrite (IH eq_refl). apply orb_true_r.
Qed.

Lemma some_test_sources ps s :
  map source (some_test ps s).2 = map source ps.
Proof.
  induction ps as [| r ps IH]; [done |]. cbn [some_test].
  pose proof (RegExp_test_source r s) as Hr.
  destruct (RegExp_test r s) as [[] r']; cbn [snd] in *.
  - cbn [map]. by rewrite Hr.
  - destruct (some_test ps s) as [b ps']. cbn [snd map] in *. congruence.
Qed.

Lemma some_matches_sources ps ps' s :
  map source ps = map source ps' -> some_matches ps s = some_matches ps' s.
Proof.
  unfold some_matches.
  revert ps'. induction ps as [| r ps IH]; intros [| r' ps']; try done.
  cbn [map existsb]. intros [= Hr Hps].
  rewrite Hr. f_equal. by apply IH.
Qed.

Lemma some_pattern_sources options n st :
  map source (regexps (some_pattern options n st).2)
  = map source (regexps st).
Proof.
  rewrite some_pattern_state. destruct (ignorePatterns options); [| done].
  apply some_test_sources.
Qed.

Lemma some_pattern_true options n st :
  (some_pattern options n st).1 = Ok true ->
  some_matches (regexps st) n = true.
Proof.
  unfold some_pattern. destruct (ignorePatterns options); [| done].
  pose proof (some_test_true (regexps st) n) as H.
  destruct (some_test (regexps st) n) as [b ps]. cbn [fst] in *.
  intros [= ->]. by apply H.
Qed.

Lemma file_calls_regexps options p node st :
  regexps (file_calls options p node st) = regexps st.
Proof.
  unfold file_calls. destruct node as [[sz |] t | |]; try done.
  by destruct (too_large options sz).
Qed.

(** ** The tree mirrors the listing *)

Lemma walk_mirrors options fp es st its st' :
  walk options fp es st its st' ->
  map source (regexps st) = map source (or_empty (ignorePatterns options)) ->
  mirrors options es its
  /\ map source (regexps st') = map source (regexps st).
Proof.
  induction 1 as [fp st
                 | fp n es st its st' _ IH
                 | fp n listing es st its st' Hin _ IH
                 | fp n sub es st children st1 its st2 Hin _ IHsub _ IH
                 | fp n es st its st' Hin _ IH
                 | fp n sz t es st its st' Hin _ IH
                 | fp n sz t es st its st' Hin Hm _ IH
                 | fp n sz t es st its st' Hret _ IH];
    intros Hsrc.
  - split; [constructor | done].
  - destruct (IH Hsrc). split; [by constructor | done].
  - destruct (IH Hsrc). split; [by constructor | done].
  - destruct (IHsub Hsrc) as [Hsub Hs1]. cbn [regexps log] in Hs1.
    destruct IH as [Hrest Hs2]; [congruence |].
    split; [by constructor | congruence].
  - destruct (IH Hsrc). split; [by constructor | done].
  - destruct (IH Hsrc). split; [by constructor | done].
  - pose proof (some_pattern_sources options n st) as Hs1.
    destruct IH as [Hrest Hs2]; [congruence |].
    split; [| congruence].
    apply mirrors_matched_file; [| done].
    rewrite <- (some_matches_sources _ _ n Hsrc).
    by apply (some_pattern_true options).
  - pose proof (some_pattern_sources options n st) as Hs1.
    destruct IH as [Hrest Hs2];
      [rewrite file_calls_regexps; congruence |].
    rewrite file_calls_regexps in Hs2.
    split; [| congruence].
    apply mirrors_file; [| done].
    unfold retained in Hret. apply andb_true_iff in Hret as [Hin _].
    by apply negb_true_iff in Hin.
Qed.

(** X3. The tree of a scan mirrors the listing of the directory. The
    items of every folder come from a part of the entries of its
    directory, in the order of the listing: a folder node for a directory
    (of the same name, over the mirror of its own listing), a file node
    for a regular file (the name split by [path.parse], the content that
    the size and the text determine). An entry has no node only when it is
    neither a directory nor a regular file, or is a directory named in the
    merged [ignoreFolders], or is a file named in the merged [ignoreFiles]
    or matched by the source of a merged pattern. This holds for patterns
    with any flags. *)
Theorem scan_mirrors_the_listing w tp options st es :
  lookup_path w tp = Some (Directory (Some es)) ->
  exists d st',
    scanTemplateDirectory w tp options st = (Ok d, st')
    /\ folderName d = path.basename tp
    /\ mirrors (mergedOptions options) es (items d).
Proof.
  intros Hroot. rewrite (scan_listing _ _ _ _ _ Hroot).
  eexists _, _. split; [reflexivity |]. split; [done |]. cbn [items].
  by apply (walk_mirrors _ _ _ _ _ _ (run_entries_walk _ _ _ _)).
Qed.

Lemma scan_mirrors_witness :
  lookup_path (world_of (js "/t") with_dependencies) (js "/t")
  = Some with_dependencies
  /\ exists d st',
      scanTemplateDirectory (world_of (js "/t") with_dependencies) (js "/t")
                            noOptions (initial ∅) = (Ok d, st')
      /\ folderName d = path.basename (js "/t")
      /\ mirrors (mergedOptions noOptions)
                 [(js "node_modules",
                   Directory (Some [(js "index.js",
                                     RegularFile (Some 5%N)
                                                 (Some (js "hello")))]));
                  (js "a.txt", small_file)]
                 (items d).
Proof.
  split; [reflexivity |].
  apply (scan_mirrors_the_listing (world_of (js "/t") with_dependencies)
           (js "/t") noOptions (initial ∅)).
  reflexivity.
Defined.

(** ** Directories *)

Lemma walk_sources options fp es st its st' :
  walk options fp es st its st' ->
  map source (regexps st') = map source (regexps st).
Proof.
  induction 1 as [fp st
                 | fp n es st its st' _ IH
                 | fp n listing es st its st' Hin _ IH
                 | fp n sub es st children st1 its st2 Hin _ IHsub _ IH
                 | fp n es st its st' Hin _ IH
                 | fp n sz t es st its st' Hin _ IH
                 | fp n sz t es st its st' Hin Hm _ IH
                 | fp n sz t es st its st' Hret _ IH]; try done.
  - by rewrite IH, IHsub.
  - by rewrite IH, some_pattern_sources.
  - by rewrite IH, file_calls_regexps, some_pattern_sources.
Qed.

Lemma reached_sources options fp es st0 dir name node st :
  reached options fp es st0 dir name node st ->
  map source (regexps st) = map source (regexps st0).
Proof.
  induction 1 as [fp pre name node post st0
                 | fp pre d sub post st0 dir name node st Hd Hr IH].
  - apply (walk_sources _ _ _ _ _ _ (run_entries_walk options fp pre st0)).
  - rewrite IH. cbn [regexps log].
    apply (walk_sources _ _ _ _ _ _ (run_entries_walk options fp pre st0)).
Qed.

(** The items below the directory entry [(name, Directory listing)] of
    directory [dir], when the loop comes to it in state [st]. *)
Lemma reached_directory_occurs options fp es st0 dir name node listing st :
  reached options fp es st0 dir name node st ->
  node = Directory listing ->
  includes_opt (ignoreFolders options) name = false ->
  occurs (ItemFolder name
            (match listing with
             | Some sub =>
                 (run_entries options (path.join dir name) sub
                    (log (EvReaddir (path.join dir name)) st)).1
             | None => []
             end))
         (run_entries options fp es st0).1.
Proof.
  induction 1 as [fp pre name node post st0
                 | fp pre d sub post st0 dir name node st Hd Hr IH];
    intros -> Hin.
  - rewrite run_entries_split.
    destruct (run_entries options fp pre st0) as [its1 st1]. cbn [snd].
    destruct listing as [sub |].
    + rewrite run_entries_folder by done. simpl.
      destruct (run_entries options fp post _) as [its3 st3].
      apply occurs_middle.
    + rewrite run_entries_unlisted_folder by done.
      destruct (run_entries options fp post _) as [its3 st3].
      apply occurs_middle.
  - rewrite run_entries_split.
    destruct (run_entries options fp pre st0) as [its1 st1]. simpl in *.
    rewrite run_entries_folder by done. simpl.
    destruct (run_entries options fp post _) as [its3 st3]. simpl.
    eapply occurs_below; [| by apply IH].
    apply elem_of_app. right. constructor.
Qed.

(** X4. Every directory entry that the traversal reaches, at any depth,
    and whose name is not in the merged [ignoreFolders] has a folder node
    of its name in the tree, whatever [ignoreFiles] and [ignorePatterns]
    hold: the file filters are not applied to directories. When the
    listing of the directory cannot be read the node has no items;
    otherwise its items mirror the listing. *)
Theorem directory_entries_become_folders
        w tp options st es dir name listing st1 :
  lookup_path w tp = Some (Directory (Some es)) ->
  reached (mergedOptions options) tp es (scan_start tp options st)
          dir name (Directory listing) st1 ->
  includes_opt (ignoreFolders (mergedOptions options)) name = false ->
  exists d st' children,
    scanTemplateDirectory w tp options st = (Ok d, st')
    /\ occurs (ItemFolder name children) (items d)
    /\ (listing = None -> children = [])
    /\ (forall sub, listing = Some sub ->
                    mirrors (mergedOptions options) sub children).
Proof.
  intros Hroot Hreach Hin. rewrite (scan_listing _ _ _ _ _ Hroot).
  eexists _, _, _. split; [reflexivity |]. cbn [items].
  split; [by apply (reached_directory_occurs _ _ _ _ _ _ _ listing _ Hreach) |].
  split; [by intros -> |]. intros sub ->.
  apply (walk_mirrors _ _ _ _ _ _ (run_entries_walk _ _ _ _)).
  cbn [regexps log]. by rewrite (reached_sources _ _ _ _ _ _ _ _ Hreach).
Qed.

Lemma directory_entries_witness :
  lookup_path (world_of (js "/t") odd_directories) (js "/t")
  = Some (Directory (Some [
      (js ".env", Directory (Some [(js "a.txt", small_file)]));
      (js "old~", Directory None)]))
  /\ includes_opt (ignoreFiles (mergedOptions noOptions)) (js ".env") = true
  /\ exists d st' children,
      scanTemplateDirectory (world_of (js "/t") odd_directories) (js "/t")
                            noOptions (initial ∅) = (Ok d, st')
      /\ occurs (ItemFolder (js ".env") children) (items d)
      /\ (Some [(js "a.txt", small_file)] = None -> children = [])
      /\ (forall sub,
             Some [(js "a.txt", small_file)] = Some sub ->
             mirrors (mergedOptions noOptions) sub children).
Proof.
  split; [reflexivity |]. split; [reflexivity |].
  apply (directory_entries_become_folders
           (world_of (js "/t") odd_directories) (js "/t") noOptions
           (initial ∅)
           [(js ".env", Directory (Some [(js "a.txt", small_file)]));
            (js "old~", Directory None)]
           (js "/t") (js ".env")
           (Some [(js "a.txt", small_file)])
           (scan_start (js "/t") noOptions (initial ∅))).
  - reflexivity.
  - apply (reached_here (mergedOptions noOptions) (js "/t") []
                        (js ".env")
                        (Directory (Some [(js "a.txt", small_file)]))
                        [(js "old~", Directory None)]).
  - reflexivity.
Defined.

Example odd_directories_scan :
  (scanTemplateDirectory (world_of (js "/t") odd_directories) (js "/t")
                         noOptions (initial ∅)).1
  = Ok (MkFolder (js "t")
          [ItemFolder (js ".env")
             [ItemFile (MkFile (js "a") (js "txt") (js "hello"))];
           ItemFolder (js "old~") []]).
Proof. reflexivity. Qed.

(** X5. A root directory whose listing cannot be read is not replaced by
    the empty template: the scan returns the folder named after the path,
    without items, after one [stat], one [readdir] and the warning of
    [processDirectory]. *)
Theorem unlistable_root_gives_named_empty_folder w tp options st :
  lookup_path w tp = Some (Directory None) ->
  exists st',
    scanTemplateDirectory w tp options st
    = (Ok (MkFolder (path.basename tp) []), st')
    /\ trace st'
       = trace st ++ [EvStat tp; EvReaddir tp;
                      EvWarn (js "Error processing directory " ++ tp)].
Proof.
  intros Hroot. rewrite (scan_directory _ _ _ _ _ Hroot) by done.
  rewrite processDirectory_unlisted by done.
  eexists. split; [reflexivity |].
  unfold readdir_failed. cbn [trace log set_regexps].
  by rewrite <- !app_assoc.
Qed.

Lemma unlistable_root_witness :
  lookup_path (world_of (js "/t") (Directory None)) (js "/t")
  = Some (Directory None)
  /\ exists st',
      scanTemplateDirectory (world_of (js "/t") (Directory None)) (js "/t")
                            noOptions (initial ∅)
      = (Ok (MkFolder (path.basename (js "/t")) []), st')
      /\ trace st'
         = trace (initial ∅)
           ++ [EvStat (js "/t"); EvReaddir (js "/t");
               EvWarn (js "Error processing directory " ++ js "/t")].
Proof.
  split; [reflexivity |].
  apply (unlistable_root_gives_named_empty_folder
           (world_of (js "/t") (Directory None)) (js "/t") noOptions
           (initial ∅)).
  reflexivity.
Defined.

(** X6. When the root is missing or is not a directory, the scan makes
    one call, the [stat] of the path, and lists and reads nothing. A
    missing root is reported by a warning; a root that exists and is not a
    directory is not. *)
Theorem absent_root_costs_one_stat w tp options st :
  (lookup_path w tp = None ->
   trace (scanTemplateDirectory w tp options st).2
   = trace st ++ [EvStat tp; not_found_warning tp])
  /\ (forall node,
         lookup_path w tp = Some node -> isDirectory node = false ->
         trace (scanTemplateDirectory w tp options st).2
         = trace st ++ [EvStat tp]).
Proof.
  split.
  - intros H. rewrite (scan_missing _ _ _ _ H).
    cbn [snd trace log set_regexps]. by rewrite <- app_assoc.
  - intros node H Hd. by rewrite (scan_not_directory _ _ _ _ _ H Hd).
Qed.

(** ** Saving *)

(** The four ways [saveTemplateStructureToJson] can go after the scan. *)
Lemma save_cases w tp out options st d st1 :
  scanTemplateDirectory w tp (default noOptions options) st = (Ok d, st1) ->
  let doc := JSON.stringify (folder_value d) in
  let fallback := JSON.stringify (folder_value EMPTY_TEMPLATE) in
  let dir := path.dirname out in
  let warning :=
    EvWarn (js "Template generation failed, writing empty template") in
  saveTemplateStructureToJson w tp out options st
  = if mkdir_ok w dir then
      if write_ok w out doc then
        (Ok tt, set_document out doc
                  (log (EvWriteFile out) (log (EvMkdir dir true) st1)))
      else
        let st2 := log (EvWriteFile out)
                     (log (EvMkdir dir true)
                        (log warning
                           (log (EvWriteFile out) (log (EvMkdir dir true) st1)))) in
        if write_ok w out fallback
        then (Ok tt, set_document out fallback st2)
        else (Throw IOError, st2)
    else (Throw IOError,
          log (EvMkdir dir true) (log warning (log (EvMkdir dir true) st1))).
Proof.
  intros Hscan doc fallback dir warning.
  unfold saveTemplateStructureToJson, try_catch, bind at 1.
  rewrite Hscan.
  unfold bind, fs_mkdir, fs_writeFile, bind, modify, console_warn, modify,
    throw, ret.
  cbn [fst snd]. fold dir doc fallback.
  destruct (mkdir_ok w dir); cbn [fst snd]; [| done].
  destruct (write_ok w out doc); cbn [fst snd].
  - subst doc. by rewrite stringify_folder_utf8_safe.
  - destruct (write_ok w out fallback); cbn [fst snd]; [| done].
    subst fallback. by rewrite stringify_folder_utf8_safe.
Qed.

(** X7. [saveTemplateStructureToJson] returns exactly when the directory
    of the output path can be made and the document of the scanned tree,
    or else the document of the empty template, can be written; otherwise
    it throws. After it returns, the output path holds the document of the
    tree when that could be written and the document of the empty template
    when not. *)
Theorem save_returns_iff_a_document_is_written w tp out options st :
  exists d st1 st2,
    scanTemplateDirectory w tp (default noOptions options) st = (Ok d, st1)
    /\ let doc := JSON.stringify (folder_value d) in
       let fallback := JSON.stringify (folder_value EMPTY_TEMPLATE) in
       let written :=
         mkdir_ok w (path.dirname out)
         && (write_ok w out doc || write_ok w out fallback) in
       saveTemplateStructureToJson w tp out options st
       = (if written then Ok tt else Throw IOError, st2)
       /\ (written = true ->
           documents st2 !! out
           = Some (if write_ok w out doc then doc else fallback)).
Proof.
  destruct (scan_total w tp (default noOptions options) st)
    as (d & st1 & Hscan).
  exists d, st1. rewrite (save_cases _ _ _ _ _ _ _ Hscan). cbn zeta.
  destruct (mkdir_ok w (path.dirname out)); cbn [andb];
    [| by eexists].
  destruct (write_ok w out (JSON.stringify (folder_value d))); cbn [orb].
  - eexists. split; [exact Hscan |]. split; [reflexivity |]. intros _.
    cbn [documents set_document]. by rewrite lookup_insert_eq.
  - destruct (write_ok w out (JSON.stringify (folder_value EMPTY_TEMPLATE)));
      eexists; (split; [exact Hscan |]); (split; [reflexivity |]); [| done].
    intros _. cbn [documents set_document]. by rewrite lookup_insert_eq.
Qed.

(** X8. [saveTemplateStructureToJson] touches one document: whatever
    happens, every document at a path other than the output path is the
    one that was there before. *)
Theorem save_leaves_other_documents w tp out options st q :
  q <> out ->
  documents (saveTemplateStructureToJson w tp out options st).2 !! q
  = documents st !! q.
Proof.
  intros Hq.
  destruct (scan_total w tp (default noOptions options) st)
    as (d & st1 & Hscan).
  pose proof (scan_only_reads_any w tp (default noOptions options) st)
    as [Hdocs _].
  rewrite Hscan in Hdocs. cbn [snd] in Hdocs.
  rewrite (save_cases _ _ _ _ _ _ _ Hscan). cbn zeta.
  destruct (mkdir_ok w (path.dirname out)); [| by rewrite <- Hdocs].
  destruct (write_ok w out (JSON.stringify (folder_value d))).
  - cbn [snd documents set_document log].
    by rewrite lookup_insert_ne, Hdocs.
  - destruct (write_ok w out (JSON.stringify (folder_value EMPTY_TEMPLATE)));
      cbn [snd documents set_document log]; [| by rewrite Hdocs].
    by rewrite lookup_insert_ne, Hdocs.
Qed.

Lemma save_leaves_other_documents_witness :
  js "/out/other.json" <> js "/out/t.json"
  /\ documents
       (saveTemplateStructureToJson
          (world_of (js "/t") nested_tree) (js "/t") (js "/out/t.json") None
          (initial {[ js "/out/other.json" := js "[]" ]})).2
     !! js "/out/other.json"
     = documents (initial {[ js "/out/other.json" := js "[]" ]})
       !! js "/out/other.json".
Proof.
  assert (js "/out/other.json" <> js "/out/t.json") as Hne by done.
  split; [exact Hne |].
  exact (save_leaves_other_documents
           (world_of (js "/t") nested_tree) (js "/t") (js "/out/t.json") None
           (initial {[ js "/out/other.json" := js "[]" ]})
           (js "/out/other.json") Hne).
Defined.

(** X9. Whenever [saveTemplateStructureToJson] returns,
    [readTemplateStructureFromJson] on the output path gives back a
    template: the tree that was scanned, or the empty template when the
    document of the tree could not be written. *)
Theorem load_after_save_gives_a_template w tp out options st st2 :
  saveTemplateStructureToJson w tp out options st = (Ok tt, st2) ->
  exists d,
    (scanTemplateDirectory w tp (default noOptions options) st).1 = Ok d
    /\ (readTemplateStructureFromJson out st2).1
       = Ok (if write_ok w out (JSON.stringify (folder_value d))
             then folder_value d else folder_value EMPTY_TEMPLATE).
Proof.
  destruct (scan_total w tp (default noOptions options) st)
    as (d & st1 & Hscan).
  rewrite (save_cases _ _ _ _ _ _ _ Hscan). cbn zeta. intros Hsave.
  exists d. rewrite Hscan. split; [done |].
  rewrite read_equation. cbn [fst].
  destruct (mkdir_ok w (path.dirname out)); [| done].
  destruct (write_ok w out (JSON.stringify (folder_value d))).
  - injection Hsave as <-. cbn [documents set_document].
    by rewrite lookup_insert_eq, parse_text_folder.
  - destruct (write_ok w out (JSON.stringify (folder_value EMPTY_TEMPLATE)));
      [| done].
    injection Hsave as <-. cbn [documents set_document].
    by rewrite lookup_insert_eq, parse_text_folder.
Qed.

Lemma load_after_save_witness :
  saveTemplateStructureToJson
    (small_quota_world (js "/t") nested_tree) (js "/t") (js "/out/t.json")
    None (initial ∅)
  = (Ok tt,
     (saveTemplateStructureToJson
        (small_quota_world (js "/t") nested_tree) (js "/t")
        (js "/out/t.json") None (initial ∅)).2)
  /\ exists d,
      (scanTemplateDirectory (small_quota_world (js "/t") nested_tree)
                             (js "/t") (default noOptions None)
                             (initial ∅)).1 = Ok d
      /\ (readTemplateStructureFromJson
            (js "/out/t.json")
            (saveTemplateStructureToJson
               (small_quota_world (js "/t") nested_tree) (js "/t")
               (js "/out/t.json") None (initial ∅)).2).1
         = Ok (if write_ok (small_quota_world (js "/t") nested_tree)
                           (js "/out/t.json")
                           (JSON.stringify (folder_value d))
               then folder_value d else folder_value EMPTY_TEMPLATE).
Proof.
  assert (saveTemplateStructureToJson
            (small_quota_world (js "/t") nested_tree) (js "/t")
            (js "/out/t.json") None (initial ∅)
          = (Ok tt,
             (saveTemplateStructureToJson
                (small_quota_world (js "/t") nested_tree) (js "/t")
                (js "/out/t.json") None (initial ∅)).2)) as Hsave
      by reflexivity.
  split; [exact Hsave |].
  exact (load_after_save_gives_a_template
           (small_quota_world (js "/t") nested_tree) (js "/t")
           (js "/out/t.json") None (initial ∅) _ Hsave).
Defined.

(** X10. Two trees with the same document are the same tree: the
    serialization of [saveTemplateStructureToJson] loses nothing of a
    tree, neither names, nor contents, nor the order of items. *)
Theorem document_determines_the_tree d d' :
  JSON.stringify (folder_value d) = JSON.stringify (folder_value d') ->
  d = d'.
Proof.
  intros H. apply folder_value_inj.
  apply (inj Some). by rewrite <- !parse_text_folder, H.
Qed.

Lemma document_determines_the_tree_witness :
  JSON.stringify (folder_value nested_folder)
  = JSON.stringify (folder_value nested_folder)
  /\ nested_folder = nested_folder.
Proof.
  split; [reflexivity |].
  exact (document_determines_the_tree nested_folder nested_folder eq_refl).
Defined.

(** X11. The document of a tree has no unpaired surrogate, whatever the
    names and the contents in the tree hold ([JSON.stringify] escapes
    them): writing it as UTF-8 and reading it back gives the same text. *)
Theorem document_survives_utf8 d :
  utf8_round_trip (JSON.stringify (folder_value d))
  = JSON.stringify (folder_value d).
Proof. apply stringify_folder_utf8_safe. Qed.

(** ** [path.parse] on an entry name *)

Lemma parse_loop_seen n :
  segment n ->
  forall k s,
    (k <= length n)%nat ->
    parse_seen n k s -> parse_seen n 0 (path.parse_loop n 0 k s).
Proof.
  intros Hseg. induction k as [| k IH]; intros s Hk Hs; [done |].
  cbn [path.parse_loop]. rewrite Z.add_0_l.
  destruct (lookup_lt_is_Some_2 n k) as [c Hc]; [lia |].
  rewrite (charCodeAt_lookup _ _ _ Hc).
  assert (c <> CHAR_FORWARD_SLASH) as Hsl.
  { intros ->. apply Hseg. by eapply list_elem_of_lookup_2. }
  rewrite (proj2 (N.eqb_neq _ _) Hsl).
  apply IH; [lia |].
  destruct s as [sd sp e ms pd].
  destruct Hs as (Hsp & He & Hdots). cbn in Hsp, He, Hdots. subst sp.
  assert (path.see_first_char (Z.of_nat k) (path.MkScan sd 0 e ms pd)
          = path.MkScan sd 0 (Z.of_nat (length n)) (if e =? -1 then false else ms) pd)
    as ->.
  { unfold path.see_first_char. cbn [path.endIdx path.startDot
      path.startPart path.preDotState path.matchedSlash].
    subst e. destruct (bool_decide (S k < length n)%nat) eqn:Hlt.
    - destruct (Z.eqb_spec (Z.of_nat (length n)) (-1)); [lia | done].
    - apply bool_decide_eq_false in Hlt. cbn. f_equal. lia. }
  set (ms' := if e =? -1 then false else ms). clearbody ms'. clear He.
  assert (bool_decide (k < length n)%nat = true) as Hklt
      by (apply bool_decide_eq_true; lia).
  destruct (N.eqb_spec c CHAR_DOT) as [-> | Hndot].
  - unfold path.see_dot. cbn [path.endIdx path.startDot path.startPart
      path.preDotState path.matchedSlash].
    destruct Hdots as [(-> & -> & Hno) | (d & -> & Hd & Hdd & Hafter & Hpd)].
    + cbn. split; [done |]. split; [by rewrite Hklt |].
      right. exists k. split; [done |]. split; [done |].
      split; [done |]. split.
      * intros j c' Hlt Hj. apply (Hno j c' Hj). lia.
      * by rewrite bool_decide_eq_true_2.
    + destruct (Z.eqb_spec (Z.of_nat d) (-1)) as [| _]; [lia |].
      assert ((if negb (pd =? 1)
               then path.MkScan (Z.of_nat d) 0 (Z.of_nat (length n)) ms' 1
               else path.MkScan (Z.of_nat d) 0 (Z.of_nat (length n)) ms' pd)
              = path.MkScan (Z.of_nat d) 0 (Z.of_nat (length n)) ms' 1) as ->.
      { by destruct (Z.eqb_spec pd 1) as [-> | ?]. }
      cbn. split; [done |]. split; [by rewrite Hklt |].
      right. exists d. split; [done |]. split; [lia |].
      split; [done |]. split; [done |].
      rewrite (bool_decide_eq_false_2 (d = k)) by lia.
      by rewrite bool_decide_eq_true_2.
  - unfold path.see_other. cbn [path.endIdx path.startDot path.startPart
      path.preDotState path.matchedSlash].
    destruct Hdots as [(-> & -> & Hno) | (d & -> & Hd & Hdd & Hafter & Hpd)].
    + cbn. split; [done |]. split; [by rewrite Hklt |].
      left. split; [done |]. split; [done |].
      intros j c' Hj Hle. destruct (decide (j = k)) as [-> | Hjk].
      * congruence.
      * apply (Hno j c' Hj). lia.
    + destruct (Z.eqb_spec (Z.of_nat d) (-1)) as [| _]; [lia |]. cbn.
      split; [done |]. split; [by rewrite Hklt |].
      right. exists d. split; [done |]. split; [lia |].
      split; [done |]. split; [done |].
      rewrite (bool_decide_eq_false_2 (d = k)) by lia.
      rewrite bool_decide_eq_false_2; [done |]. congruence.
Qed.

Lemma slice_from_zero n (d : nat) : slice n 0 (Z.of_nat d) = take d n.
Proof. unfold slice. cbn. by rewrite Nat.sub_0_r, Nat2Z.id. Qed.

Lemma slice_to_end n (d : nat) :
  slice n (Z.of_nat d) (Z.of_nat (length n)) = drop d n.
Proof.
  unfold slice. rewrite !Nat2Z.id. apply take_ge. rewrite length_drop. lia.
Qed.

Lemma slice_whole n : slice n 0 (Z.of_nat (length n)) = n.
Proof. rewrite slice_from_zero. by apply take_ge. Qed.

(** The two outcomes of [path.parse] on a name without separator: the
    whole name and no extension, or the split at the last dot. *)
Lemma parse_segment n :
  segment n ->
  (path.parse n = path.MkParsed n [] n
   /\ ((CHAR_DOT ∉ n) \/ (exists m, n = CHAR_DOT :: m /\ (CHAR_DOT ∉ m))
       \/ n = [CHAR_DOT; CHAR_DOT]))
  \/ exists stem e,
      n = stem ++ CHAR_DOT :: e /\ stem <> [] /\ (CHAR_DOT ∉ e)
      /\ ~ (stem = [CHAR_DOT] /\ e = [])
      /\ path.parse n = path.MkParsed n (CHAR_DOT :: e) stem.
Proof.
  intros Hseg. unfold path.parse.
  destruct n as [| c0 r] eqn:En.
  { left. split; [done |]. left. apply not_elem_of_nil. }
  rewrite <- En in *. rewrite bool_decide_eq_false_2 by (subst n; done).
  assert (n !! 0%nat = Some c0) as H0 by by subst n.
  assert ((charCodeAt n 0 =? CHAR_FORWARD_SLASH)%N = false) as ->.
  { apply N.eqb_neq. change 0 with (Z.of_nat 0).
    rewrite (charCodeAt_lookup _ _ _ H0). intros ->.
    apply Hseg. by eapply list_elem_of_lookup_2. }
  cbn [Z.to_nat]. rewrite Nat.sub_0_r.
  assert (0 < length n)%nat as Hlen by (subst n; cbn; lia).
  pose proof (parse_loop_seen n Hseg (length n)
                (path.MkScan (-1) 0 (-1) true 0) (le_n _)) as Hs.
  destruct (path.parse_loop n 0 (length n) (path.MkScan (-1) 0 (-1) true 0))
    as [sd sp e ms pd].
  destruct Hs as (Hsp & He & Hdots).
  { split; [done |]. split; [by rewrite bool_decide_eq_false_2 by lia |].
    left. split; [done |]. split; [done |].
    intros j c Hj Hle. apply lookup_lt_Some in Hj. lia. }
  cbn in Hsp, He, Hdots. subst sp.
  rewrite bool_decide_eq_true_2 in He by lia. subst e.
  cbn [path.endIdx path.startDot path.startPart path.preDotState].
  destruct (Z.eqb_spec (Z.of_nat (length n)) (-1)) as [| _]; [lia |].
  cbn [negb andb Z.eqb].
  destruct Hdots as [(-> & -> & Hno) | (d & -> & _ & Hdd & Hafter & ->)].
  - left. cbn [orb Z.eqb]. rewrite slice_whole. split; [done |].
    left. intros (j & Hj)%list_elem_of_lookup_1. apply (Hno j _ Hj); [lia | done].
  - destruct (Z.eqb_spec (Z.of_nat d) (-1)) as [| _]; [lia |].
    cbn [orb]. pose proof (lookup_lt_Some _ _ _ Hdd) as Hdlt.
    destruct (decide (d = 0%nat)) as [-> | Hd0].
    { left. rewrite bool_decide_eq_true_2 by done. cbn [Z.eqb orb].
      rewrite slice_whole. split; [done |]. right. left.
      exists r. subst n. cbn in Hdd. injection Hdd as ->. split; [done |].
      intros (j & Hj)%list_elem_of_lookup_1.
      by apply (Hafter (S j) CHAR_DOT ltac:(lia) Hj). }
    rewrite (bool_decide_eq_false_2 (d = 0%nat)) by done.
    assert (n = take d n ++ CHAR_DOT :: drop (S d) n) as Hsplit
        by by rewrite take_drop_middle.
    assert (take d n <> []) as Hstem.
    { intros Ht%(f_equal length). rewrite length_take in Ht. cbn in Ht. lia. }
    assert (CHAR_DOT ∉ drop (S d) n) as Hext.
    { intros (j & Hj)%list_elem_of_lookup_1. rewrite lookup_drop in Hj.
      by apply (Hafter (S d + j)%nat CHAR_DOT ltac:(lia) Hj). }
    assert (slice n (Z.of_nat d) (Z.of_nat (length n))
            = CHAR_DOT :: drop (S d) n) as Hslice.
    { rewrite slice_to_end. by apply drop_S. }
    case_bool_decide as Hfirst.
    + destruct (decide (d = 1%nat /\ length n = 2%nat)) as [[-> Hl2] | Hnot].
      * left. rewrite Hl2.
        match goal with
        | |- context [if ?b then _ else _] =>
            replace b with true by reflexivity
        end.
        rewrite <- Hl2, slice_whole.
        split; [done |]. right. right.
        subst n. destruct r as [| c1 [| c2 r']]; cbn in Hl2; try lia.
        cbn in Hdd, Hfirst. by injection Hdd as ->; injection Hfirst as ->.
      * right. exists (take d n), (drop (S d) n).
        split; [done |]. split; [done |]. split; [done |]. split.
        { intros [Ht Hd]. apply Hnot.
          apply (f_equal length) in Ht, Hd.
          rewrite length_take in Ht. rewrite length_drop in Hd.
          cbn in Ht, Hd. lia. }
        match goal with
        | |- context [if ?b then _ else _] => assert (b = false) as ->
        end.
        { destruct (Z.eqb_spec (Z.of_nat d) (Z.of_nat (length n) - 1));
            destruct (Z.eqb_spec (Z.of_nat d) (0 + 1)); try reflexivity.
          exfalso. apply Hnot. lia. }
        by rewrite slice_whole, Hslice, slice_from_zero.
    + right. exists (take d n), (drop (S d) n).
      split; [done |]. split; [done |]. split; [done |]. split.
      { intros [Ht _]. apply Hfirst.
        destruct d as [| d']; [done |].
        subst n. cbn in Ht. by injection Ht as ->. }
      match goal with
      | |- context [if ?b then _ else _] =>
          replace b with false by reflexivity
      end.
      by rewrite slice_whole, Hslice, slice_from_zero.
Qed.

Lemma dot_in_middle (s e : jstring) : CHAR_DOT ∈ s ++ CHAR_DOT :: e.
Proof. apply elem_of_app. right. constructor. Qed.

Lemma last_dot_split_unique stem stem' e e' :
  CHAR_DOT ∉ e -> CHAR_DOT ∉ e' ->
  stem ++ CHAR_DOT :: e = stem' ++ CHAR_DOT :: e' ->
  stem = stem' /\ e = e'.
Proof.
  intros He He'. revert stem'.
  induction stem as [| c s IH]; intros [| c' s']; cbn.
  - by intros [= ->].
  - intros [= <- ->]. destruct He. apply dot_in_middle.
  - intros [= -> <-]. destruct He'. apply dot_in_middle.
  - intros [= Hc H]. destruct (IH s' H). by subst.
Qed.

Lemma no_dot_decide (s : jstring) :
  bool_decide (CHAR_DOT ∉ s) = true -> CHAR_DOT ∉ s.
Proof. intros H. by apply bool_decide_eq_true in H. Qed.

(** X12. An entry name [stem.e], where [e] has no dot and [stem] is not
    empty, gives the file node with [filename] the stem and
    [fileExtension] [e]: the name is split at its last dot, and a name
    that ends in a dot gets the empty extension. The one exception is the
    name made of two dots. *)
Theorem file_node_splits_name_at_last_dot stem e text :
  stem <> [] ->
  ~ (stem = [CHAR_DOT] /\ e = []) ->
  CHAR_DOT ∉ e ->
  segment (stem ++ CHAR_DOT :: e) ->
  file_item (stem ++ CHAR_DOT :: e) text = ItemFile (MkFile stem e text).
Proof.
  intros Hstem Hnot He Hseg. unfold file_item.
  destruct (parse_segment _ Hseg)
    as [[_ [Hno | [(m & Hm & Hno) | Hdots]]]
       | (stem' & e' & Hn & _ & He' & _ & ->)].
  - destruct Hno. apply dot_in_middle.
  - destruct stem as [| c s]; [done |]. injection Hm as -> <-.
    destruct Hno. apply dot_in_middle.
  - destruct stem as [| c [| c' s]]; [done | |].
    + injection Hdots as -> Hd. destruct e; [| done]. by destruct Hnot.
    + injection Hdots as -> -> Hd. by destruct s.
  - destruct (last_dot_split_unique _ _ _ _ He He' Hn) as [<- <-].
    cbn [path.name path.ext remove_first].
    by rewrite N.eqb_refl.
Qed.

Lemma file_node_splits_witness :
  js "archive.tar" <> []
  /\ ~ (js "archive.tar" = [CHAR_DOT] /\ js "gz" = [])
  /\ (CHAR_DOT ∉ js "gz")
  /\ segment (js "archive.tar" ++ CHAR_DOT :: js "gz")
  /\ file_item (js "archive.tar" ++ CHAR_DOT :: js "gz") (js "data")
     = ItemFile (MkFile (js "archive.tar") (js "gz") (js "data")).
Proof.
  assert (js "archive.tar" <> []) as H1 by done.
  assert (~ (js "archive.tar" = [CHAR_DOT] /\ js "gz" = [])) as H2
      by (by intros [_ ?]).
  assert (CHAR_DOT ∉ js "gz") as H3
      by (apply no_dot_decide; reflexivity).
  assert (segment (js "archive.tar" ++ CHAR_DOT :: js "gz")) as H4
      by (apply segment_decide; reflexivity).
  repeat (split; [assumption |]).
  exact (file_node_splits_name_at_last_dot
           (js "archive.tar") (js "gz") (js "data") H1 H2 H3 H4).
Defined.

(** X13. An entry name without a dot, and an entry name whose only dot
    is its first character (a dotfile), gives a file node with the whole
    name as [filename] and the empty [fileExtension]. *)
Theorem file_node_without_extension n text :
  segment n ->
  (CHAR_DOT ∉ n) \/ (exists m, n = CHAR_DOT :: m /\ (CHAR_DOT ∉ m)) ->
  file_item n text = ItemFile (MkFile n [] text).
Proof.
  intros Hseg Hn. unfold file_item.
  destruct (parse_segment _ Hseg)
    as [[-> _] | (stem & e & -> & Hstem & He & _ & _)]; [done |].
  exfalso. destruct Hn as [Hno | (m & Hm & Hno)].
  - destruct Hno. apply dot_in_middle.
  - destruct stem as [| c s]; [done |]. injection Hm as -> <-.
    destruct Hno. apply dot_in_middle.
Qed.

Lemma file_node_without_extension_witness :
  segment (js ".bashrc")
  /\ ((CHAR_DOT ∉ js ".bashrc")
      \/ exists m, js ".bashrc" = CHAR_DOT :: m /\ (CHAR_DOT ∉ m))
  /\ file_item (js ".bashrc") (js "data")
     = ItemFile (MkFile (js ".bashrc") [] (js "data")).
Proof.
  assert (segment (js ".bashrc")) as H1
      by (apply segment_decide; reflexivity).
  assert ((CHAR_DOT ∉ js ".bashrc")
          \/ exists m, js ".bashrc" = CHAR_DOT :: m /\ (CHAR_DOT ∉ m)) as H2.
  { right. exists (js "bashrc"). split; [reflexivity |].
    apply no_dot_decide. reflexivity. }
  split; [exact H1 |]. split; [exact H2 |].
  exact (file_node_without_extension (js ".bashrc") (js "data") H1 H2).
Defined.

(** X14. The file node keeps the entry name: the name is the [filename],
    or the [filename], a dot and the [fileExtension]; and the [filename]
    of a non-empty name is not empty. The content is the one given. *)
Theorem file_node_keeps_the_entry_name n text :
  segment n ->
  exists f,
    file_item n text = ItemFile f
    /\ content f = text
    /\ (n = filename f \/ n = filename f ++ CHAR_DOT :: fileExtension f)
    /\ (n <> [] -> filename f <> []).
Proof.
  intros Hseg. unfold file_item.
  destruct (parse_segment _ Hseg)
    as [[-> _] | (stem & e & Hn & Hstem & He & _ & ->)].
  - eexists. split; [reflexivity |]. cbn. split; [done |].
    split; [by left | done].
  - eexists. split; [reflexivity |].
    cbn [filename fileExtension content path.name path.ext remove_first].
    rewrite N.eqb_refl. split; [done |]. split; [by right | done].
Qed.

Lemma file_node_keeps_the_entry_name_witness :
  segment (js "notes.")
  /\ exists f,
      file_item (js "notes.") (js "data") = ItemFile f
      /\ content f = js "data"
      /\ (js "notes." = filename f
          \/ js "notes." = filename f ++ CHAR_DOT :: fileExtension f)
      /\ (js "notes." <> [] -> filename f <> []).
Proof.
  assert (segment (js "notes.")) as H1
      by (apply segment_decide; reflexivity).
  split; [exact H1 |].
  exact (file_node_keeps_the_entry_name (js "notes.") (js "data") H1).
Defined.

(** ** [path.basename] and [path.dirname] on a path that ends in a name *)

Lemma basename_loop_slashes p (a : nat) start :
  forall k : nat,
    (a <= k)%nat ->
    (forall j, (a <= j < k)%nat -> p !! j = Some CHAR_FORWARD_SLASH) ->
    path.basename_loop p k start (-1) true
    = path.basename_loop p a start (-1) true.
Proof.
  induction k as [| k IH]; intros Hak Hall.
  { by replace a with 0%nat by lia. }
  destruct (decide (a = S k)) as [-> | Hne]; [done |].
  cbn [path.basename_loop].
  rewrite (charCodeAt_lookup _ _ _ (Hall k ltac:(lia))), N.eqb_refl.
  cbn [negb]. apply IH; [lia |]. intros j Hj. apply Hall. lia.
Qed.

Lemma basename_loop_name p (a : nat) start endI :
  endI <> -1 ->
  forall k : nat,
    (a <= k <= length p)%nat ->
    (forall j c, (a <= j < k)%nat -> p !! j = Some c ->
                 c <> CHAR_FORWARD_SLASH) ->
    path.basename_loop p k start endI false
    = path.basename_loop p a start endI false.
Proof.
  intros Hend. induction k as [| k IH]; intros Hak Hall.
  { by replace a with 0%nat by lia. }
  destruct (decide (a = S k)) as [-> | Hne]; [done |].
  cbn [path.basename_loop].
  destruct (lookup_lt_is_Some_2 p k) as [c Hc]; [lia |].
  rewrite (charCodeAt_lookup _ _ _ Hc).
  rewrite (proj2 (N.eqb_neq _ _) (Hall k c ltac:(lia) Hc)).
  rewrite (proj2 (Z.eqb_neq _ _) Hend).
  apply IH; [lia |]. intros j c' Hj. apply Hall. lia.
Qed.

(** The last segment of a path: after [front], which is empty or ends in
    a separator, comes the name [n], then any number of separators. *)
Lemma basename_last_segment front n (t : nat) :
  front = [] \/ (exists dir, front = dir ++ [CHAR_FORWARD_SLASH]) ->
  n <> [] -> segment n ->
  path.basename (front ++ n ++ replicate t CHAR_FORWARD_SLASH) = n.
Proof.
  intros Hfront Hn Hseg. unfold path.basename.
  set (p := front ++ n ++ replicate t CHAR_FORWARD_SLASH).
  set (a := length front). set (k0 := (a + length n)%nat).
  assert (length p = (k0 + t)%nat) as Hlen.
  { subst p k0 a. rewrite !length_app, length_replicate. lia. }
  assert (0 < length n)%nat as Hn0 by (destruct n; [done | cbn; lia]).
  assert (forall j c, (a <= j < k0)%nat -> p !! j = Some c ->
                      c <> CHAR_FORWARD_SLASH) as Hname.
  { intros j c Hj. subst p a k0.
    rewrite lookup_app_r by lia. rewrite lookup_app_l by lia.
    intros Hc ->. apply Hseg. by eapply list_elem_of_lookup_2. }
  rewrite Hlen.
  rewrite (basename_loop_slashes p k0 0 (k0 + t)); [| lia |].
  2:{ intros j Hj. subst p a k0.
      rewrite lookup_app_r by lia. rewrite lookup_app_r by lia.
      apply lookup_replicate_2. lia. }
  destruct k0 as [| k1] eqn:Ek0; [lia |].
  cbn [path.basename_loop].
  destruct (lookup_lt_is_Some_2 p k1) as [c Hc]; [lia |].
  rewrite (charCodeAt_lookup _ _ _ Hc).
  rewrite (proj2 (N.eqb_neq _ _) (Hname k1 c ltac:(lia) Hc)).
  rewrite Z.eqb_refl.
  rewrite (basename_loop_name p a 0 (Z.of_nat k1 + 1)); [| lia | lia |].
  2:{ intros j c' Hj. apply Hname. lia. }
  assert (slice p (Z.of_nat a) (Z.of_nat k1 + 1) = n) as Hslice.
  { unfold slice. replace (Z.to_nat (Z.of_nat k1 + 1)) with (S k1) by lia.
    rewrite Nat2Z.id. subst p a. rewrite drop_app_length.
    replace (S k1 - length front)%nat with (length n) by lia.
    by rewrite take_app_length. }
  destruct Hfront as [Hnil | (dir & Hdir)].
  - assert (a = 0%nat) as Ha by (subst a; by rewrite Hnil).
    rewrite Ha in *. cbn [path.basename_loop].
    destruct (Z.eqb_spec (Z.of_nat k1 + 1) (-1)); [lia |]. exact Hslice.
  - assert (a = S (length dir)) as Ha.
    { subst a. rewrite Hdir, length_app. cbn. lia. }
    assert (p !! length dir = Some CHAR_FORWARD_SLASH) as Hsep.
    { subst p. rewrite Hdir, <- !app_assoc.
      by rewrite lookup_app_r, Nat.sub_diag by lia. }
    rewrite Ha in *. cbn [path.basename_loop].
    rewrite (charCodeAt_lookup _ _ _ Hsep), N.eqb_refl. cbn [negb].
    destruct (Z.eqb_spec (Z.of_nat k1 + 1) (-1)); [lia |].
    replace (Z.of_nat (length dir) + 1) with (Z.of_nat (S (length dir)))
      by lia.
    exact Hslice.
Qed.

(** X15. The root folder of a scan is named by the last segment of the
    path that was given: for a path that ends in the name [n], with any
    number of separators after it, the folder returned for a directory is
    named [n]. *)
Theorem root_folder_is_named_by_last_segment
        w front n (t : nat) options st listing :
  front = [] \/ (exists dir, front = dir ++ [CHAR_FORWARD_SLASH]) ->
  n <> [] -> segment n ->
  lookup_path w (front ++ n ++ replicate t CHAR_FORWARD_SLASH)
  = Some (Directory listing) ->
  exists d st',
    scanTemplateDirectory w (front ++ n ++ replicate t CHAR_FORWARD_SLASH)
                          options st = (Ok d, st')
    /\ folderName d = n.
Proof.
  intros Hfront Hn Hseg Hroot.
  rewrite (scan_directory _ _ _ _ _ Hroot) by done.
  rewrite (basename_last_segment _ _ _ Hfront Hn Hseg).
  destruct listing as [es |].
  - rewrite processDirectory_listing. by eexists _, _.
  - rewrite processDirectory_unlisted by done. by eexists _, _.
Qed.

Lemma root_folder_witness :
  (js "/srv/" = [] \/ exists dir, js "/srv/" = dir ++ [CHAR_FORWARD_SLASH])
  /\ js "starter" <> []
  /\ segment (js "starter")
  /\ lookup_path (world_of (js "/srv/starter//") one_small_file)
                 (js "/srv/" ++ js "starter" ++ replicate 2 CHAR_FORWARD_SLASH)
     = Some (Directory (Some [(js "a.txt", small_file)]))
  /\ exists d st',
      scanTemplateDirectory
        (world_of (js "/srv/starter//") one_small_file)
        (js "/srv/" ++ js "starter" ++ replicate 2 CHAR_FORWARD_SLASH)
        noOptions (initial ∅) = (Ok d, st')
      /\ folderName d = js "starter".
Proof.
  assert (js "/srv/" = []
          \/ exists dir, js "/srv/" = dir ++ [CHAR_FORWARD_SLASH]) as H1
      by (right; by exists (js "/srv")).
  assert (js "starter" <> []) as H2 by done.
  assert (segment (js "starter")) as H3
      by (apply segment_decide; reflexivity).
  assert (lookup_path (world_of (js "/srv/starter//") one_small_file)
            (js "/srv/" ++ js "starter" ++ replicate 2 CHAR_FORWARD_SLASH)
          = Some (Directory (Some [(js "a.txt", small_file)]))) as H4
      by reflexivity.
  repeat (split; [assumption |]).
  exact (root_folder_is_named_by_last_segment
           (world_of (js "/srv/starter//") one_small_file)
           (js "/srv/") (js "starter") 2 noOptions (initial ∅)
           (Some [(js "a.txt", small_file)]) H1 H2 H3 H4).
Defined.

Lemma dirname_loop_name p (a : nat) :
  forall (k : nat) matched,
    (a < k < length p)%nat ->
    (forall j c, (a < j <= k)%nat -> p !! j = Some c ->
                 c <> CHAR_FORWARD_SLASH) ->
    path.dirname_loop p k matched = path.dirname_loop p a false.
Proof.
  induction k as [| k IH]; intros matched Hak Hall; [lia |].
  cbn [path.dirname_loop].
  destruct (lookup_lt_is_Some_2 p (S k)) as [c Hc]; [lia |].
  rewrite (charCodeAt_lookup _ _ _ Hc).
  rewrite (proj2 (N.eqb_neq _ _) (Hall (S k) c ltac:(lia) Hc)).
  destruct (decide (a = k)) as [-> | Hne]; [done |].
  apply IH; [lia |]. intros j c' Hj. apply Hall. lia.
Qed.

(** The directory of a path [dir/n]. *)
Lemma dirname_of_joined dir n :
  dir <> [] -> dir <> [CHAR_FORWARD_SLASH] ->
  n <> [] -> segment n ->
  path.dirname (dir ++ CHAR_FORWARD_SLASH :: n) = dir.
Proof.
  intros Hdir Hroot Hn Hseg. unfold path.dirname.
  set (p := dir ++ CHAR_FORWARD_SLASH :: n).
  assert (length p = (length dir + S (length n))%nat) as Hlen
      by (subst p; by rewrite length_app).
  assert (0 < length n)%nat as Hn0 by (destruct n; [done | cbn; lia]).
  assert (0 < length dir)%nat as Hd0 by (destruct dir; [done | cbn; lia]).
  rewrite bool_decide_eq_false_2 by lia.
  assert (p !! length dir = Some CHAR_FORWARD_SLASH) as Hsep.
  { subst p. by rewrite lookup_app_r, Nat.sub_diag by lia. }
  assert (path.dirname_loop p (length p - 1) true = Z.of_nat (length dir))
    as ->.
  { rewrite (dirname_loop_name p (length dir)); [| lia |].
    - destruct (length dir) as [| k] eqn:Ek; [lia |].
      cbn [path.dirname_loop].
      by rewrite (charCodeAt_lookup _ _ _ Hsep), N.eqb_refl.
    - intros j c Hj. subst p. rewrite lookup_app_r by lia.
      destruct (j - length dir)%nat as [| i] eqn:Ei; [lia |]. cbn.
      intros Hc ->. apply Hseg. by eapply list_elem_of_lookup_2. }
  destruct (Z.eqb_spec (Z.of_nat (length dir)) (-1)); [lia |].
  assert (slice p 0 (Z.of_nat (length dir)) = dir) as Hslice.
  { rewrite slice_from_zero. subst p. by rewrite take_app_length. }
  destruct (Z.eqb_spec (Z.of_nat (length dir)) 1) as [H1 | _];
    [| by rewrite andb_false_r].
  rewrite andb_true_r.
  destruct (N.eqb_spec (charCodeAt p 0) CHAR_FORWARD_SLASH) as [H0 | _];
    [| done].
  exfalso. apply Hroot.
  destruct dir as [| c [| c' r]]; cbn in H1; try lia.
  subst p. by rewrite <- H0.
Qed.

(** X16. Saving to [dir/n] calls [mkdir(dir, { recursive: true })]
    first, before any write: it is this call that makes [dir] and the
    missing directories above it. Whatever happens after, every [mkdir]
    call of the save is this same call, and every [writeFile] call names
    [dir/n]. *)
Theorem save_makes_the_parent_directory w tp dir n options st :
  dir <> [] -> dir <> [CHAR_FORWARD_SLASH] ->
  n <> [] -> segment n ->
  exists rest,
    trace (saveTemplateStructureToJson
             w tp (dir ++ CHAR_FORWARD_SLASH :: n) options st).2
    = trace (scanTemplateDirectory w tp (default noOptions options) st).2
      ++ EvMkdir dir true :: rest
    /\ Forall (fun e => is_write e = true ->
                        e = EvMkdir dir true
                        \/ e = EvWriteFile (dir ++ CHAR_FORWARD_SLASH :: n))
              rest.
Proof.
  intros Hdir Hroot Hn Hseg.
  destruct (scan_total w tp (default noOptions options) st)
    as (d & st1 & Hscan).
  rewrite (save_cases _ _ _ _ _ _ _ Hscan), Hscan. cbn zeta.
  rewrite (dirname_of_joined _ _ Hdir Hroot Hn Hseg).
  set (out := dir ++ CHAR_FORWARD_SLASH :: n).
  destruct (mkdir_ok w dir).
  - destruct (write_ok w out (JSON.stringify (folder_value d))).
    + exists [EvWriteFile out]. cbn [snd trace set_document log].
      split; [by rewrite <- app_assoc |].
      apply Forall_singleton. intros _. by right.
    + exists [EvWriteFile out;
              EvWarn (js "Template generation failed, writing empty template");
              EvMkdir dir true; EvWriteFile out].
      split.
      * destruct (write_ok w out _);
          cbn [snd trace set_document log]; by rewrite <- !app_assoc.
      * repeat (apply Forall_cons; split); try apply Forall_nil;
          try (intros _; by left); try (intros _; by right); done.
  - exists [EvWarn (js "Template generation failed, writing empty template");
            EvMkdir dir true].
    cbn [snd trace set_document log].
    split; [by rewrite <- !app_assoc |].
    repeat (apply Forall_cons; split); try apply Forall_nil;
      try (intros _; by left); done.
Qed.

Lemma save_makes_the_parent_directory_witness :
  js "/out/gen" <> [] /\ js "/out/gen" <> [CHAR_FORWARD_SLASH]
  /\ js "t.json" <> [] /\ segment (js "t.json")
  /\ exists rest,
      trace (saveTemplateStructureToJson
               (world_of (js "/t") nested_tree) (js "/t")
               (js "/out/gen" ++ CHAR_FORWARD_SLASH :: js "t.json")
               None (initial ∅)).2
      = trace (scanTemplateDirectory
                 (world_of (js "/t") nested_tree) (js "/t")
                 (default noOptions None) (initial ∅)).2
        ++ EvMkdir (js "/out/gen") true :: rest
      /\ Forall (fun e =>
                   is_write e = true ->
                   e = EvMkdir (js "/out/gen") true
                   \/ e = EvWriteFile
                            (js "/out/gen"
                             ++ CHAR_FORWARD_SLASH :: js "t.json"))
                rest.
Proof.
  assert (js "/out/gen" <> []) as H1 by done.
  assert (js "/out/gen" <> [CHAR_FORWARD_SLASH]) as H2 by done.
  assert (js "t.json" <> []) as H3 by done.
  assert (segment (js "t.json")) as H4
      by (apply segment_decide; reflexivity).
  repeat (split; [assumption |]).
  exact (save_makes_the_parent_directory
           (world_of (js "/t") nested_tree) (js "/t") (js "/out/gen")
           (js "t.json") None (initial ∅) H1 H2 H3 H4).
Defined.

(** ** What the default patterns match *)

Lemma ends_nonempty p s j : ends p s j <> [] <-> exists e, e ∈ ends p s j.
Proof.
  destruct (ends p s j) as [| e l]; split; try done.
  - by intros [e He%elem_of_nil].
  - intros _. exists e. constructor.
Qed.

Lemma elem_of_ends_seq a b s i e :
  e ∈ ends (PSeq a b) s i <-> exists m, m ∈ ends a s i /\ e ∈ ends b s m.
Proof. cbn [ends]. rewrite list_elem_of_bind. naive_solver. Qed.

Lemma elem_of_ends_char c s i e :
  e ∈ ends (PChar c) s i <-> s !! i = Some c /\ e = S i.
Proof.
  cbn [ends]. destruct (s !! i) as [x |]; [| by rewrite elem_of_nil; naive_solver].
  destruct (N.eqb_spec x c) as [-> | Hne].
  - rewrite list_elem_of_singleton. naive_solver.
  - rewrite elem_of_nil. naive_solver.
Qed.

Lemma elem_of_ends_dot s i e :
  e ∈ ends PDot s i
  <-> (exists x, s !! i = Some x /\ isLineTerminator x = false) /\ e = S i.
Proof.
  cbn [ends]. destruct (s !! i) as [x |]; [| by rewrite elem_of_nil; naive_solver].
  destruct (isLineTerminator x) eqn:Hx.
  - rewrite elem_of_nil. split; [done |].
    intros [(x' & [= <-] & Hx') _]. congruence.
  - rewrite list_elem_of_singleton. split.
    + intros ->. split; [by exists x | done].
    + by intros [_ ->].
Qed.

Lemma elem_of_ends_bol s i e : e ∈ ends PBol s i <-> i = 0%nat /\ e = i.
Proof.
  cbn [ends]. case_bool_decide.
  - rewrite list_elem_of_singleton. naive_solver.
  - rewrite elem_of_nil. naive_solver.
Qed.

Lemma elem_of_ends_eol s i e : e ∈ ends PEol s i <-> i = length s /\ e = i.
Proof.
  cbn [ends]. case_bool_decide.
  - rewrite list_elem_of_singleton. naive_solver.
  - rewrite elem_of_nil. naive_solver.
Qed.

Lemma elem_of_ends_str w s i e :
  e ∈ ends (PStr w) s i
  <-> e = (i + length w)%nat /\ take (length w) (drop i s) = w.
Proof.
  revert i. induction w as [| c w IH]; intros i.
  - cbn. rewrite list_elem_of_singleton, Nat.add_0_r. naive_solver.
  - change (PStr (c :: w)) with (PSeq (PChar c) (PStr w)).
    rewrite elem_of_ends_seq. cbn [length]. split.
    + intros (m & [Hc ->]%elem_of_ends_char & [-> Hw]%IH).
      split; [lia |]. rewrite (drop_S _ _ _ Hc). cbn. by rewrite Hw.
    + intros [-> Hw]. exists (S i).
      destruct (s !! i) as [x |] eqn:Hx.
      * rewrite (drop_S _ _ _ Hx) in Hw. cbn in Hw. injection Hw as -> Hw.
        rewrite elem_of_ends_char, IH. split; [done |]. split; [lia | done].
      * rewrite drop_ge in Hw by by apply lookup_ge_None. done.
Qed.

Lemma ends_plus_star a s i :
  ends (PPlus a) s i = (e ← ends a s i; star_ends a s (S (length s)) e).
Proof. reflexivity. Qed.

(** The characters of [s] from [i] up to [e] are not line terminators. *)
Lemma elem_of_star_dot s fuel :
  forall i e,
    e ∈ star_ends PDot s fuel i
    <-> (i <= e)%nat /\ (e - i <= fuel)%nat
        /\ forall k, (i <= k < e)%nat ->
                     exists x, s !! k = Some x /\ isLineTerminator x = false.
Proof.
  induction fuel as [| fuel IH]; intros i e.
  - cbn. rewrite list_elem_of_singleton. split.
    + intros ->. split; [lia |]. split; [lia |]. intros k Hk. lia.
    + intros (H1 & H2 & _). lia.
  - cbn [star_ends]. rewrite elem_of_app, list_elem_of_singleton.
    rewrite list_elem_of_bind. split.
    + intros [(m & Hm & [Hx ->]%elem_of_ends_dot) | ->].
      * rewrite bool_decide_eq_false_2 in Hm by lia.
        apply IH in Hm as (H1 & H2 & H3).
        split; [lia |]. split; [lia |]. intros k Hk.
        destruct (decide (k = i)) as [-> | Hne]; [done |]. apply H3. lia.
      * split; [lia |]. split; [lia |]. intros k Hk. lia.
    + intros (H1 & H2 & H3).
      destruct (decide (e = i)) as [-> | Hne]; [by right |]. left.
      exists (S i). rewrite bool_decide_eq_false_2 by lia. split.
      * apply IH. split; [lia |]. split; [lia |]. intros k Hk. apply H3. lia.
      * apply elem_of_ends_dot. split; [| done]. apply H3. lia.
Qed.

Lemma elem_of_ends_plus_dot s i e :
  e ∈ ends (PPlus PDot) s i
  <-> (i < e)%nat
      /\ forall k, (i <= k < e)%nat ->
                   exists x, s !! k = Some x /\ isLineTerminator x = false.
Proof.
  rewrite ends_plus_star, list_elem_of_bind. split.
  - intros (m & Hm & [Hx ->]%elem_of_ends_dot).
    apply elem_of_star_dot in Hm as (H1 & H2 & H3).
    split; [lia |]. intros k Hk.
    destruct (decide (k = i)) as [-> | Hne]; [done |]. apply H3. lia.
  - intros (H1 & H2). exists (S i). split.
    + apply elem_of_star_dot. split; [lia |]. split.
      * destruct (H2 (e - 1)%nat ltac:(lia)) as (x & Hx%lookup_lt_Some & _).
        lia.
      * intros k Hk. apply H2. lia.
    + apply elem_of_ends_dot. split; [| done]. apply H2. lia.
Qed.

Lemma backup_pattern_spec n :
  pattern_matches backup_file_pattern n = true <-> is_backup_name n.
Proof.
  rewrite pattern_matches_iff. unfold backup_file_pattern, is_backup_name.
  split.
  - intros (j & _ & (e & He)%ends_nonempty).
    apply elem_of_ends_seq in He as (m & [Hc ->]%elem_of_ends_char & He).
    apply elem_of_ends_eol in He as [Hlen _].
    exists (take j n). rewrite <- (take_drop j n) at 1. f_equal.
    rewrite (drop_S _ _ _ Hc). f_equal. apply drop_ge. lia.
  - intros (r & ->). exists (length r). rewrite length_app. cbn [length].
    split; [lia |]. apply ends_nonempty. exists (S (length r)).
    apply elem_of_ends_seq. exists (S (length r)). split.
    + apply elem_of_ends_char. split; [| done].
      by rewrite lookup_app_r, Nat.sub_diag by lia.
    + apply elem_of_ends_eol. rewrite length_app. cbn. lia.
Qed.

Lemma lock_pattern_spec n :
  pattern_matches lock_file_pattern n = true <-> is_lock_name n.
Proof.
  rewrite pattern_matches_iff. unfold lock_file_pattern, is_lock_name.
  split.
  - intros (j & _ & (e & He)%ends_nonempty).
    apply elem_of_ends_seq in He as (m & [-> ->]%elem_of_ends_bol & He).
    apply elem_of_ends_str in He as [_ Hw]. rewrite drop_0 in Hw.
    exists (drop 2 n). rewrite <- (take_drop 2 n) at 1. by f_equal.
  - intros (r & ->). exists 0%nat. split; [lia |].
    apply ends_nonempty. exists 2%nat.
    apply elem_of_ends_seq. exists 0%nat. split.
    + by apply elem_of_ends_bol.
    + by apply elem_of_ends_str.
Qed.

Lemma swap_pattern_spec n :
  pattern_matches swap_file_pattern n = true <-> is_swap_name n.
Proof.
  rewrite pattern_matches_iff. unfold swap_file_pattern, is_swap_name.
  split.
  - intros (j & _ & (e & He)%ends_nonempty).
    apply elem_of_ends_seq in He as (m0 & [-> ->]%elem_of_ends_bol & He).
    apply elem_of_ends_seq in He as (m1 & [Hc ->]%elem_of_ends_char & He).
    apply elem_of_ends_seq in He as (m2 & [Hlt Hmid]%elem_of_ends_plus_dot & He).
    apply elem_of_ends_seq in He as (m3 & [-> Hw]%elem_of_ends_str & He).
    apply elem_of_ends_eol in He as [Hlen _].
    change (length (js ".swp")) with 4%nat in *.
    exists (take (m2 - 1) (drop 1 n)).
    assert (m2 + 4 = length n)%nat as Hlen' by lia.
    split; [| split].
    + destruct n as [| c r]; [done |]. cbn in Hc. injection Hc as ->.
      cbn [drop length] in *. rewrite drop_0. f_equal.
      rewrite <- (take_drop (m2 - 1) r) at 1. f_equal.
      replace m2 with (S (m2 - 1)) in Hw by lia. cbn [drop] in Hw.
      rewrite <- Hw. symmetry. apply take_ge. rewrite length_drop. lia.
    + intros Ht%(f_equal length). rewrite length_take, length_drop in Ht.
      cbn in Ht. lia.
    + apply Forall_forall. intros x Hx.
      apply list_elem_of_lookup_1 in Hx as (k & Hk).
      apply lookup_take_Some in Hk as [Hk Hklt].
      rewrite lookup_drop in Hk.
      destruct (Hmid (1 + k)%nat ltac:(lia)) as (x' & Hx' & Hnl). congruence.
  - intros (mid & -> & Hne & Hall). exists 0%nat. split; [lia |].
    assert (0 < length mid)%nat as Hlen by (destruct mid; [done | cbn; lia]).
    apply ends_nonempty. exists (S (length mid) + 4)%nat.
    apply elem_of_ends_seq. exists 0%nat.
    split; [by apply elem_of_ends_bol |].
    apply elem_of_ends_seq. exists 1%nat.
    split; [by apply elem_of_ends_char |].
    apply elem_of_ends_seq. exists (S (length mid)). split.
    { apply elem_of_ends_plus_dot. split; [lia |]. intros k Hk.
      destruct (lookup_lt_is_Some_2 mid (k - 1)) as [x Hx]; [lia |].
      exists x. split.
      - destruct k as [| k']; [lia |].
        change ((CHAR_DOT :: mid ++ js ".swp") !! S k')
          with ((mid ++ js ".swp") !! k').
        rewrite lookup_app_l by lia.
        by replace (S k' - 1)%nat with k' in Hx by lia.
      - eapply Forall_forall in Hall; [exact Hall |].
        by eapply list_elem_of_lookup_2. }
    apply elem_of_ends_seq. exists (S (length mid) + 4)%nat. split.
    + apply elem_of_ends_str. split; [done |].
      cbn [drop]. by rewrite drop_app_length.
    + apply elem_of_ends_eol. split; [| done].
      cbn [length]. rewrite length_app.
      change (length (js ".swp")) with 4%nat. lia.
Qed.

Lemma default_patterns_spec n :
  some_matches (or_empty (ignorePatterns defaultOptions)) n = true
  <-> is_swap_name n \/ is_lock_name n \/ is_backup_name n.
Proof.
  change (some_matches (or_empty (ignorePatterns defaultOptions)) n)
    with (pattern_matches swap_file_pattern n
          || (pattern_matches lock_file_pattern n
              || (pattern_matches backup_file_pattern n || false))).
  rewrite orb_false_r, !orb_true_iff.
  by rewrite swap_pattern_spec, lock_pattern_spec, backup_pattern_spec.
Qed.

(** X17. The three default patterns match exactly the names they are
    written for: [/^\..+\.swp$/] the swap files, a dot, one or more
    characters other than line terminators, and [.swp]; [/^\.#/] the names
    that begin with [.#]; [/~$/] the names that end in a tilde. *)
Theorem default_patterns_match_editor_files n :
  some_matches (or_empty (ignorePatterns defaultOptions)) n = true
  <-> is_swap_name n \/ is_lock_name n \/ is_backup_name n.
Proof. apply default_patterns_spec. Qed.

(** ** The default patterns stay in front and keep working *)

Lemma some_test_flagless_prefix ps qs s :
  forallb flagless ps = true ->
  some_test (ps ++ qs) s
  = if some_matches ps s then (true, ps ++ qs)
    else ((some_test qs s).1, ps ++ (some_test qs s).2).
Proof.
  unfold some_matches. induction ps as [| r ps IH]; cbn [forallb app existsb].
  { intros _. by destruct (some_test qs s). }
  intros [Hr Hps]%andb_true_iff. cbn [some_test].
  rewrite (RegExp_test_flagless r s Hr).
  destruct (pattern_matches (source r) s); [done |]. cbn [orb].
  rewrite (IH Hps). by destruct (existsb _ ps).
Qed.

Lemma defaults_flagless :
  forallb flagless (or_empty (ignorePatterns defaultOptions)) = true.
Proof. reflexivity. Qed.

Lemma some_pattern_keeps_defaults options n st qs :
  regexps st = or_empty (ignorePatterns defaultOptions) ++ qs ->
  exists qs',
    regexps (some_pattern options n st).2
    = or_empty (ignorePatterns defaultOptions) ++ qs'.
Proof.
  intros Hst. rewrite some_pattern_state.
  destruct (ignorePatterns options); [| by exists qs].
  cbn [regexps set_regexps]. rewrite Hst.
  rewrite (some_test_flagless_prefix _ _ _ defaults_flagless).
  destruct (some_matches _ n); by eexists.
Qed.

Lemma walk_keeps_defaults options fp es st its st' :
  walk options fp es st its st' ->
  (exists qs, regexps st = or_empty (ignorePatterns defaultOptions) ++ qs) ->
  exists qs', regexps st' = or_empty (ignorePatterns defaultOptions) ++ qs'.
Proof.
  induction 1 as [fp st
                 | fp n es st its st' _ IH
                 | fp n listing es st its st' Hin _ IH
                 | fp n sub es st children st1 its st2 Hin _ IHsub _ IH
                 | fp n es st its st' Hin _ IH
                 | fp n sz t es st its st' Hin _ IH
                 | fp n sz t es st its st' Hin Hm _ IH
                 | fp n sz t es st its st' Hret _ IH];
    intros Hst; try by apply IH.
  - done.
  - apply IH, IHsub. exact Hst.
  - destruct Hst as [qs Hst]. apply IH.
    by apply (some_pattern_keeps_defaults options n st qs).
  - destruct Hst as [qs Hst]. apply IH.
    rewrite file_calls_regexps.
    by apply (some_pattern_keeps_defaults options n st qs).
Qed.

Lemma reached_keeps_defaults options fp es st0 dir name node st :
  reached options fp es st0 dir name node st ->
  (exists qs, regexps st0 = or_empty (ignorePatterns defaultOptions) ++ qs) ->
  exists qs', regexps st = or_empty (ignorePatterns defaultOptions) ++ qs'.
Proof.
  induction 1 as [fp pre name node post st0
                 | fp pre d sub post st0 dir name node st Hd Hr IH];
    intros Hst.
  - by apply (walk_keeps_defaults _ _ _ _ _ _
                (run_entries_walk options fp pre st0)).
  - apply IH. cbn [regexps log].
    by apply (walk_keeps_defaults _ _ _ _ _ _
                (run_entries_walk options fp pre st0)).
Qed.

(** X18. A swap file, a lock file and a backup file never get a node,
    at any depth, whatever patterns the caller adds, also patterns with
    the flags [g] or [y]: the default patterns are tested first and have
    no state. Nothing is called for such a file, neither [stat] nor
    [readFile], and the state is left as it was. *)
Theorem editor_files_have_no_node
        tp options st es dir name sz text st1 :
  reached (mergedOptions options) tp es (scan_start tp options st)
          dir name (RegularFile sz text) st1 ->
  is_swap_name name \/ is_lock_name name \/ is_backup_name name ->
  run_entries (mergedOptions options) dir [(name, RegularFile sz text)] st1
  = ([], st1).
Proof.
  intros Hreach Hname%default_patterns_spec.
  destruct (reached_keeps_defaults _ _ _ _ _ _ _ _ Hreach) as [qs Hst1].
  { by exists (or_empty (ignorePatterns options)). }
  destruct (includes_opt (ignoreFiles (mergedOptions options)) name) eqn:Hin.
  { by apply run_entries_ignored_file. }
  assert (some_pattern (mergedOptions options) name st1 = (Ok true, st1))
    as Hpat.
  { unfold some_pattern. cbn [mergedOptions ignorePatterns].
    rewrite Hst1, (some_test_flagless_prefix _ _ _ defaults_flagless), Hname.
    rewrite <- Hst1. by destruct st1. }
  rewrite run_entries_matched_file; [| done | by rewrite Hpat].
  by rewrite Hpat.
Qed.

Lemma editor_files_witness :
  (is_swap_name (js "notes.txt~") \/ is_lock_name (js "notes.txt~")
      \/ is_backup_name (js "notes.txt~"))
  /\ run_entries (mergedOptions (only_patterns [global_log_files])) (js "/t")
                 [(js "notes.txt~", small_file)]
                 (run_entries (mergedOptions (only_patterns [global_log_files]))
                              (js "/t") [(js "a.log", small_file)]
                              (scan_start (js "/t")
                                          (only_patterns [global_log_files])
                                          (initial ∅))).2
     = ([], (run_entries (mergedOptions (only_patterns [global_log_files]))
                         (js "/t") [(js "a.log", small_file)]
                         (scan_start (js "/t")
                                     (only_patterns [global_log_files])
                                     (initial ∅))).2).
Proof.
  assert (is_swap_name (js "notes.txt~") \/ is_lock_name (js "notes.txt~")
          \/ is_backup_name (js "notes.txt~")) as H2
      by (right; right; by exists (js "notes.txt")).
  split; [exact H2 |].
  exact (editor_files_have_no_node
           (js "/t")
           (only_patterns [global_log_files]) (initial ∅)
           [(js "a.log", small_file); (js "notes.txt~", small_file)]
           (js "/t") (js "notes.txt~") (Some 5%N) (Some (js "hello")) _
           (reached_here (mergedOptions (only_patterns [global_log_files]))
                         (js "/t") [(js "a.log", small_file)]
                         (js "notes.txt~") small_file []
                         (scan_start (js "/t")
                                     (only_patterns [global_log_files])
                                     (initial ∅)))
           H2).
Defined.

(** ** Entries that are passed over *)

Lemma includes_app l1 l2 x :
  includes (l1 ++ l2) x = includes l1 x || includes l2 x.
Proof.
  unfold includes. rewrite <- bool_decide_or.
  apply bool_decide_ext, elem_of_app.
Qed.

(** X19. The caller cannot take a name off the default lists: for every
    configuration, a file entry named in the default [ignoreFiles] and a
    directory entry named in the default [ignoreFolders] pushes no node,
    and nothing is called for it. *)
Theorem default_names_cannot_be_unignored options fp n node st :
  (isFile node = true /\ n ∈ or_empty (ignoreFiles defaultOptions))
  \/ (isDirectory node = true
      /\ n ∈ or_empty (ignoreFolders defaultOptions)) ->
  run_entries (mergedOptions options) fp [(n, node)] st = ([], st).
Proof.
  intros [[Hnode Hn] | [Hnode Hn]].
  - destruct node as [sz t | |]; try done.
    apply run_entries_ignored_file.
    cbn [mergedOptions ignoreFiles includes_opt]. rewrite includes_app.
    unfold includes at 1. by rewrite bool_decide_eq_true_2.
  - destruct node as [| listing |]; try done.
    apply run_entries_ignored_folder.
    cbn [mergedOptions ignoreFolders includes_opt]. rewrite includes_app.
    unfold includes at 1. by rewrite bool_decide_eq_true_2.
Qed.

Lemma default_names_witness :
  ((isFile small_file = true
    /\ js ".env" ∈ or_empty (ignoreFiles defaultOptions))
   \/ (isDirectory small_file = true
       /\ js ".env" ∈ or_empty (ignoreFolders defaultOptions)))
  /\ run_entries (mergedOptions custom_options) (js "/t")
                 [(js ".env", small_file)] (initial ∅)
     = ([], initial ∅).
Proof.
  assert ((isFile small_file = true
           /\ js ".env" ∈ or_empty (ignoreFiles defaultOptions))
          \/ (isDirectory small_file = true
              /\ js ".env" ∈ or_empty (ignoreFolders defaultOptions))) as H.
  { left. split; [reflexivity |].
    apply (bool_decide_eq_true_1
             (js ".env" ∈ or_empty (ignoreFiles defaultOptions))).
    reflexivity. }
  split; [exact H |].
  exact (default_names_cannot_be_unignored custom_options (js "/t")
           (js ".env") small_file (initial ∅) H).
Defined.

(** X20. An entry that is passed over leaves no trace. When an entry is
    neither a directory nor a regular file, or is a directory named in
    [ignoreFolders], or is a file named in [ignoreFiles], then
    [processDirectory] returns the same folder and ends in the same state
    (same calls, same patterns) as on the listing without the entry. *)
Theorem skipped_entries_leave_no_trace fn fp options pre n node post st :
  node = Special
  \/ (isDirectory node = true
      /\ includes_opt (ignoreFolders options) n = true)
  \/ (isFile node = true /\ includes_opt (ignoreFiles options) n = true) ->
  processDirectory fn fp options
                   (Directory (Some (pre ++ (n, node) :: post))) st
  = processDirectory fn fp options (Directory (Some (pre ++ post))) st.
Proof.
  intros Hskip. rewrite !processDirectory_listing.
  assert (forall s, run_entries options fp [(n, node)] s = ([], s)) as Hone.
  { intros s. destruct Hskip as [-> | [[Hnode Hn] | [Hnode Hn]]].
    - apply run_entries_special.
    - destruct node as [| listing |]; try done.
      by apply run_entries_ignored_folder.
    - destruct node as [sz t | |]; try done.
      by apply run_entries_ignored_file. }
  rewrite run_entries_split, run_entries_app.
  destruct (run_entries options fp pre _) as [its1 st1].
  rewrite Hone. by destruct (run_entries options fp post st1).
Qed.

Lemma skipped_entries_witness :
  (Special = Special
   \/ (isDirectory Special = true
       /\ includes_opt (ignoreFolders noOptions) (js "sock") = true)
   \/ (isFile Special = true
       /\ includes_opt (ignoreFiles noOptions) (js "sock") = true))
  /\ processDirectory (js "t") (js "/t") noOptions
       (Directory (Some ([(js "a.txt", small_file)]
                         ++ (js "sock", Special) :: [(js "b.txt", small_file)])))
       (initial ∅)
     = processDirectory (js "t") (js "/t") noOptions
         (Directory (Some ([(js "a.txt", small_file)]
                           ++ [(js "b.txt", small_file)])))
         (initial ∅).
Proof.
  assert (Special = Special
          \/ (isDirectory Special = true
              /\ includes_opt (ignoreFolders noOptions) (js "sock") = true)
          \/ (isFile Special = true
              /\ includes_opt (ignoreFiles noOptions) (js "sock") = true))
    as H by (by left).
  split; [exact H |].
  exact (skipped_entries_leave_no_trace (js "t") (js "/t") noOptions
           [(js "a.txt", small_file)] (js "sock") Special
           [(js "b.txt", small_file)] (initial ∅) H).
Defined.

(** ** The calls made for a file *)

Lemma some_pattern_trace options n st :
  trace (some_pattern options n st).2 = trace st
  /\ documents (some_pattern options n st).2 = documents st.
Proof.
  rewrite some_pattern_state. by destruct (ignorePatterns options).
Qed.

(** X21. For one file entry the scanner calls nothing when the entry is
    filtered out. Otherwise it calls [stat] once and, only when [stat]
    returned and the size is not over a non-zero [maxFileSize], [readFile]
    once after it; no other call is made and no document is changed. *)
Theorem file_entry_calls options fp n sz t st :
  let p := path.join fp n in
  let st' := (run_entries options fp [(n, RegularFile sz t)] st).2 in
  documents st' = documents st
  /\ trace st'
     = trace st
       ++ (if retained options st n then
             match sz with
             | Some size =>
                 if too_large options size then [EvStat p]
                 else [EvStat p; EvReadFile p]
             | None => [EvStat p]
             end
           else []).
Proof.
  cbn zeta. destruct (some_pattern_trace options n st) as [Htr Hdoc].
  destruct (retained options st n) eqn:Hret.
  - rewrite run_entries_retained_file by done. cbn [snd].
    unfold file_calls. destruct sz as [size |].
    + destruct (too_large options size); cbn [documents trace log];
        rewrite Htr, Hdoc; [done |]. by rewrite <- app_assoc.
    + cbn [documents trace log]. by rewrite Htr, Hdoc.
  - rewrite app_nil_r.
    destruct (includes_opt (ignoreFiles options) n) eqn:Hin.
    + by rewrite run_entries_ignored_file.
    + assert ((some_pattern options n st).1 = Ok true) as Hm.
      { unfold retained in Hret. rewrite Hin in Hret. cbn [negb andb] in Hret.
        destruct (some_pattern_ok options n st) as [[] Hb]; [done |].
        by rewrite Hb in Hret. }
      by rewrite run_entries_matched_file.
Qed.

(** ** Scans compose *)

Lemma walk_keeps_flagless options fp es st its st' :
  walk options fp es st its st' ->
  forallb flagless (regexps st) = true ->
  regexps st' = regexps st.
Proof.
  induction 1 as [fp st
                 | fp n es st its st' _ IH
                 | fp n listing es st its st' Hin _ IH
                 | fp n sub es st children st1 its st2 Hin _ IHsub _ IH
                 | fp n es st its st' Hin _ IH
                 | fp n sz t es st its st' Hin _ IH
                 | fp n sz t es st its st' Hin Hm _ IH
                 | fp n sz t es st its st' Hret _ IH];
    intros Hfl; try by apply IH.
  - done.
  - specialize (IHsub Hfl). cbn [regexps log] in IHsub.
    rewrite IH; [done | by rewrite IHsub].
  - rewrite (some_pattern_flagless _ _ _ Hfl) in IH. by apply IH.
  - rewrite (some_pattern_flagless _ _ _ Hfl) in IH. cbn [snd] in IH.
    rewrite !file_calls_regexps in IH. by apply IH.
Qed.

(** Without flags on the patterns, the items depend on the listing, the
    options and the patterns only: not on the path, not on the calls made
    before. *)
Lemma walk_items_independent options fp es st its st1 :
  walk options fp es st its st1 ->
  forallb flagless (regexps st) = true ->
  forall fp' st',
    regexps st' = regexps st ->
    (run_entries options fp' es st').1 = its.
Proof.
  induction 1 as [fp st
                 | fp n es st its st1 _ IH
                 | fp n listing es st its st1 Hin _ IH
                 | fp n sub es st children st1 its st2 Hin Hsub IHsub _ IH
                 | fp n es st its st1 Hin _ IH
                 | fp n sz t es st its st1 Hin _ IH
                 | fp n sz t es st its st1 Hin Hm Hrest IH
                 | fp n sz t es st its st1 Hret Hrest IH];
    intros Hfl fp' st' Hst'; [done | rewrite run_entries_cons ..].
  - rewrite run_entries_special. specialize (IH Hfl fp' st' Hst').
    destruct (run_entries options fp' es st'). cbn in *. by subst.
  - rewrite run_entries_ignored_folder by done.
    specialize (IH Hfl fp' st' Hst').
    destruct (run_entries options fp' es st'). cbn in *. by subst.
  - rewrite run_entries_folder by done. cbn zeta.
    specialize (IHsub Hfl (path.join fp' n)
                      (log (EvReaddir (path.join fp' n)) st') Hst').
    pose proof (walk_keeps_flagless _ _ _ _ _ _ Hsub Hfl) as Hst1.
    cbn [regexps log] in Hst1.
    assert (regexps (run_entries options (path.join fp' n) sub
                       (log (EvReaddir (path.join fp' n)) st')).2
            = regexps st1) as Hsame.
    { rewrite run_entries_keeps_flagless; cbn [regexps log]; congruence. }
    specialize (IH ltac:(by rewrite Hst1) fp' _ Hsame).
    set (r := run_entries options (path.join fp' n) sub
                (log (EvReaddir (path.join fp' n)) st')) in *.
    rewrite IHsub.
    destruct (run_entries options fp' es r.2) as [its' st3].
    cbn [fst] in IH. by subst its'.
  - rewrite run_entries_unlisted_folder by done.
    specialize (IH Hfl fp' (readdir_failed (path.join fp' n) st') Hst').
    destruct (run_entries options fp' es _). cbn in *. by subst.
  - rewrite run_entries_ignored_file by done.
    specialize (IH Hfl fp' st' Hst').
    destruct (run_entries options fp' es st'). cbn in *. by subst.
  - assert (forallb flagless (regexps st') = true) as Hfl' by by rewrite Hst'.
    rewrite (some_pattern_flagless _ _ _ Hfl) in Hm, IH. cbn [fst snd] in *.
    rewrite run_entries_matched_file;
      [| done | rewrite (some_pattern_flagless _ _ _ Hfl'); cbn [fst];
                by rewrite Hst'].
    rewrite (some_pattern_flagless _ _ _ Hfl'). cbn [snd].
    specialize (IH Hfl fp' st' Hst').
    destruct (run_entries options fp' es st'). cbn in *. by subst.
  - assert (forallb flagless (regexps st') = true) as Hfl' by by rewrite Hst'.
    assert (retained options st' n = true) as Hret'.
    { rewrite (retained_flagless _ _ _ Hfl'), Hst'.
      by rewrite <- (retained_flagless _ _ _ Hfl). }
    rewrite run_entries_retained_file by done.
    rewrite (some_pattern_flagless _ _ _ Hfl) in IH.
    rewrite (some_pattern_flagless _ _ _ Hfl'). cbn [snd] in *.
    specialize (IH ltac:(by rewrite file_calls_regexps) fp'
                   (file_calls options (path.join fp' n) (RegularFile sz t) st')
                   ltac:(by rewrite !file_calls_regexps)).
    destruct (run_entries options fp' es _). cbn in *. by subst.
Qed.

(** X22. Scans compose. When the patterns of the caller have no flag
    [g] or [y], the folder node that a scan holds for a subdirectory, at
    any depth, is the tree that a scan of that subdirectory with the same
    configuration returns, whatever was scanned before. *)
Theorem subdirectory_scan_agrees
        w w' tp tp' options st st0 es dir name sub st1 :
  forallb flagless (or_empty (ignorePatterns options)) = true ->
  lookup_path w tp = Some (Directory (Some es)) ->
  reached (mergedOptions options) tp es (scan_start tp options st)
          dir name (Directory (Some sub)) st1 ->
  includes_opt (ignoreFolders (mergedOptions options)) name = false ->
  lookup_path w' tp' = Some (Directory (Some sub)) ->
  path.basename tp' = name ->
  exists d d' s s',
    scanTemplateDirectory w tp options st = (Ok d, s)
    /\ scanTemplateDirectory w' tp' options st0 = (Ok d', s')
    /\ occurs (as_item d') (items d).
Proof.
  intros Hfl Hroot Hreach Hin Hroot' Hname.
  rewrite (scan_listing _ _ _ _ _ Hroot), (scan_listing _ _ _ _ _ Hroot').
  eexists _, _, _, _. split; [reflexivity |]. split; [reflexivity |].
  unfold as_item. cbn [folderName items]. rewrite Hname.
  assert (forallb flagless (regexps (scan_start tp options st)) = true) as H0.
  { change (regexps (scan_start tp options st))
      with (or_empty (ignorePatterns defaultOptions)
            ++ or_empty (ignorePatterns options)).
    rewrite forallb_app. by rewrite Hfl. }
  pose proof (reached_keeps_flagless _ _ _ _ _ _ _ _ Hreach H0) as Hst1.
  pose proof (reached_directory_occurs _ _ _ _ _ _ _ (Some sub) _ Hreach
                eq_refl Hin) as Hocc.
  cbn beta iota in Hocc.
  rewrite (walk_items_independent _ _ _ _ _ _
             (run_entries_walk (mergedOptions options) (path.join dir name)
                sub (log (EvReaddir (path.join dir name)) st1)));
    [exact Hocc | by cbn [regexps log]; rewrite Hst1 |].
  cbn [regexps log]. by rewrite Hst1.
Qed.

Lemma subdirectory_scan_witness :
  forallb flagless (or_empty (ignorePatterns noOptions)) = true
  /\ lookup_path (world_of (js "/t") nested_tree) (js "/t")
     = Some nested_tree
  /\ includes_opt (ignoreFolders (mergedOptions noOptions)) (js "src") = false
  /\ path.basename (js "/elsewhere/src") = js "src"
  /\ exists d d' s s',
      scanTemplateDirectory (world_of (js "/t") nested_tree) (js "/t")
                            noOptions (initial ∅) = (Ok d, s)
      /\ scanTemplateDirectory
           (world_of (js "/elsewhere/src")
              (Directory (Some [
                 (js "utils",
                  Directory (Some [(js "helper.ts",
                                    RegularFile (Some 2%N)
                                                (Some (js "ok")))]))])))
           (js "/elsewhere/src") noOptions (initial ∅) = (Ok d', s')
      /\ occurs (as_item d') (items d).
Proof.
  repeat (split; [reflexivity |]).
  apply (subdirectory_scan_agrees
           (world_of (js "/t") nested_tree)
           (world_of (js "/elsewhere/src")
              (Directory (Some [
                 (js "utils",
                  Directory (Some [(js "helper.ts",
                                    RegularFile (Some 2%N)
                                                (Some (js "ok")))]))])))
           (js "/t") (js "/elsewhere/src") noOptions (initial ∅) (initial ∅)
           [(js "src",
             Directory (Some [
               (js "utils",
                Directory (Some [(js "helper.ts",
                                  RegularFile (Some 2%N) (Some (js "ok")))]))]));
            (js "notes.txt", RegularFile (Some 20%N) (Some quoted_text))]
           (js "/t") (js "src")
           [(js "utils",
             Directory (Some [(js "helper.ts",
                               RegularFile (Some 2%N) (Some (js "ok")))]))]
           (scan_start (js "/t") noOptions (initial ∅))).
  - reflexivity.
  - reflexivity.
  - apply (reached_here (mergedOptions noOptions) (js "/t") [] (js "src")
             (Directory (Some [
                (js "utils",
                 Directory (Some [(js "helper.ts",
                                   RegularFile (Some 2%N)
                                               (Some (js "ok")))]))]))
             [(js "notes.txt", RegularFile (Some 20%N) (Some quoted_text))]).
  - reflexivity.
  - reflexivity.
  - reflexivity.
Defined.

(** ** The filters without flags, the bound below zero, an absent root *)

(** X23. When the patterns of the caller have no flag [g] or [y], the
    outcome of a file entry that the traversal reaches, at any depth, is
    decided by its name alone. An entry whose name is in the merged
    [ignoreFiles], or is matched by a merged pattern, pushes nothing and
    changes nothing; every other one pushes its file node and makes the
    calls of a retained file. *)
Theorem flagless_filter_decides_by_name
        tp options st es dir name sz text st1 :
  forallb flagless (or_empty (ignorePatterns options)) = true ->
  reached (mergedOptions options) tp es (scan_start tp options st)
          dir name (RegularFile sz text) st1 ->
  run_entries (mergedOptions options) dir [(name, RegularFile sz text)] st1
  = if includes_opt (ignoreFiles (mergedOptions options)) name
       || some_matches (or_empty (ignorePatterns (mergedOptions options))) name
    then ([], st1)
    else ([file_item name
             (file_content (mergedOptions options) (RegularFile sz text))],
          file_calls (mergedOptions options) (path.join dir name)
                     (RegularFile sz text) st1).
Proof.
  intros Hfl Hreach.
  assert (forallb flagless (regexps (scan_start tp options st)) = true) as H0.
  { change (regexps (scan_start tp options st))
      with (or_empty (ignorePatterns defaultOptions)
            ++ or_empty (ignorePatterns options)).
    rewrite forallb_app. by rewrite Hfl. }
  pose proof (reached_keeps_flagless _ _ _ _ _ _ _ _ Hreach H0) as Hst1.
  assert (forallb flagless (regexps st1) = true) as H1 by by rewrite Hst1.
  assert (some_pattern (mergedOptions options) name st1
          = (Ok (some_matches
                   (or_empty (ignorePatterns (mergedOptions options))) name),
             st1)) as Hpat.
  { rewrite (some_pattern_flagless _ _ _ H1). by rewrite Hst1. }
  destruct (includes_opt (ignoreFiles (mergedOptions options)) name) eqn:Hin.
  { by rewrite run_entries_ignored_file. }
  cbn [orb].
  destruct (some_matches _ name) eqn:Hm.
  - rewrite run_entries_matched_file; [| done | by rewrite Hpat].
    by rewrite Hpat.
  - rewrite run_entries_retained_file; [by rewrite Hpat |].
    unfold retained. by rewrite Hin, Hpat.
Qed.

Lemma flagless_filter_witness :
  forallb flagless (or_empty (ignorePatterns custom_options)) = true
  /\ run_entries (mergedOptions custom_options) (js "/t")
                 [(js "b.log", small_file)]
                 (run_entries (mergedOptions custom_options) (js "/t")
                              [(js "a.log", small_file)]
                              (scan_start (js "/t") custom_options
                                          (initial ∅))).2
     = if includes_opt (ignoreFiles (mergedOptions custom_options))
                       (js "b.log")
          || some_matches
               (or_empty (ignorePatterns (mergedOptions custom_options)))
               (js "b.log")
       then ([], (run_entries (mergedOptions custom_options) (js "/t")
                              [(js "a.log", small_file)]
                              (scan_start (js "/t") custom_options
                                          (initial ∅))).2)
       else ([file_item (js "b.log")
                (file_content (mergedOptions custom_options) small_file)],
             file_calls (mergedOptions custom_options)
                        (path.join (js "/t") (js "b.log")) small_file
                        (run_entries (mergedOptions custom_options) (js "/t")
                                     [(js "a.log", small_file)]
                                     (scan_start (js "/t") custom_options
                                                 (initial ∅))).2).
Proof.
  assert (forallb flagless (or_empty (ignorePatterns custom_options)) = true)
    as H by reflexivity.
  split; [exact H |].
  exact (flagless_filter_decides_by_name
           (js "/t") custom_options (initial ∅)
           [(js "a.log", small_file); (js "b.log", small_file)]
           (js "/t") (js "b.log") (Some 5%N) (Some (js "hello")) _ H
           (reached_here (mergedOptions custom_options) (js "/t")
                         [(js "a.log", small_file)] (js "b.log") small_file []
                         (scan_start (js "/t") custom_options (initial ∅)))).
Defined.

(** X24. A [maxFileSize] below zero makes every file too large: a
    retained file whose [stat] returns has a node, with the name and the
    extension that [path.parse] gives, whose content is the marker with
    its size, also when the size is zero; the file is not read, [stat] is
    the only call. *)
Theorem negative_bound_marks_every_file options fp n size t st m :
  maxFileSize options = Some m ->
  m < 0 ->
  retained (mergedOptions options) st n = true ->
  run_entries (mergedOptions options) fp [(n, RegularFile (Some size) t)] st
  = ([ItemFile
        (MkFile (path.name (path.parse n))
                (remove_first CHAR_DOT (path.ext (path.parse n)))
                (js "[File too large: " ++ decimal size ++ js " bytes]"))],
     log (EvStat (path.join fp n))
         (some_pattern (mergedOptions options) n st).2).
Proof.
  intros Hm Hneg Hret. rewrite run_entries_retained_file by done.
  assert (too_large (mergedOptions options) size = true) as Hlarge.
  { unfold too_large. cbn [mergedOptions maxFileSize]. rewrite Hm.
    apply andb_true_iff. split.
    - apply negb_true_iff, Z.eqb_neq. lia.
    - apply Z.ltb_lt. lia. }
  unfold file_content, file_calls. by rewrite Hlarge.
Qed.

Lemma negative_bound_witness :
  maxFileSize (only_maxFileSize (-1)) = Some (-1)
  /\ -1 < 0
  /\ retained (mergedOptions (only_maxFileSize (-1)))
              (scan_start (js "/t") (only_maxFileSize (-1)) (initial ∅))
              (js "empty.txt") = true
  /\ run_entries (mergedOptions (only_maxFileSize (-1))) (js "/t")
                 [(js "empty.txt", RegularFile (Some 0%N) (Some []))]
                 (scan_start (js "/t") (only_maxFileSize (-1)) (initial ∅))
     = ([ItemFile (MkFile (js "empty") (js "txt")
                          (js "[File too large: 0 bytes]"))],
        log (EvStat (path.join (js "/t") (js "empty.txt")))
            (some_pattern (mergedOptions (only_maxFileSize (-1)))
                          (js "empty.txt")
                          (scan_start (js "/t") (only_maxFileSize (-1))
                                      (initial ∅))).2).
Proof.
  assert (maxFileSize (only_maxFileSize (-1)) = Some (-1)) as H1
      by reflexivity.
  assert (-1 < 0) as H2 by lia.
  assert (retained (mergedOptions (only_maxFileSize (-1)))
                   (scan_start (js "/t") (only_maxFileSize (-1)) (initial ∅))
                   (js "empty.txt") = true) as H3 by reflexivity.
  repeat (split; [assumption |]).
  exact (negative_bound_marks_every_file
           (only_maxFileSize (-1)) (js "/t") (js "empty.txt") 0%N (Some [])
           (scan_start (js "/t") (only_maxFileSize (-1)) (initial ∅))
           (-1) H1 H2 H3).
Defined.

(** X25. Saving from a root that is missing or is not a directory writes
    the document of the empty template, when the directory of the output
    can be made and the document written; loading the output afterwards
    returns the empty template. *)
Theorem saving_an_absent_root_writes_the_empty_template
        w tp out options st :
  lookup_path w tp = None
  \/ (exists node, lookup_path w tp = Some node /\ isDirectory node = false) ->
  mkdir_ok w (path.dirname out) = true ->
  write_ok w out (JSON.stringify (folder_value EMPTY_TEMPLATE)) = true ->
  exists st2,
    saveTemplateStructureToJson w tp out options st = (Ok tt, st2)
    /\ documents st2 !! out
       = Some (JSON.stringify (folder_value EMPTY_TEMPLATE))
    /\ (readTemplateStructureFromJson out st2).1
       = Ok (folder_value EMPTY_TEMPLATE).
Proof.
  intros Hroot Hmk Hwr.
  assert (exists st1,
             scanTemplateDirectory w tp (default noOptions options) st
             = (Ok EMPTY_TEMPLATE, st1)) as [st1 Hscan].
  { destruct Hroot as [H | (node & H & Hd)].
    - rewrite (scan_missing _ _ _ _ H). by eexists.
    - rewrite (scan_not_directory _ _ _ _ _ H Hd). by eexists. }
  rewrite (save_cases _ _ _ _ _ _ _ Hscan). cbn zeta. rewrite Hmk, Hwr.
  eexists. split; [reflexivity |].
  cbn [documents set_document]. rewrite lookup_insert_eq. split; [done |].
  rewrite read_equation. cbn [fst documents set_document].
  by rewrite lookup_insert_eq, parse_text_folder.
Qed.

Lemma saving_an_absent_root_witness :
  (lookup_path (world_of (js "/t") one_small_file) (js "/nope") = None
   \/ exists node,
       lookup_path (world_of (js "/t") one_small_file) (js "/nope")
       = Some node /\ isDirectory node = false)
  /\ mkdir_ok (world_of (js "/t") one_small_file)
              (path.dirname (js "/out/t.json")) = true
  /\ write_ok (world_of (js "/t") one_small_file) (js "/out/t.json")
              (JSON.stringify (folder_value EMPTY_TEMPLATE)) = true
  /\ exists st2,
      saveTemplateStructureToJson (world_of (js "/t") one_small_file)
                                  (js "/nope") (js "/out/t.json") None
                                  (initial ∅) = (Ok tt, st2)
      /\ documents st2 !! js "/out/t.json"
         = Some (JSON.stringify (folder_value EMPTY_TEMPLATE))
      /\ (readTemplateStructureFromJson (js "/out/t.json") st2).1
         = Ok (folder_value EMPTY_TEMPLATE).
Proof.
  assert (lookup_path (world_of (js "/t") one_small_file) (js "/nope") = None
          \/ exists node,
              lookup_path (world_of (js "/t") one_small_file) (js "/nope")
              = Some node /\ isDirectory node = false) as H1
      by (left; reflexivity).
  assert (mkdir_ok (world_of (js "/t") one_small_file)
                   (path.dirname (js "/out/t.json")) = true) as H2
      by reflexivity.
  assert (write_ok (world_of (js "/t") one_small_file) (js "/out/t.json")
                   (JSON.stringify (folder_value EMPTY_TEMPLATE)) = true)
    as H3 by reflexivity.
  repeat (split; [assumption |]).
  exact (saving_an_absent_root_writes_the_empty_template
           (world_of (js "/t") one_small_file) (js "/nope")
           (js "/out/t.json") None (initial ∅) H1 H2 H3).
Defined.

(** ** The tree holds nothing else *)

Lemma reached_cons options fp e rest st0 dir name node st :
  reached options fp rest (run_entries options fp [e] st0).2
          dir name node st ->
  reached options fp (e :: rest) st0 dir name node st.
Proof.
  remember (run_entries options fp [e] st0).2 as s1 eqn:Es1.
  induction 1 as [fp pre name node post s1
                 | fp pre d sub post s1 dir name node st Hd Hr _].
  - assert ((run_entries options fp pre s1).2
            = (run_entries options fp (e :: pre) st0).2) as ->.
    { rewrite (run_entries_cons _ _ e pre). subst s1.
      destruct (run_entries options fp [e] st0) as [its1 st1]. cbn [snd].
      by destruct (run_entries options fp pre st1). }
    apply (reached_here options fp (e :: pre)).
  - apply (reached_below options fp (e :: pre)); [done |].
    assert ((run_entries options fp (e :: pre) st0).2
            = (run_entries options fp pre s1).2) as ->; [| done].
    rewrite (run_entries_cons _ _ e pre). subst s1.
    destruct (run_entries options fp [e] st0) as [its1 st1]. cbn [snd].
    by destruct (run_entries options fp pre st1).
Qed.

(** Where a file node of the items comes from. *)
Lemma file_node_origin_with options es :
  Forall (fun e =>
            forall sub, e.2 = Directory (Some sub) ->
              forall fp st0 f,
                occurs (ItemFile f) (run_entries options fp sub st0).1 ->
                exists dir name sz text st1,
                  reached options fp sub st0 dir name
                          (RegularFile sz text) st1
                  /\ retained options st1 name = true
                  /\ ItemFile f
                     = file_item name
                         (file_content options (RegularFile sz text))) es ->
  forall fp st0 f,
    occurs (ItemFile f) (run_entries options fp es st0).1 ->
    exists dir name sz text st1,
      reached options fp es st0 dir name (RegularFile sz text) st1
      /\ retained options st1 name = true
      /\ ItemFile f
         = file_item name (file_content options (RegularFile sz text)).
Proof.
  induction 1 as [| [n c] es Hc _ IHes]; intros fp st0 f Hocc.
  { by apply occurs_nil in Hocc. }
  rewrite run_entries_cons in Hocc.
  destruct (run_entries options fp [(n, c)] st0) as [its1 st1] eqn:E1.
  destruct (run_entries options fp es st1) as [its2 st2] eqn:E2.
  apply occurs_app in Hocc as [Hocc | Hocc].
  - destruct c as [sz t | [sub |] |].
    + destruct (retained options st0 n) eqn:Hret.
      * rewrite run_entries_retained_file in E1 by done.
        injection E1 as <- _.
        apply occurs_singleton in Hocc as [Hx | (? & ? & [=] & _)].
        exists fp, n, sz, t, st0. split; [| done].
        apply (reached_here options fp [] n (RegularFile sz t) es st0).
      * destruct (includes_opt (ignoreFiles options) n) eqn:Hin.
        -- rewrite run_entries_ignored_file in E1 by done.
           injection E1 as <- _. by apply occurs_nil in Hocc.
        -- assert ((some_pattern options n st0).1 = Ok true) as Hm.
           { unfold retained in Hret. rewrite Hin in Hret.
             cbn [negb andb] in Hret.
             destruct (some_pattern_ok options n st0) as [[] Hb]; [done |].
             by rewrite Hb in Hret. }
           rewrite run_entries_matched_file in E1 by done.
           injection E1 as <- _. by apply occurs_nil in Hocc.
    + destruct (includes_opt (ignoreFolders options) n) eqn:Hin.
      * rewrite run_entries_ignored_folder in E1 by done.
        injection E1 as <- _. by apply occurs_nil in Hocc.
      * rewrite run_entries_folder in E1 by done. injection E1 as <- _.
        apply occurs_singleton in Hocc as [[=] | (? & ? & [= <- <-] & Hocc)].
        destruct (Hc sub eq_refl _ _ _ Hocc)
          as (dir & name & sz & text & s & Hr & Hret & Hx).
        exists dir, name, sz, text, s. split; [| done].
        by apply (reached_below options fp [] n sub es st0).
    + destruct (includes_opt (ignoreFolders options) n) eqn:Hin.
      * rewrite run_entries_ignored_folder in E1 by done.
        injection E1 as <- _. by apply occurs_nil in Hocc.
      * rewrite run_entries_unlisted_folder in E1 by done.
        injection E1 as <- _.
        apply occurs_singleton in Hocc as [[=] | (? & ? & [= <- <-] & Hocc)].
        by apply occurs_nil in Hocc.
    + rewrite run_entries_special in E1. injection E1 as <- _.
      by apply occurs_nil in Hocc.
  - destruct (IHes fp st1 f) as (dir & name & sz & text & s & Hr & Hret & Hx).
    { by rewrite E2. }
    exists dir, name, sz, text, s. split; [| done].
    apply reached_cons. by rewrite E1.
Qed.

Lemma file_node_origin options es fp st0 f :
  occurs (ItemFile f) (run_entries options fp es st0).1 ->
  exists dir name sz text st1,
    reached options fp es st0 dir name (RegularFile sz text) st1
    /\ retained options st1 name = true
    /\ ItemFile f
       = file_item name (file_content options (RegularFile sz text)).
Proof.
  revert fp st0 f.
  enough (forall node sub, node = Directory (Some sub) ->
            forall fp st0 f,
              occurs (ItemFile f) (run_entries options fp sub st0).1 ->
              exists dir name sz text st1,
                reached options fp sub st0 dir name (RegularFile sz text) st1
                /\ retained options st1 name = true
                /\ ItemFile f
                   = file_item name
                       (file_content options (RegularFile sz text))) as H
      by (apply (H (Directory (Some es))); reflexivity).
  induction node as [sz t | | | es' IH] using FsNode_nested_ind;
    intros sub [=]; subst.
  apply file_node_origin_with.
  eapply Forall_impl; [exact IH |]. intros e He. exact He.
Qed.

(** X26. The tree holds no file node but those of retained files: every
    file node, at any depth of the tree that a scan of a directory
    returns, is the node of a regular-file entry that the traversal
    reached and that passed both filters at that moment, with the content
    that its size and text determine. *)
Theorem every_file_node_comes_from_a_retained_entry
        w tp options st es d st' f :
  lookup_path w tp = Some (Directory (Some es)) ->
  scanTemplateDirectory w tp options st = (Ok d, st') ->
  occurs (ItemFile f) (items d) ->
  exists dir name sz text st1,
    reached (mergedOptions options) tp es (scan_start tp options st)
            dir name (RegularFile sz text) st1
    /\ retained (mergedOptions options) st1 name = true
    /\ ItemFile f
       = file_item name
           (file_content (mergedOptions options) (RegularFile sz text)).
Proof.
  intros Hroot Hscan Hocc.
  rewrite (scan_listing _ _ _ _ _ Hroot) in Hscan.
  injection Hscan as <- _. cbn [items] in Hocc.
  by apply file_node_origin.
Qed.

Lemma every_file_node_witness :
  lookup_path (world_of (js "/t") nested_tree) (js "/t") = Some nested_tree
  /\ scanTemplateDirectory (world_of (js "/t") nested_tree) (js "/t")
                           noOptions (initial ∅)
     = (Ok nested_folder,
        (scanTemplateDirectory (world_of (js "/t") nested_tree) (js "/t")
                               noOptions (initial ∅)).2)
  /\ occurs (ItemFile (MkFile (js "helper") (js "ts") (js "ok")))
            (items nested_folder)
  /\ exists dir name sz text st1,
      reached (mergedOptions noOptions) (js "/t")
              [(js "src",
                Directory (Some [
                  (js "utils",
                   Directory (Some [(js "helper.ts",
                                     RegularFile (Some 2%N)
                                                 (Some (js "ok")))]))]));
               (js "notes.txt", RegularFile (Some 20%N) (Some quoted_text))]
              (scan_start (js "/t") noOptions (initial ∅))
              dir name (RegularFile sz text) st1
      /\ retained (mergedOptions noOptions) st1 name = true
      /\ ItemFile (MkFile (js "helper") (js "ts") (js "ok"))
         = file_item name
             (file_content (mergedOptions noOptions) (RegularFile sz text)).
Proof.
  assert (occurs (ItemFile (MkFile (js "helper") (js "ts") (js "ok")))
                 (items nested_folder)) as Hocc.
  { eapply occurs_below; [by left |].
    eapply occurs_below; [by left |].
    apply occurs_here. by left. }
  split; [reflexivity |]. split; [reflexivity |]. split; [exact Hocc |].
  exact (every_file_node_comes_from_a_retained_entry
           (world_of (js "/t") nested_tree) (js "/t") noOptions (initial ∅)
           _ nested_folder _ (MkFile (js "helper") (js "ts") (js "ok"))
           eq_refl eq_refl Hocc).
Defined.

Lemma mirrors_folder_names options es its :
  mirrors options es its ->
  forall n children,
    occurs (ItemFolder n children) its ->
    includes_opt (ignoreFolders options) n = false.
Proof.
  induction 1 as [| n0 es its _ IH
                 | n0 listing es its Hin _ IH
                 | n0 sub cs es its Hin _ IHsub _ IH
                 | n0 es its Hin _ IH
                 | n0 sz t es its Hin _ IH
                 | n0 sz t es its Hm _ IH
                 | n0 sz t es its Hin _ IH];
    intros n children Hocc; try by eapply IH.
  - by apply occurs_nil in Hocc.
  - apply (occurs_app _ [_] its) in Hocc as [Hocc | Hocc]; [| by eapply IH].
    apply occurs_singleton in Hocc as [[= -> _] | (? & ? & [= <- <-] & Hocc)];
      [done | by eapply IHsub].
  - apply (occurs_app _ [_] its) in Hocc as [Hocc | Hocc]; [| by eapply IH].
    apply occurs_singleton in Hocc as [[= -> _] | (? & ? & [= <- <-] & Hocc)];
      [done | by apply occurs_nil in Hocc].
  - apply (occurs_app _ [_] its) in Hocc as [Hocc | Hocc]; [| by eapply IH].
    apply occurs_singleton in Hocc as [[=] | (? & ? & [=] & _)].
Qed.

(** X27. No folder node below the root carries an ignored name: in the
    tree that a scan returns, for every configuration, the name of every
    folder node inside the root folder is outside the merged
    [ignoreFolders], so outside the default list and outside the list of
    the caller. *)
Theorem no_folder_node_has_an_ignored_name
        w tp options st d st' n children :
  scanTemplateDirectory w tp options st = (Ok d, st') ->
  occurs (ItemFolder n children) (items d) ->
  (n ∉ or_empty (ignoreFolders defaultOptions))
  /\ (n ∉ or_empty (ignoreFolders options)).
Proof.
  intros Hscan Hocc.
  assert (includes_opt (ignoreFolders (mergedOptions options)) n = false)
    as Hin.
  { destruct (lookup_path w tp) as [node |] eqn:H.
    - destruct (isDirectory node) eqn:Hd.
      + destruct node as [| [es |] |]; try done.
        * rewrite (scan_listing _ _ _ _ _ H) in Hscan.
          injection Hscan as <- _. cbn [items] in Hocc.
          eapply mirrors_folder_names; [| exact Hocc].
          by apply (walk_mirrors _ _ _ _ _ _ (run_entries_walk _ _ _ _)).
        * rewrite (scan_directory _ _ _ _ _ H Hd) in Hscan.
          rewrite processDirectory_unlisted in Hscan by done.
          injection Hscan as <- _. by apply occurs_nil in Hocc.
      + rewrite (scan_not_directory _ _ _ _ _ H Hd) in Hscan.
        injection Hscan as <- _. by apply occurs_nil in Hocc.
    - rewrite (scan_missing _ _ _ _ H) in Hscan.
      injection Hscan as <- _. by apply occurs_nil in Hocc. }
  cbn [mergedOptions ignoreFolders includes_opt] in Hin.
  rewrite includes_app in Hin. apply orb_false_iff in Hin as [H1 H2].
  unfold includes in H1, H2.
  by apply bool_decide_eq_false in H1, H2.
Qed.

Lemma no_folder_node_witness :
  scanTemplateDirectory (world_of (js "/t") nested_tree) (js "/t")
                        noOptions (initial ∅)
  = (Ok nested_folder,
     (scanTemplateDirectory (world_of (js "/t") nested_tree) (js "/t")
                            noOptions (initial ∅)).2)
  /\ occurs (ItemFolder (js "utils")
               [ItemFile (MkFile (js "helper") (js "ts") (js "ok"))])
            (items nested_folder)
  /\ (js "utils" ∉ or_empty (ignoreFolders defaultOptions))
  /\ (js "utils" ∉ or_empty (ignoreFolders noOptions)).
Proof.
  assert (occurs (ItemFolder (js "utils")
                    [ItemFile (MkFile (js "helper") (js "ts") (js "ok"))])
                 (items nested_folder)) as Hocc.
  { eapply occurs_below; [by left |]. apply occurs_here. by left. }
  split; [reflexivity |]. split; [exact Hocc |].
  exact (no_folder_node_has_an_ignored_name
           (world_of (js "/t") nested_tree) (js "/t") noOptions (initial ∅)
           nested_folder _ (js "utils")
           [ItemFile (MkFile (js "helper") (js "ts") (js "ok"))]
           eq_refl Hocc).
Defined.

(** ** C5: names, extensions and the entry names they come from *)

Lemma segment_names_entry es n c :
  segment_names (Directory (Some es)) ->
  (n, c) ∈ es ->
  segment n /\ segment_names c.
Proof.
  induction es as [| [n0 c0] es IH]; intros Hnames Hin.
  { by apply elem_of_nil in Hin. }
  cbn in Hnames. destruct Hnames as (Hn & Hc & Hrest).
  apply elem_of_cons in Hin as [[= -> ->] | Hin]; [done |].
  by apply IH.
Qed.

Lemma reached_segment options fp es st0 dir name node st :
  reached options fp es st0 dir name node st ->
  segment_names (Directory (Some es)) ->
  segment name.
Proof.
  induction 1 as [fp pre name node post st0
                 | fp pre d sub post st0 dir name node st Hd Hr IH];
    intros Hnames.
  - apply (segment_names_entry _ name node Hnames).
    apply elem_of_app. right. constructor.
  - apply IH.
    apply (segment_names_entry _ d (Directory (Some sub)) Hnames).
    apply elem_of_app. right. constructor.
Qed.

(** C5, as amended. Every file node of a scanned tree has an extension
    without the dot, and every name in the tree (of the root folder, of a
    folder, of a file) is free of the path separator, given that the
    entry names that [readdir] returns are. Nothing lowers the case of
    the extension: every file node comes from a file entry that the
    traversal reached, and either the extension is empty and the filename
    is the entry name, or the entry name is the filename, a dot and the
    extension, code unit for code unit. *)
Theorem names_are_segments_and_extensions_have_no_dot
        w tp options st d st' :
  (forall node, lookup_path w tp = Some node -> segment_names node) ->
  scanTemplateDirectory w tp options st = (Ok d, st') ->
  segment (folderName d)
  /\ (forall x, occurs x (items d) -> item_well_formed x)
  /\ (forall f,
         occurs (ItemFile f) (items d) ->
         exists es dir name sz text st1,
           lookup_path w tp = Some (Directory (Some es))
           /\ reached (mergedOptions options) tp es (scan_start tp options st)
                      dir name (RegularFile sz text) st1
           /\ ((fileExtension f = [] /\ name = filename f)
               \/ name = filename f ++ CHAR_DOT :: fileExtension f)).
Proof.
  intros Hnames Hscan.
  destruct (scan_names_well_formed _ _ _ _ _ _ Hnames Hscan) as [Hroot Hwf].
  split; [exact Hroot |]. split; [exact Hwf |].
  intros f Hocc.
  destruct (lookup_path w tp) as [node |] eqn:H.
  - destruct (isDirectory node) eqn:Hd.
    + destruct node as [| [es |] |]; try done.
      * rewrite (scan_listing _ _ _ _ _ H) in Hscan.
        injection Hscan as <- _. cbn [items] in Hocc.
        apply file_node_origin in Hocc
          as (dir & name & sz & text & st1 & Hreach & _ & Hf).
        exists es, dir, name, sz, text, st1.
        split; [done |]. split; [done |].
        pose proof (reached_segment _ _ _ _ _ _ _ _ Hreach
                      (Hnames _ eq_refl)) as Hseg.
        unfold file_item in Hf.
        destruct (parse_segment _ Hseg)
          as [[Hp _] | (stem & e & Hn & _ & _ & _ & Hp)];
          rewrite Hp in Hf; injection Hf as ->;
          cbn [filename fileExtension path.name path.ext remove_first].
        -- by left.
        -- by right.
      * rewrite (scan_directory _ _ _ _ _ H Hd) in Hscan.
        rewrite processDirectory_unlisted in Hscan by done.
        injection Hscan as <- _. by apply occurs_nil in Hocc.
    + rewrite (scan_not_directory _ _ _ _ _ H Hd) in Hscan.
      injection Hscan as <- _. by apply occurs_nil in Hocc.
  - rewrite (scan_missing _ _ _ _ H) in Hscan.
    injection Hscan as <- _. by apply occurs_nil in Hocc.
Qed.

Lemma names_witness :
  (forall node,
      lookup_path (world_of (js "/t") one_capital_readme) (js "/t") = Some node ->
      segment_names node)
  /\ scanTemplateDirectory (world_of (js "/t") one_capital_readme) (js "/t")
                           noOptions (initial ∅)
     = (Ok (MkFolder (js "t")
              [ItemFile (MkFile (js "README") (js "MD") (js "hello"))]),
        (scanTemplateDirectory (world_of (js "/t") one_capital_readme)
                               (js "/t") noOptions (initial ∅)).2)
  /\ segment (js "t")
  /\ (forall x,
         occurs x [ItemFile (MkFile (js "README") (js "MD") (js "hello"))] ->
         item_well_formed x)
  /\ (forall f,
         occurs (ItemFile f)
                [ItemFile (MkFile (js "README") (js "MD") (js "hello"))] ->
         exists es dir name sz text st1,
           lookup_path (world_of (js "/t") one_capital_readme) (js "/t")
           = Some (Directory (Some es))
           /\ reached (mergedOptions noOptions) (js "/t") es
                      (scan_start (js "/t") noOptions (initial ∅))
                      dir name (RegularFile sz text) st1
           /\ ((fileExtension f = [] /\ name = filename f)
               \/ name = filename f ++ CHAR_DOT :: fileExtension f)).
Proof.
  assert (forall node,
             lookup_path (world_of (js "/t") one_capital_readme) (js "/t")
             = Some node -> segment_names node) as Hnames.
  { intros node [= <-]. simpl. split; [| done].
    apply segment_decide. reflexivity. }
  split; [exact Hnames |]. split; [reflexivity |].
  exact (names_are_segments_and_extensions_have_no_dot
           (world_of (js "/t") one_capital_readme) (js "/t") noOptions
           (initial ∅)
           (MkFolder (js "t")
                     [ItemFile (MkFile (js "README") (js "MD") (js "hello"))])
           (scanTemplateDirectory (world_of (js "/t") one_capital_readme)
                                  (js "/t") noOptions (initial ∅)).2
           Hnames eq_refl).
Defined.
